(** * The personal-statement evaluation pipeline of [public/script.js]

    A shallow embedding of the scoring code: the heuristic scorer
    ([scoreByKeywords], [needsModification], [evaluateLanguage], ...), the
    response parser ([parseEvaluationResponse]), the dimension evaluators that
    call the generation service, the orchestrator ([evaluateText]) and the
    suggestion generator ([generateModificationSuggestions]).

    JavaScript data is modelled as the language has it:
    - a string is a list of UTF-16 code units ([jsstring]), so that [length]
      is the [.length] of the source;
    - a Number is an IEEE 754 binary64 value ([float], the kernel's primitive
      floats), so that [0/0] is NaN and products are rounded as they are at
      run time;
    - a regular expression is a term of [regex] run by a backtracking matcher
      that follows the priority order of the ECMAScript pattern semantics;
    - a thrown exception is the [Throw] outcome of a small state-and-error
      monad whose state is the conversation with the generation service. *)

From Stdlib Require Import Ascii String.
From Stdlib Require Import ZArith NArith List Bool Lia.
From Stdlib Require Import Floats.
Import ListNotations.

Local Open Scope list_scope.

(** ** Strings *)

Definition jschar := N.
Definition jsstring := list jschar.

(** A string literal of the source (ASCII only). *)
Definition str (s : string) : jsstring :=
  map N_of_ascii (list_ascii_of_string s).

Definition LF : jschar := 10%N.
Definition SPACE : jschar := 32%N.

Definition jschar_eqb (a b : jschar) : bool := N.eqb a b.

Fixpoint jsstring_eqb (a b : jsstring) : bool :=
  match a, b with
  | [], [] => true
  | x :: a', y :: b' => jschar_eqb x y && jsstring_eqb a' b'
  | _, _ => false
  end.

(** [WhiteSpace] and [LineTerminator] code points: what [\s] matches and
    what [String.prototype.trim] strips. *)
Definition is_space (c : jschar) : bool :=
  ((9 <=? c) && (c <=? 13) || (c =? 32) || (c =? 160) || (c =? 5760)
   || ((8192 <=? c) && (c <=? 8202)) || (c =? 8232) || (c =? 8233)
   || (c =? 8239) || (c =? 8287) || (c =? 12288) || (c =? 65279))%N.

Definition is_digit (c : jschar) : bool := ((48 <=? c) && (c <=? 57))%N.

Definition is_upper (c : jschar) : bool := ((65 <=? c) && (c <=? 90))%N.
Definition is_lower (c : jschar) : bool := ((97 <=? c) && (c <=? 122))%N.

(** The word characters of [\w] and [\b]: [A-Za-z0-9_]. *)
Definition is_word_char (c : jschar) : bool :=
  is_upper c || is_lower c || is_digit c || (c =? 95)%N.

Fixpoint drop_space (s : jsstring) : jsstring :=
  match s with
  | c :: s' => if is_space c then drop_space s' else s
  | [] => []
  end.

(** [s.trim()] *)
Definition trim (s : jsstring) : jsstring :=
  rev (drop_space (rev (drop_space s))).

(** Truthiness of a string: non-empty. *)
Definition truthy (s : jsstring) : bool :=
  match s with [] => false | _ :: _ => true end.

(** [s.includes(t)] *)
Fixpoint starts_with (t s : jsstring) : bool :=
  match t, s with
  | [], _ => true
  | x :: t', y :: s' => jschar_eqb x y && starts_with t' s'
  | _ :: _, [] => false
  end.

Fixpoint includes (s t : jsstring) : bool :=
  starts_with t s ||
  match s with
  | [] => false
  | _ :: s' => includes s' t
  end.

(** ** Regular expressions

    The fragment of the pattern language the source uses: pattern characters,
    the classes [\s], [\d], bracket sets and their unions and complements,
    sequence, alternation, greedy and lazy [*], capturing groups, [\b], [$]
    and positive lookahead.  [r+] is [Seq r (Star true r)]. *)

Inductive cclass :=
| ClassSpace                       (* \s *)
| ClassDigit                       (* \d *)
| ClassSet (cs : list jschar)      (* [abc] *)
| ClassNot (c : cclass)            (* \S is ClassNot ClassSpace *)
| ClassOr (c1 c2 : cclass).        (* [\s\S] *)

Inductive regex :=
| Empty
| Char (c : jschar)
| Class (c : cclass)
| Seq (r1 r2 : regex)
| Alt (r1 r2 : regex)
| Star (greedy : bool) (r : regex)
| Group (n : nat) (r : regex)
| WordBoundary
| EndOfInput
| LookAhead (r : regex).

Definition Plus (r : regex) : regex := Seq r (Star true r).

Fixpoint Chars (w : jsstring) : regex :=
  match w with
  | [] => Empty
  | c :: w' => Seq (Char c) (Chars w')
  end.

Fixpoint Alts (r : regex) (rs : list regex) : regex :=
  match rs with
  | [] => r
  | r' :: rs' => Alt r (Alts r' rs')
  end.

Fixpoint in_class (cl : cclass) (c : jschar) : bool :=
  match cl with
  | ClassSpace => is_space c
  | ClassDigit => is_digit c
  | ClassSet cs => existsb (jschar_eqb c) cs
  | ClassNot cl' => negb (in_class cl' c)
  | ClassOr c1 c2 => in_class c1 c || in_class c2 c
  end.

(** [Canonicalize] of a pattern without the [u] flag: with [ignoreCase] a
    code unit is compared through its upper-case form, and a code unit above
    127 is never mapped to one below 128.  The patterns of the source only
    hold ASCII characters, for which this is the mapping of [a-z] to [A-Z]. *)
Definition canonicalize (ignoreCase : bool) (c : jschar) : jschar :=
  if ignoreCase && is_lower c then (c - 32)%N else c.

(** The state of a match: the input consumed so far (most recent first),
    the rest of the input and the captures set so far. *)
Record mstate := MState {
  before : list jschar;
  after : jsstring;
  caps : list (nat * jsstring)
}.

Definition is_word_at (s : list jschar) : bool :=
  match s with
  | c :: _ => is_word_char c
  | [] => false
  end.

Definition consumed (st st' : mstate) : jsstring :=
  firstn (length (after st) - length (after st')) (after st).

(** The loop of [RepeatMatcher] for [r*] and [r*?]: [body] runs [r] once.
    A greedy loop tries one more iteration before it hands over to the
    continuation, a lazy one after; an iteration that consumes nothing is
    rejected.  Every iteration consumes a code unit, so a loop started with
    the length of the input as [fuel] never runs out of it. *)
Fixpoint star_loop (greedy : bool)
         (body : mstate -> (mstate -> option mstate) -> option mstate)
         (k : mstate -> option mstate) (fuel : nat) (st : mstate)
  : option mstate :=
  match fuel with
  | O => k st
  | S fuel' =>
      let again (_ : unit) :=
        body st
          (fun st' =>
             if length (after st') <? length (after st)
             then star_loop greedy body k fuel' st'
             else None) in
      if greedy
      then match again tt with
           | Some res => Some res
           | None => k st
           end
      else match k st with
           | Some res => Some res
           | None => again tt
           end
  end.

(** The matcher, in continuation-passing style: [rmatch i r st k] tries the
    ways [r] can match at [st] in priority order and answers with the first
    one the continuation [k] accepts. *)
Fixpoint rmatch (ignoreCase : bool) (r : regex) (st : mstate)
         (k : mstate -> option mstate) {struct r} : option mstate :=
  match r with
  | Empty => k st
  | Char c =>
      match after st with
      | x :: rest =>
          if jschar_eqb (canonicalize ignoreCase x) (canonicalize ignoreCase c)
          then k (MState (x :: before st) rest (caps st))
          else None
      | [] => None
      end
  | Class cl =>
      match after st with
      | x :: rest =>
          if in_class cl x
          then k (MState (x :: before st) rest (caps st))
          else None
      | [] => None
      end
  | Seq r1 r2 =>
      rmatch ignoreCase r1 st (fun st' => rmatch ignoreCase r2 st' k)
  | Alt r1 r2 =>
      match rmatch ignoreCase r1 st k with
      | Some res => Some res
      | None => rmatch ignoreCase r2 st k
      end
  | Star greedy r' =>
      star_loop greedy (rmatch ignoreCase r') k (length (after st)) st
  | Group n r' =>
      rmatch ignoreCase r' st
        (fun st' =>
           k (MState (before st') (after st') ((n, consumed st st') :: caps st')))
  | WordBoundary =>
      if xorb (is_word_at (before st)) (is_word_at (after st))
      then k st
      else None
  | EndOfInput =>
      match after st with
      | [] => k st
      | _ :: _ => None
      end
  | LookAhead r' =>
      match rmatch ignoreCase r' st Some with
      | Some st' => k (MState (before st) (after st) (caps st'))
      | None => None
      end
  end.

(** One attempt at the current position. *)
Definition match_here (ignoreCase : bool) (r : regex)
           (bef : list jschar) (aft : jsstring) : option mstate :=
  rmatch ignoreCase r (MState bef aft []) Some.

(** [RegExpBuiltinExec] without the [g] and [y] flags: the first position,
    from the left, at which the pattern matches. *)
Fixpoint exec_from (ignoreCase : bool) (r : regex)
         (bef : list jschar) (aft : jsstring) : option mstate :=
  match match_here ignoreCase r bef aft with
  | Some st => Some st
  | None =>
      match aft with
      | [] => None
      | x :: rest => exec_from ignoreCase r (x :: bef) rest
      end
  end.

(** [s.match(r)] for a pattern without the [g] flag. *)
Definition exec (ignoreCase : bool) (r : regex) (s : jsstring) : option mstate :=
  exec_from ignoreCase r [] s.

(** [r.test(s)] *)
Definition test (ignoreCase : bool) (r : regex) (s : jsstring) : bool :=
  match exec ignoreCase r s with
  | Some _ => true
  | None => false
  end.

(** [m[n]] for a successful match [m]: the text of group [n], [None] when
    the group took no part in the match. *)
Fixpoint capture (n : nat) (cs : list (nat * jsstring)) : option jsstring :=
  match cs with
  | [] => None
  | (i, s) :: cs' => if Nat.eqb i n then Some s else capture n cs'
  end.

(** [s.split(r)] for a pattern without capturing groups and without a limit:
    the pieces of [s] between the matches of [r], found from the left.  A
    match is looked for at every position [q]; an empty match at the start
    of the current piece only moves [q] on.  [skip] counts the code units of
    the last separator that are still to be passed. *)
Fixpoint split_loop (r : regex) (skip : nat)
         (piece bef : list jschar) (aft : jsstring) : list jsstring :=
  match aft with
  | [] => [rev piece]
  | x :: rest =>
      match skip with
      | S skip' => split_loop r skip' [] (x :: bef) rest
      | O =>
          match match_here false r bef aft with
          | None => split_loop r 0 (x :: piece) (x :: bef) rest
          | Some st' =>
              match length aft - length (after st') with
              | O =>
                  match piece with
                  | [] => split_loop r 0 [x] (x :: bef) rest
                  | _ :: _ => rev piece :: split_loop r 0 [x] (x :: bef) rest
                  end
              | S n => rev piece :: split_loop r n [] (x :: bef) rest
              end
          end
      end
  end.

Definition split (r : regex) (s : jsstring) : list jsstring :=
  match s with
  | [] =>
      match match_here false r [] [] with
      | Some _ => []
      | None => [[]]
      end
  | _ :: _ => split_loop r 0 [] [] s
  end.

(** ** Numbers

    The value of a mathematical integer as a Number: the nearest binary64
    value, ties to even, infinite beyond the largest finite one. *)
Definition Number_of_Z (z : Z) : float :=
  SF2Prim (binary_normalize prec emax z 0 false).

(** [a.length] of an array or a string, as a Number. *)
Definition Number_of_nat (n : nat) : float := Number_of_Z (Z.of_nat n).

(** [Math.ceil]: the smallest integral Number not below [x]; NaN, the
    infinities and the zeros are returned as they are, and the result is
    [-0] for [x] in [(-1, 0)]. *)
Definition Math_ceil (x : float) : float :=
  match Prim2SF x with
  | S754_finite s m e =>
      if (0 <=? e)%Z then x
      else
        let v := cond_Zopp s (Zpos m) in
        let q := Z.opp (Z.shiftr (Z.opp v) (Z.opp e)) in
        if (q =? 0)%Z then neg_zero else Number_of_Z q
  | _ => x
  end.

(** [Math.round]: the integral Number closest to [x], the larger one on a
    tie; [-0] for [x] in [[-0.5, 0)]. *)
Definition Math_round (x : float) : float :=
  match Prim2SF x with
  | S754_finite s m e =>
      if (0 <=? e)%Z then x
      else
        let v := cond_Zopp s (Zpos m) in
        let q := Z.shiftr (2 * v + 2 ^ (Z.opp e)) (Z.opp e + 1) in
        if (q =? 0)%Z then (if s then neg_zero else zero) else Number_of_Z q
  | _ => x
  end.

(** [Math.min] of two Numbers: NaN if either is, and [-0] below [+0]. *)
Definition Math_min (a b : float) : float :=
  if is_nan a || is_nan b then nan
  else if (a <? b)%float then a
  else if (b <? a)%float then b
  else if get_sign a then a else b.

(** ** The heuristic scorer

    These helpers are the same in every version of the script. *)

Local Open Scope float_scope.

(** [new RegExp('\\b' + word + '\\b', 'i')], for a [word] made of pattern
    characters only (see [literal_word]): every code unit of the word stands
    for itself.  The keyword tables of the source are such words. *)
Definition RegExp_word (word : jsstring) : regex :=
  Seq WordBoundary (Seq (Chars word) WordBoundary).

Definition is_syntax_char (c : jschar) : bool :=
  existsb (jschar_eqb c) (str "^$\.*+?()[]{}|/").

Definition literal_word (word : jsstring) : bool :=
  forallb (fun c => (c <? 128)%N && negb (is_syntax_char c)) word.

Definition scoreByKeywords (text : jsstring) (keywords : list jsstring) : float :=
  let matches :=
    Number_of_nat
      (length (filter (fun word => test true (RegExp_word word) text) keywords)) in
  Math_min 5
    (Math_ceil (matches * (5 / Math_ceil (Number_of_nat (length keywords) / 2)))).

(** Content criteria. *)
Definition hasPersonalBackground (text : jsstring) : float :=
  let keywords :=
    map str ["I"; "my"; "background"; "experience"; "grew up"; "family"]%string in
  scoreByKeywords text keywords.

Definition hasEducationalExperience (text : jsstring) : float :=
  let keywords :=
    map str ["study"; "university"; "degree"; "major"; "course"; "project"]%string in
  scoreByKeywords text keywords.

Definition hasCareerGoals (text : jsstring) : float :=
  let keywords :=
    map str ["goal"; "career"; "future"; "aspire"; "aim"; "plan"]%string in
  scoreByKeywords text keywords.

Definition hasSchoolChoice (text : jsstring) : float :=
  let keywords :=
    map str ["program"; "school"; "university"; "faculty"; "research"; "choose"]%string in
  scoreByKeywords text keywords.

Definition hasUniqueness (text : jsstring) : float :=
  let keywords :=
    map str ["unique"; "different"; "special"; "distinguish"; "stand out"]%string in
  scoreByKeywords text keywords.

Definition hasSpecificExamples (text : jsstring) : float :=
  let keywords :=
    map str ["example"; "instance"; "specifically"; "particular"; "case"]%string in
  scoreByKeywords text keywords.

(** [a[0]] and [a.slice(-1)[0]] of an array of strings handed to [test],
    which reads an absent element as the string ["undefined"]. *)
Definition first_or_undefined (a : list jsstring) : jsstring :=
  match a with
  | [] => str "undefined"
  | s :: _ => s
  end.

Definition last_or_undefined (a : list jsstring) : jsstring :=
  last a (str "undefined").

(** Narrative criteria. *)
Definition hasStrongOpening (text : jsstring) : float :=
  let firstParagraph := first_or_undefined (split (Char LF) text) in
  let hooks := map str ["question"; "quote"; "anecdote"; "statistic"]%string in
  scoreByKeywords firstParagraph hooks.

Definition hasCoherentStructure (text : jsstring) : float :=
  let transitions :=
    map str ["however"; "therefore"; "moreover"; "consequently"; "additionally"]%string in
  scoreByKeywords text transitions.

Definition hasConflictResolution (text : jsstring) : float :=
  let keywords :=
    map str ["challenge"; "problem"; "obstacle"; "overcome"; "solve"; "resolution"]%string in
  scoreByKeywords text keywords.

Definition hasNarrativeDepth (text : jsstring) : float :=
  let keywords :=
    map str ["because"; "reason"; "impact"; "result"; "learn"; "reflect"]%string in
  scoreByKeywords text keywords.

Definition hasStrongClosing (text : jsstring) : float :=
  let lastParagraph := last_or_undefined (split (Char LF) text) in
  let conclusions :=
    map str ["conclusion"; "therefore"; "finally"; "future"; "contribute"]%string in
  scoreByKeywords lastParagraph conclusions.

(** The patterns of [needsModification]. *)
Definition words (ws : list string) : regex :=
  match map (fun w => Chars (str w)) ws with
  | [] => Empty
  | r :: rs => Alts r rs
  end.

(** [/\b(very|really|things|stuff)\b/i] *)
Definition vague_re : regex :=
  Seq WordBoundary
    (Seq (Group 1 (words ["very"; "really"; "things"; "stuff"]%string))
         WordBoundary).

(** [/(am|is|are|was|were) (passionate|interested|excited) (about|in)/i] *)
Definition cliche_re : regex :=
  Seq (Group 1 (words ["am"; "is"; "are"; "was"; "were"]%string))
    (Seq (Char SPACE)
       (Seq (Group 2 (words ["passionate"; "interested"; "excited"]%string))
          (Seq (Char SPACE)
             (Group 3 (words ["about"; "in"]%string))))).

(** [/\b(always|never|all|none|every|everyone)\b/i] *)
Definition absolute_re : regex :=
  Seq WordBoundary
    (Seq (Group 1
            (words ["always"; "never"; "all"; "none"; "every"; "everyone"]%string))
         WordBoundary).

Definition redFlags (sentence : jsstring) : list bool :=
  [ (50 <? length sentence)%nat;          (* Too long *)
    (length sentence <? 10)%nat;          (* Too short *)
    test true vague_re sentence;          (* Vague language *)
    test true cliche_re sentence;         (* Cliche phrases *)
    test true absolute_re sentence ].     (* Absolute statements *)

Definition needsModification (sentence : jsstring) : bool :=
  (2 <=? length (filter (fun flag => flag) (redFlags sentence)))%nat.

(** The weights, as the doubles the literals [0.4] and [0.2] denote. *)
Record weights := Weights {
  w_content : float;
  w_narrative : float;
  w_language : float
}.

Definition WEIGHTS : weights :=
  Weights 0x1.999999999999ap-2 0x1.999999999999ap-2 0x1.999999999999ap-3.

(** ** The version of the script that scores by the heuristics alone *)

Module Heuristic.

Definition evaluateContent (text : jsstring) : float :=
  let criteria :=
    [ hasPersonalBackground text;
      hasEducationalExperience text;
      hasCareerGoals text;
      hasSchoolChoice text;
      hasUniqueness text;
      hasSpecificExamples text ] in
  let totalPoints := fold_left (fun sum score => sum + score) criteria 0 in
  Math_round ((totalPoints / (Number_of_nat (length criteria) * 5)) * 100).

Definition evaluateNarrative (text : jsstring) : float :=
  let criteria :=
    [ hasStrongOpening text;
      hasCoherentStructure text;
      hasConflictResolution text;
      hasNarrativeDepth text;
      hasStrongClosing text ] in
  let totalPoints := fold_left (fun sum score => sum + score) criteria 0 in
  Math_round ((totalPoints / (Number_of_nat (length criteria) * 5)) * 100).

Definition evaluateLanguage (sentences : list jsstring) : float :=
  let modificationNeeded :=
    Number_of_nat (length (filter needsModification sentences)) in
  let modificationPercentage :=
    (modificationNeeded / Number_of_nat (length sentences)) * 100 in
  let score :=
    if modificationPercentage <=? 5 then 5
    else if modificationPercentage <=? 10 then 4
    else if modificationPercentage <=? 20 then 3
    else if modificationPercentage <=? 30 then 2
    else 1 in
  Math_round ((score / 5) * 100).

Record scores := Scores {
  content : float;
  narrative : float;
  language : float;
  final_score : float
}.

(** [/[.!?]+/] *)
Definition sentence_end_re : regex := Plus (Class (ClassSet (str ".!?"))).

Definition evaluateText (text : jsstring) : scores :=
  let sentences :=
    filter (fun s => truthy (trim s)) (split sentence_end_re text) in
  let contentScore := evaluateContent text in
  let narrativeScore := evaluateNarrative text in
  let languageScore := evaluateLanguage sentences in
  let finalScore :=
    Math_round
      (contentScore * w_content WEIGHTS +
       narrativeScore * w_narrative WEIGHTS +
       languageScore * w_language WEIGHTS) in
  Scores contentScore narrativeScore languageScore finalScore.

End Heuristic.

(** ** Values, exceptions and the generation service *)

#[local] Unset Elimination Schemes.
Inductive value :=
| VUndefined
| VNull
| VBool (b : bool)
| VNumber (x : float)
| VString (s : jsstring)
| VArray (elems : list value)
| VObject (props : list (jsstring * value)).
#[local] Set Elimination Schemes.

Inductive error :=
| TypeError
| FetchError             (* the promise of [fetch] rejects *)
| JsonError              (* the promise of [response.json()] rejects *)
| Error (message : jsstring).

Inductive completion (A : Type) :=
| Normal (a : A)
| Throw (e : error).
Arguments Normal {A} a.
Arguments Throw {A} e.

Fixpoint lookup (name : jsstring) (props : list (jsstring * value)) : value :=
  match props with
  | [] => VUndefined
  | (k, v) :: props' => if jsstring_eqb k name then v else lookup name props'
  end.

(** [v.name] for a name that is no property of the built-in prototypes
    ([choices], [message], [content], [contentFeedback], ...). *)
Definition get (v : value) (name : string) : completion value :=
  match v with
  | VUndefined | VNull => Throw TypeError
  | VObject props => Normal (lookup (str name) props)
  | _ => Normal VUndefined
  end.

(** [v[0]] *)
Definition get_first (v : value) : completion value :=
  match v with
  | VUndefined | VNull => Throw TypeError
  | VObject props => Normal (lookup (str "0") props)
  | VArray elems => Normal (hd VUndefined elems)
  | VString s =>
      Normal match s with [] => VUndefined | c :: _ => VString [c] end
  | _ => Normal VUndefined
  end.

(** The object has a property of this name of its own. *)
Definition has_own (name : string) (props : list (jsstring * value)) : bool :=
  existsb (fun kv => jsstring_eqb (fst kv) (str name)) props.

Definition nullish (v : value) : bool :=
  match v with
  | VUndefined | VNull => true
  | _ => false
  end.

(** [ToBoolean] *)
Definition to_boolean (v : value) : bool :=
  match v with
  | VUndefined | VNull => false
  | VBool b => b
  | VNumber x => negb (is_nan x || is_zero x)
  | VString s => truthy s
  | VArray _ | VObject _ => true
  end.

(** What one call of the service comes to. *)
Inductive reply :=
| NetworkError           (* no response at all *)
| BadBody                (* a response whose body is not JSON *)
| Json (data : value).   (* a response with this parsed body *)

Record message := Message { msg_role : jsstring; msg_content : jsstring }.

(** The conversation: the replies still to come, and the requests made so
    far (most recent first). *)
Record service := Service {
  replies : list reply;
  sent : list (list message)
}.

Definition M (A : Type) : Type := service -> completion A * service.

Definition ret {A} (a : A) : M A := fun sv => (Normal a, sv).

Definition bind {A B} (m : M A) (f : A -> M B) : M B :=
  fun sv =>
    match m sv with
    | (Normal a, sv') => f a sv'
    | (Throw e, sv') => (Throw e, sv')
    end.

Definition lift {A} (c : completion A) : M A := fun sv => (c, sv).

Definition throw {A} (e : error) : M A := lift (Throw e).

Definition try_catch {A} (body : M A) (handler : error -> M A) : M A :=
  fun sv =>
    match body sv with
    | (Normal a, sv') => (Normal a, sv')
    | (Throw e, sv') => handler e sv'
    end.

Declare Scope js_scope.
Delimit Scope js_scope with js.
Notation "x <- m ;; k" := (bind m (fun x => k))
  (at level 61, m at next level, right associativity) : js_scope.

(** [await fetch(url, {method: 'POST', ..., body: JSON.stringify({messages})})]:
    the request is made, and the next reply of the service decides. *)
Definition fetch (messages : list message) : M reply :=
  fun sv =>
    let sv' := Service (tl (replies sv)) (messages :: sent sv) in
    match replies sv with
    | [] | NetworkError :: _ => (Throw FetchError, sv')
    | r :: _ => (Normal r, sv')
    end.

(** [await response.json()] *)
Definition json (response : reply) : M value :=
  match response with
  | Json data => ret data
  | _ => throw JsonError
  end.

(** A body of the shape the service documents:
    [{choices: [{message: {role: 'assistant', content}}]}]. *)
Definition chat_body (c : value) : value :=
  VObject [(str "choices",
            VArray [VObject [(str "message",
                              VObject [(str "role", VString (str "assistant"));
                                       (str "content", c)])]])].

(** ** The response parser *)

Definition digit_of (radix : Z) (c : jschar) : option Z :=
  let d :=
    if is_digit c then Some (Z.of_N c - 48)%Z
    else if is_lower c then Some (Z.of_N c - 87)%Z
    else if is_upper c then Some (Z.of_N c - 55)%Z
    else None in
  match d with
  | Some v => if (v <? radix)%Z then Some v else None
  | None => None
  end.

Fixpoint digits_value (radix : Z) (acc : option Z) (s : jsstring) : option Z :=
  match s with
  | [] => acc
  | c :: s' =>
      match digit_of radix c with
      | Some d =>
          digits_value radix
            (Some (match acc with Some a => a * radix + d | None => d end)%Z) s'
      | None => acc
      end
  end.

(** [parseInt(s)] with no radix argument: leading white space, a sign, an
    optional [0x] prefix, then the longest run of digits; NaN without one. *)
Definition parseInt (s : jsstring) : float :=
  let s1 := drop_space s in
  let '(negative, s2) :=
    match s1 with
    | 45%N :: s' => (true, s')
    | 43%N :: s' => (false, s')
    | _ => (false, s1)
    end in
  let '(radix, s3) :=
    match s2 with
    | 48%N :: 120%N :: s' | 48%N :: 88%N :: s' => (16%Z, s')
    | _ => (10%Z, s2)
    end in
  match digits_value radix None s3 with
  | None => nan
  | Some v =>
      if negative
      then (if (v =? 0)%Z then neg_zero else Number_of_Z (- v))
      else Number_of_Z v
  end.

Record result := Result { score : float; feedback : jsstring }.

(** [/Score:\s*(\d+)\/100/] *)
Definition score_re : regex :=
  Seq (Chars (str "Score:"))
    (Seq (Star true (Class ClassSpace))
       (Seq (Group 1 (Plus (Class ClassDigit)))
          (Chars (str "/100")))).

(** [/Feedback:\s*([\s\S]*?)(?=Score:|$)/] *)
Definition feedback_re : regex :=
  Seq (Chars (str "Feedback:"))
    (Seq (Star true (Class ClassSpace))
       (Seq (Group 1 (Star false (Class (ClassOr ClassSpace (ClassNot ClassSpace)))))
          (LookAhead (Alt (Chars (str "Score:")) EndOfInput)))).

(** [response.match(r)]: only a string has a [match] method to call. *)
Definition String_match (response : value) (r : regex)
  : completion (option mstate) :=
  match response with
  | VString s => Normal (exec false r s)
  | _ => Throw TypeError
  end.

(** [m[1]] handed to a string function: an absent group reads ["undefined"]. *)
Definition group1 (m : mstate) : jsstring :=
  match capture 1 (caps m) with
  | Some s => s
  | None => str "undefined"
  end.

Definition parseEvaluationResponse (response : value) : completion result :=
  let body :=
    match String_match response score_re with
    | Throw e => Throw e
    | Normal scoreMatch =>
        let score :=
          match scoreMatch with
          | Some m => parseInt (group1 m)
          | None => 0
          end in
        match String_match response feedback_re with
        | Throw e => Throw e
        | Normal feedbackMatch =>
            let feedback :=
              match feedbackMatch with
              | Some m => trim (group1 m)
              | None => str "No feedback available"
              end in
            Normal (Result score feedback)
        end
    end in
  match body with
  | Normal r => Normal r
  | Throw _ => Normal (Result 0 (str "Error parsing evaluation response."))
  end.

(** ** The script that scores through the generation service
       ([public/script.js])

    The calls on the page ([document.querySelector], [console.log],
    [displayScores]) are left out: they do not take part in the result. *)

Module Script.

Local Open Scope js_scope.

(** Lines of a template literal, joined by the line feeds between them. *)
Fixpoint lines (ls : list jsstring) : jsstring :=
  match ls with
  | [] => []
  | [l] => l
  | l :: ls' => l ++ LF :: lines ls'
  end.

(** The rubric of one dimension, with the text to evaluate at its end. *)
Definition rubric (quality : string) (criteria : list string) (text : jsstring)
  : jsstring :=
  lines
    ([ str "Please evaluate this Statement of Purpose (SOP) text for "
         ++ str quality ++ str " quality. Focus on:" ]
     ++ map (fun c => str "    - " ++ str c) criteria
     ++ [ [];
          str "    Provide a score out of 100 and detailed feedback.";
          str "    Format your response as: Score: X/100";
          str "Feedback: [your detailed feedback]";
          [];
          str "    Text to evaluate:";
          str "    " ++ text ]).

(** The body shared by the three evaluators: one request with the prompt as
    the only message, then [parseEvaluationResponse] on
    [data.choices[0].message.content]; whatever is thrown on the way is
    answered by the dimension's own error result. *)
Definition evaluate (prompt : jsstring) (dimension : string) : M result :=
  try_catch
    (response <- fetch [Message (str "user") prompt] ;;
     data <- json response ;;
     choices <- lift (get data "choices") ;;
     choice <- lift (get_first choices) ;;
     message <- lift (get choice "message") ;;
     content <- lift (get message "content") ;;
     lift (parseEvaluationResponse content))
    (fun _ =>
       ret (Result 0 (str "Error evaluating " ++ str dimension
                        ++ str ". Please try again."))).

Definition evaluateContent (text : jsstring) : M result :=
  let prompt :=
    rubric "content"
      [ "Personal Background Detail";
        "Educational Experience Relevance";
        "Career Goals Clarity";
        "School/Program Choice Reasoning";
        "Uniqueness Demonstration";
        "Specific Examples" ]%string text in
  evaluate prompt "content".

Definition evaluateNarrative (text : jsstring) : M result :=
  let prompt :=
    rubric "narrative"
      [ "Opening Engagement";
        "Narrative Coherence";
        "Conflict Resolution";
        "Narrative Depth";
        "Closing Impression" ]%string text in
  evaluate prompt "narrative".

Definition evaluateLanguage (text : jsstring) : M result :=
  let prompt :=
    rubric "language"
      [ "Grammar and mechanics";
        "Vocabulary usage";
        "Sentence structure";
        "Academic tone";
        "Overall fluency" ]%string text in
  evaluate prompt "language".

(** The object literal [{score, feedback}] of a result, and the [results]
    object [evaluateText] builds before it asks for suggestions. *)
Definition result_object (r : result) : value :=
  VObject [(str "score", VNumber (score r)); (str "feedback", VString (feedback r))].

Definition results_object (c n l : result) (finalScore : float) : value :=
  VObject [ (str "content", result_object c);
            (str "narrative", result_object n);
            (str "language", result_object l);
            (str "final_score", VNumber finalScore) ].

Record results := Results {
  content : result;
  narrative : result;
  language : result;
  final_score : float;
  suggestions : value
}.

Section WithNumberToString.

(** [Number::toString], the decimal text of a Number, is taken as given. *)
Variable Number_toString : float -> jsstring.

(** [ToString], as a template literal applies it to a substitution.  An
    object is converted by the [toString] it has: the one of
    [Object.prototype], which answers ["[object Object]"], unless the object
    has a property [toString] of its own; no value here is a function, so
    such a property cannot be called, the [valueOf] tried next returns no
    primitive either, and the conversion throws a [TypeError].  An array is
    converted by [join], element by element. *)
Fixpoint ToString (v : value) : completion jsstring :=
  match v with
  | VUndefined => Normal (str "undefined")
  | VNull => Normal (str "null")
  | VBool b => Normal (if b then str "true" else str "false")
  | VNumber x => Normal (Number_toString x)
  | VString s => Normal s
  | VArray elems =>
      (fix join (l : list value) : completion jsstring :=
         match l with
         | [] => Normal []
         | e :: l' =>
             match (if nullish e then Normal [] else ToString e) with
             | Throw error => Throw error
             | Normal s =>
                 match l' with
                 | [] => Normal s
                 | _ :: _ =>
                     match join l' with
                     | Throw error => Throw error
                     | Normal t => Normal (s ++ 44%N :: t)
                     end
                 end
             end
         end) elems
  | VObject props =>
      if has_own "toString" props then Throw TypeError
      else Normal (str "[object Object]")
  end.

(** A substitution [${v.name}] of a template literal. *)
Definition substitution (v : value) (name : string) : completion jsstring :=
  match get v name with
  | Normal x => ToString x
  | Throw error => Throw error
  end.

(** The prompt of [generateModificationSuggestions].  Whichever of its
    substitutions fails, what is thrown is a [TypeError]. *)
Definition suggestions_prompt (text : jsstring) (scores : value)
  : completion jsstring :=
  match substitution scores "content", substitution scores "contentFeedback",
        substitution scores "narrative", substitution scores "narrativeFeedback",
        substitution scores "language", substitution scores "languageFeedback" with
  | Normal content, Normal contentFeedback,
    Normal narrative, Normal narrativeFeedback,
    Normal language, Normal languageFeedback =>
      Normal (lines
        [ str "As an expert SOP evaluator, please provide specific suggestions to improve this Statement of Purpose. Focus on the following aspects:";
          [];
          str "1. Content (" ++ content ++ str "/100):";
          contentFeedback;
          [];
          str "2. Narrative Structure (" ++ narrative ++ str "/100):";
          narrativeFeedback;
          [];
          str "3. Language Usage (" ++ language ++ str "/100):";
          languageFeedback;
          [];
          str "Please analyze the following SOP and provide clear, actionable suggestions for improvement:";
          [];
          text;
          [];
          str "Format your response as a bulleted list of specific suggestions, focusing on the most critical improvements needed." ])
  | _, _, _, _, _, _ => Throw TypeError
  end.

(** [data.choices?.[0]?.message?.content] *)
Definition optional_content (data : value) : completion value :=
  match get data "choices" with
  | Throw e => Throw e
  | Normal choices =>
      if nullish choices then Normal VUndefined
      else match get_first choices with
           | Throw e => Throw e
           | Normal choice =>
               if nullish choice then Normal VUndefined
               else match get choice "message" with
                    | Throw e => Throw e
                    | Normal message =>
                        if nullish message then Normal VUndefined
                        else get message "content"
                    end
           end
  end.

Definition generateModificationSuggestions (text : jsstring) (scores : value)
  : M value :=
  prompt <- lift (suggestions_prompt text scores) ;;
  try_catch
    (response <-
       fetch [ Message (str "system")
                 (str "You are an expert SOP evaluator providing specific improvement suggestions.");
               Message (str "user") prompt ] ;;
     data <- json response ;;
     content <- lift (optional_content data) ;;
     if negb (to_boolean content)
     then throw (Error (str "Invalid API response format"))
     else ret content)
    (fun _ => ret (VString (str "Unable to generate suggestions at this time."))).

Definition evaluateText (text : jsstring) : M results :=
  try_catch
    (contentResult <- evaluateContent text ;;
     narrativeResult <- evaluateNarrative text ;;
     languageResult <- evaluateLanguage text ;;
     let finalScore :=
       (score contentResult * w_content WEIGHTS +
        score narrativeResult * w_narrative WEIGHTS +
        score languageResult * w_language WEIGHTS) / 100 in
     suggestions <-
       generateModificationSuggestions text
         (results_object contentResult narrativeResult languageResult finalScore) ;;
     ret (Results contentResult narrativeResult languageResult finalScore
            suggestions))
    (fun error => throw error).

End WithNumberToString.

End Script.

(** ** Another version of the same script: the same three evaluators, no
       suggestions, and a final score that is rounded *)

Module Sibling.

Local Open Scope js_scope.

Record results := Results {
  content : result;
  narrative : result;
  language : result;
  final_score : float
}.

Definition evaluateText (text : jsstring) : M results :=
  try_catch
    (contentResult <- Script.evaluateContent text ;;
     narrativeResult <- Script.evaluateNarrative text ;;
     languageResult <- Script.evaluateLanguage text ;;
     let finalScore :=
       Math_round
         (score contentResult * w_content WEIGHTS +
          score narrativeResult * w_narrative WEIGHTS +
          score languageResult * w_language WEIGHTS) in
     ret (Results contentResult narrativeResult languageResult finalScore))
    (fun error => throw error).

End Sibling.

(** ** What the claims are stated against *)

(** The matches of a pattern, as a relation between the state a match starts
    in and the state it ends in: the declarative reading of [rmatch]. *)
Inductive matches (ignoreCase : bool) : regex -> mstate -> mstate -> Prop :=
| MEmpty st :
    matches ignoreCase Empty st st
| MChar c x rest st :
    after st = x :: rest ->
    canonicalize ignoreCase x = canonicalize ignoreCase c ->
    matches ignoreCase (Char c) st (MState (x :: before st) rest (caps st))
| MClass cl x rest st :
    after st = x :: rest ->
    in_class cl x = true ->
    matches ignoreCase (Class cl) st (MState (x :: before st) rest (caps st))
| MSeq r1 r2 st st1 st2 :
    matches ignoreCase r1 st st1 ->
    matches ignoreCase r2 st1 st2 ->
    matches ignoreCase (Seq r1 r2) st st2
| MAltL r1 r2 st st' :
    matches ignoreCase r1 st st' ->
    matches ignoreCase (Alt r1 r2) st st'
| MAltR r1 r2 st st' :
    matches ignoreCase r2 st st' ->
    matches ignoreCase (Alt r1 r2) st st'
| MStarStop g r st :
    matches ignoreCase (Star g r) st st
| MStarStep g r st st1 st2 :
    matches ignoreCase r st st1 ->
    length (after st1) < length (after st) ->
    matches ignoreCase (Star g r) st1 st2 ->
    matches ignoreCase (Star g r) st st2
| MGroup n r st st' :
    matches ignoreCase r st st' ->
    matches ignoreCase (Group n r) st
      (MState (before st') (after st') ((n, consumed st st') :: caps st'))
| MWordBoundary st :
    xorb (is_word_at (before st)) (is_word_at (after st)) = true ->
    matches ignoreCase WordBoundary st st
| MEndOfInput st :
    after st = [] ->
    matches ignoreCase EndOfInput st st
| MLookAhead r st st' :
    rmatch ignoreCase r st Some = Some st' ->
    matches ignoreCase (LookAhead r) st
      (MState (before st) (after st) (caps st')).

Definition is_some {A} (o : option A) : bool :=
  match o with Some _ => true | None => false end.

(** A scan of the positions of a text, from the left. *)
Fixpoint scan (P : list jschar -> jsstring -> bool)
         (bef : list jschar) (aft : jsstring) : bool :=
  P bef aft ||
  match aft with
  | [] => false
  | x :: rest => scan P (x :: bef) rest
  end.

(** A keyword occurs in a text as a whole word: somewhere in the text stand
    the letters of the keyword, in either case, between two word
    boundaries.  [bef] is the text before the position looked at, most
    recent code unit first. *)
Definition boundary (bef : list jschar) (aft : jsstring) : bool :=
  xorb (is_word_at bef) (is_word_at aft).

Fixpoint same_letters (w aft : jsstring) : option (list jschar * jsstring) :=
  match w with
  | [] => Some ([], aft)
  | c :: w' =>
      match aft with
      | x :: rest =>
          if jschar_eqb (canonicalize true x) (canonicalize true c)
          then match same_letters w' rest with
               | Some (u, post) => Some (u ++ [x], post)
               | None => None
               end
          else None
      | [] => None
      end
  end.

Definition whole_word_here (w : jsstring) (bef : list jschar) (aft : jsstring)
  : bool :=
  boundary bef aft &&
  match same_letters w aft with
  | Some (u, post) => boundary (u ++ bef) post
  | None => false
  end.

Fixpoint whole_word_from (w : jsstring) (bef : list jschar) (aft : jsstring)
  : bool :=
  whole_word_here w bef aft ||
  match aft with
  | [] => false
  | x :: rest => whole_word_from w (x :: bef) rest
  end.

Definition whole_word_in (w text : jsstring) : bool :=
  whole_word_from w [] text.

(** The red flags of a sentence as the specification lists them, and how
    many of them hold. *)
Definition vague_tokens : list jsstring :=
  map str ["very"; "really"; "things"; "stuff"]%string.

Definition absolute_words : list jsstring :=
  map str ["always"; "never"; "all"; "none"; "every"; "everyone"]%string.

Definition contains_word_of (ws : list jsstring) (s : jsstring) : bool :=
  existsb (fun w => whole_word_in w s) ws.

(** The phrases of the cliche pattern: a form of "to be", a space, one of
    three feelings, a space, "about" or "in". *)
Definition cliche_phrases : list jsstring :=
  flat_map
    (fun be =>
       flat_map
         (fun feeling =>
            map (fun prep => str be ++ SPACE :: str feeling ++ SPACE :: str prep)
              ["about"; "in"]%string)
         ["passionate"; "interested"; "excited"]%string)
    ["am"; "is"; "are"; "was"; "were"]%string.

(** A phrase stands somewhere in a text, its letters in either case. *)
Fixpoint phrase_in (p text : jsstring) : bool :=
  is_some (same_letters p text) ||
  match text with
  | [] => false
  | _ :: rest => phrase_in p rest
  end.

Definition contains_phrase_of (ps : list jsstring) (s : jsstring) : bool :=
  existsb (fun p => phrase_in p s) ps.

(** [K] holds of what follows the letters of [w], in either case, at the
    start of [s]. *)
Definition after_letters (w s : jsstring) (K : jsstring -> bool) : bool :=
  match same_letters w s with
  | Some (_, post) => K post
  | None => false
  end.

Definition red_flags_held (s : jsstring) : nat :=
  Nat.b2n (50 <? length s)%nat
  + Nat.b2n (length s <? 10)%nat
  + Nat.b2n (contains_word_of vague_tokens s)
  + Nat.b2n (contains_phrase_of cliche_phrases s)
  + Nat.b2n (contains_word_of absolute_words s).

(** A reply of the service that follows the convention
    [Score: <n>/100], line feed, [Feedback: <text>]. *)
Definition scored_reply (n text : string) : reply :=
  Json (chat_body
          (VString (str "Score: " ++ str n ++ str "/100" ++ [LF]
                      ++ str "Feedback: " ++ str text))).

(** What [data.choices[0].message.content] comes to. *)
Definition choice_content (data : value) : completion value :=
  match get data "choices" with
  | Throw e => Throw e
  | Normal choices =>
      match get_first choices with
      | Throw e => Throw e
      | Normal choice =>
          match get choice "message" with
          | Throw e => Throw e
          | Normal message => get message "content"
          end
      end
  end.

(** The result of a dimension evaluator, read off the reply to its call:
    the dimension's own error result when there is no reply, no JSON body or
    no [choices[0].message]; the parser's error result when the content is
    no string; what the parser makes of the content otherwise. *)
Definition error_result (dimension : string) : result :=
  Result 0%float
    (str "Error evaluating " ++ str dimension ++ str ". Please try again.").

Definition parse_error_result : result :=
  Result 0%float (str "Error parsing evaluation response.").

Definition evaluator_result (dimension : string) (next : list reply) : result :=
  match next with
  | Json data :: _ =>
      match choice_content data with
      | Throw _ => error_result dimension
      | Normal (VString s) =>
          match parseEvaluationResponse (VString s) with
          | Normal r => r
          | Throw _ => parse_error_result
          end
      | Normal _ => parse_error_result
      end
  | _ => error_result dimension
  end.

(** The criterion score as the specification writes it, on integers:
    [min(5, ceil(matchCount * 5 / half))] with [half = ceil(n / 2)]. *)
Definition ceil_div (a b : Z) : Z := ((a + b - 1) / b)%Z.

Definition criterion_score (matchCount n : nat) : Z :=
  let half := ceil_div (Z.of_nat n) 2 in
  Z.min 5 (ceil_div (Z.of_nat matchCount * 5) half).

Definition match_count (text : jsstring) (keywords : list jsstring) : nat :=
  length (filter (fun w => whole_word_in w text) keywords).

(** The arithmetic of [scoreByKeywords], on the number of matching keywords
    and the number of keywords. *)
Definition keyword_score (matches n : nat) : float :=
  Math_min 5
    (Math_ceil (Number_of_nat matches * (5 / Math_ceil (Number_of_nat n / 2))))%float.

(** Checking [keyword_score] against [criterion_score] for every keyword
    list of up to [2 * hmax] keywords, row by row: a row is the keyword
    lists with the same [half]. *)
Definition small (k : Z) : float :=
  match k with
  | 0%Z => 0%float
  | 1%Z => 1%float
  | 2%Z => 2%float
  | 3%Z => 3%float
  | 4%Z => 4%float
  | 5%Z => 5%float
  | _ => nan
  end.

Definition half_ok (n : nat) : bool :=
  PrimFloat.Leibniz.eqb
    (Math_ceil (Number_of_nat n / 2)%float)
    (Number_of_Z (ceil_div (Z.of_nat n) 2)).

Definition cell_ok (half : Z) (c : float) (mf : nat * float) : bool :=
  PrimFloat.Leibniz.eqb
    (Math_min 5 (Math_ceil (snd mf * c)%float))
    (small (Z.min 5 (ceil_div (Z.of_nat (fst mf) * 5) half))).

Definition row_ok (numbers : list (nat * float)) (h : nat) : bool :=
  let half := Z.of_nat h in
  let c := (5 / Number_of_Z half)%float in
  forallb (cell_ok half c) (firstn (2 * h + 1) numbers).

Definition table_ok (hmax : nat) : bool :=
  let numbers := map (fun m => (m, Number_of_nat m)) (seq 0 (2 * hmax + 1)) in
  forallb half_ok (seq 1 (2 * hmax)) && forallb (row_ok numbers) (seq 1 hmax).

(** Checking the sums and the rounding of the heuristic dimension scores on
    every total of criterion points: a sum of points is exact, and
    [Math.round(t / (N * 5) * 100)] is the integer nearest to
    [100 * t / (N * 5)], the larger one on a tie. *)
Definition zs (n : nat) : list Z := map Z.of_nat (seq 0 n).

Definition add_ok : bool :=
  forallb
    (fun a =>
       forallb
         (fun b =>
            PrimFloat.Leibniz.eqb
              (Number_of_Z a + Number_of_Z b)%float (Number_of_Z (a + b)))
         (zs 6))
    (zs 26).

Definition dimension_score (criteria : nat) (totalPoints : float) : float :=
  Math_round ((totalPoints / (Number_of_nat criteria * 5)) * 100)%float.

Definition round_ok (criteria : nat) : bool :=
  forallb
    (fun t =>
       PrimFloat.Leibniz.eqb
         (dimension_score criteria (Number_of_Z t))
         (Number_of_Z ((200 * t + Z.of_nat criteria * 5)
                         / (2 * (Z.of_nat criteria * 5)))))
    (zs (criteria * 5 + 1)).

(** A criterion score: an integer from 0 to 5. *)
Definition points (x : float) : Prop :=
  exists k, (0 <= k <= 5)%Z /\ x = Number_of_Z k.

(** A large keyword set and a text for it: the two-character words over
    [a-z0-9], in order, and a text that holds the first of them. *)
Definition alnum (d : nat) : jschar :=
  N.of_nat (if (d <? 26)%nat then 97 + d else 22 + d).

Definition numbered_word (i : nat) : jsstring :=
  [alnum (i / 36); alnum (i mod 36)].

Definition numbered_words (n : nat) : list jsstring :=
  map numbered_word (seq 0 n).

Definition spaced (ws : list jsstring) : jsstring :=
  concat (map (fun w => w ++ [SPACE]) ws).

Fixpoint distinct (l : list jsstring) : bool :=
  match l with
  | [] => true
  | w :: l' => negb (existsb (jsstring_eqb w) l') && distinct l'
  end.

(** ** Rounding to a Number

    The rounding of a product or a quotient of two Numbers, on integers: a
    mantissa is kept in quarters, with the last bit set when a set bit has
    been shifted out, and rounded to the nearest unit, ties to even. *)

Section RoundingTerms.

Local Open Scope Z_scope.

(** A shift record as a number of quarters with a sticky last bit. *)
Definition quarters (mrs : shr_record) : Z :=
  4 * shr_m mrs + 2 * Z.b2z (shr_r mrs) + Z.b2z (shr_s mrs).

Definition or_one (x : Z) (b : bool) : Z :=
  if b then (if Z.even x then x + 1 else x) else x.

(** [T] shifted right by [n] places, the last bit kept set when a set bit
    was shifted out. *)
Definition sticky_shift (T n : Z) : Z :=
  or_one (T / 2 ^ n) (negb (T mod 2 ^ n =? 0)).

(** Rounding a number of quarters to units: to nearest, ties to even. *)
Definition round_quarters (T : Z) : Z :=
  let m := T / 4 in
  let c := T mod 4 in
  if c <? 2 then m
  else if c =? 2 then (if Z.even m then m else m + 1)
  else m + 1.

(** The exponent of the last place of a binary64 number of a given
    magnitude, and the end of a rounding: a carry out of the 53 bits moves
    the mantissa one place up, an exponent too large gives an infinity. *)
Definition fexp64 (k : Z) : Z := Z.max (k - 53) (-1074).

Definition finish (sx : bool) (m e : Z) : spec_float :=
  match m with
  | Z0 => S754_zero sx
  | Zpos p => if e <=? 971 then S754_finite sx p e else S754_infinity sx
  | Zneg _ => S754_nan
  end.

Definition renormalize (m e : Z) : Z * Z :=
  if 2 ^ 53 <=? m then (m / 2, e + 1) else (m, e).

Definition round64 (sx : bool) (T e : Z) : spec_float :=
  let '(m, e') := renormalize (round_quarters T) e in
  finish sx m e'.

(** The order of two pairs of a mantissa and an exponent, by value. *)
Definition value_le (m e m' e' : Z) : Prop :=
  m * 2 ^ (e - Z.min e e') <= m' * 2 ^ (e' - Z.min e e').

(** The rounding of [P * 2 ^ e] to 53 bits, before a carry is taken care
    of: the exponent of the last place and the rounded mantissa. *)
Definition shift_of (P e : Z) : Z := fexp64 (Zdigits2 P + e) - e.

Definition rounded_mantissa (P e : Z) : Z :=
  round_quarters (sticky_shift (4 * P) (shift_of P e)).

(** [min(5, ceil(m * 2 ^ e))] for a mantissa and an exponent as [finish]
    takes them. *)
Definition score_pair (m e : Z) : Z :=
  if m =? 0 then 0
  else if 971 <? e then 5
  else if 0 <=? e then 5
  else Z.min 5 (- Z.shiftr (- m) (- e)).

Definition rounded (P e : Z) : Z * Z :=
  renormalize (rounded_mantissa P e) (fexp64 (Zdigits2 P + e)).

(** The mantissa of an integer below 2^53, moved up to 53 bits. *)
Definition mantissa53 (z : Z) : Z := z * 2 ^ (53 - Zdigits2 z).

(** The score as an integer: the product of the number of matches and the
    factor, rounded as the multiplication rounds it, then rounded up. *)
Definition product_score (m mc ec : Z) : Z :=
  if m =? 0 then 0
  else
    let P := mantissa53 m * mc in
    let e := Zdigits2 m - 53 + ec in
    score_pair (fst (rounded P e)) (snd (rounded P e)).

End RoundingTerms.

(** * The rest of the scripts

    The page the scripts work on, the files they are given, and plain
    descriptions of what their regular expressions and their arithmetic
    compute, for the properties of the last part. *)

Local Close Scope float_scope.

(** ** Paragraphs and sentences *)

(** [s.split(sep)] for a separator of one code unit, read declaratively: the
    pieces of [s] between the occurrences of [sep]. *)
Fixpoint pieces (sep : jschar) (s : jsstring) : list jsstring :=
  match s with
  | [] => [[]]
  | x :: rest =>
      if jschar_eqb x sep then [] :: pieces sep rest
      else match pieces sep rest with
           | p :: ps => (x :: p) :: ps
           | [] => [[x]]
           end
  end.

(** Nothing but white space: [!s.trim()]. *)
Definition blank (s : jsstring) : bool := forallb is_space s.

(** What [trim] returns has no white space at either end. *)
Definition trimmed (s : jsstring) : Prop :=
  match s with c :: _ => is_space c = false | [] => True end /\
  match rev s with c :: _ => is_space c = false | [] => True end.

(** The characters of [/[.!?]+/]. *)
Definition is_terminator (c : jschar) : bool :=
  in_class (ClassSet (str ".!?")) c.

(** [text.split(/[.!?]+/).filter(s => s.trim())] of the heuristic
    [evaluateText]. *)
Definition sentences_of (text : jsstring) : list jsstring :=
  filter (fun s => truthy (trim s)) (split Heuristic.sentence_end_re text).

(** No sentence terminator in it. *)
Definition plain (s : jsstring) : bool :=
  forallb (fun c => negb (is_terminator c)) s.

(** The pieces of [s] between the code units that satisfy [sep]. *)
Fixpoint fields (sep : jschar -> bool) (s : jsstring) : list jsstring :=
  match s with
  | [] => [[]]
  | x :: rest =>
      if sep x then [] :: fields sep rest
      else match fields sep rest with
           | p :: ps => (x :: p) :: ps
           | [] => [[x]]
           end
  end.

(** The sentences of a text, read declaratively: the pieces between its
    sentence terminators that are not blank. *)
Definition sentences (text : jsstring) : list jsstring :=
  filter (fun piece => negb (blank piece)) (fields is_terminator text).

(** ** The final score of the heuristic version *)

(** [Math.round(contentScore * WEIGHTS.content + narrativeScore *
    WEIGHTS.narrative + languageScore * WEIGHTS.language)] *)
Definition weighted (c n l : float) : float :=
  Math_round (c * w_content WEIGHTS + n * w_narrative WEIGHTS
              + l * w_language WEIGHTS)%float.

(** The weighted score checked against integer arithmetic, for a total
    [tc] of the six content criteria, a total [tn] of the five narrative
    criteria and a language score [l]. *)
Definition final_cell (tc tn l : Z) : bool :=
  let c := ((200 * tc + 30) / 60)%Z in
  let n := ((200 * tn + 25) / 50)%Z in
  PrimFloat.Leibniz.eqb
    (weighted (Number_of_Z c) (Number_of_Z n) (Number_of_Z l))
    (Number_of_Z ((4 * c + 4 * n + 2 * l + 5) / 10)).

Definition final_table (tcs tns ls : list Z) : bool :=
  forallb (fun tc => forallb (fun tn => forallb (final_cell tc tn) ls) tns) tcs.

Definition total (ks : list Z) : Z := fold_right Z.add 0%Z ks.

(** ** The steps of the language score *)

(** The step for [m] sentences out of [n] that need modification, in
    integer arithmetic. *)
Definition language_step (m n : Z) : float :=
  if (100 * m <=? 5 * n)%Z then 5%float
  else if (100 * m <=? 10 * n)%Z then 4%float
  else if (100 * m <=? 20 * n)%Z then 3%float
  else if (100 * m <=? 30 * n)%Z then 2%float
  else 1%float.

(** The step [evaluateLanguage] takes for a percentage. *)
Definition step_of (modificationPercentage : float) : float :=
  (if modificationPercentage <=? 5 then 5
   else if modificationPercentage <=? 10 then 4
   else if modificationPercentage <=? 20 then 3
   else if modificationPercentage <=? 30 then 2
   else 1)%float.

(** The two compared, for every [m <= n] of a row and every row of a
    table. *)
Definition language_row (numbers : list (Z * float)) (nf : Z * float) : bool :=
  forallb
    (fun mf =>
       PrimFloat.Leibniz.eqb (step_of ((snd mf / snd nf) * 100)%float)
         (language_step (fst mf) (fst nf)))
    (firstn (Z.to_nat (fst nf) + 1) numbers).

Definition language_table (numbers : list (Z * float)) : bool :=
  forallb (language_row numbers) (tl numbers).

Definition numbers_to (nmax : nat) : list (Z * float) :=
  map (fun m => (Z.of_nat m, Number_of_nat m)) (seq 0 (nmax + 1)).

(** The language score of a step. *)
Definition language_score (step : float) : float :=
  Math_round ((step / 5) * 100)%float.

(** ** The parser, read from left to right *)

(** The first position of a text, from the left, at which [h] finds
    something. *)
Fixpoint first_match {A} (h : jsstring -> option A) (s : jsstring) : option A :=
  match h s with
  | Some a => Some a
  | None =>
      match s with
      | [] => None
      | _ :: rest => first_match h rest
      end
  end.

(** The digits at the start of [s], and the rest. *)
Fixpoint span_digits (s : jsstring) : jsstring * jsstring :=
  match s with
  | c :: s' =>
      if is_digit c
      then let (ds, rest) := span_digits s' in (c :: ds, rest)
      else ([], s)
  | [] => ([], [])
  end.

(** A score line at the start of [s]: [Score:], white space, digits and
    [/100]; the digits. *)
Definition score_line (s : jsstring) : option jsstring :=
  if starts_with (str "Score:") s
  then let (ds, rest) := span_digits (drop_space (skipn 6 s)) in
       match ds with
       | [] => None
       | _ :: _ => if starts_with (str "/100") rest then Some ds else None
       end
  else None.

(** The value of a run of decimal digits. *)
Definition decimal_value (ds : jsstring) : Z :=
  fold_left (fun a c => 10 * a + (Z.of_N c - 48))%Z ds 0%Z.

(** The text before the next [Score:], or all of it. *)
Fixpoint before_score (s : jsstring) : jsstring :=
  match s with
  | [] => []
  | x :: rest =>
      if starts_with (str "Score:") s then [] else x :: before_score rest
  end.

(** A feedback section at the start of [s]: [Feedback:], white space, and
    the text up to the next [Score:]. *)
Definition feedback_section (s : jsstring) : option jsstring :=
  if starts_with (str "Feedback:") s
  then Some (before_score (drop_space (skipn 9 s)))
  else None.

(** What the parser makes of a string. *)
Definition parsed (s : jsstring) : result :=
  Result
    match first_match score_line s with
    | Some ds => Number_of_Z (decimal_value ds)
    | None => 0%float
    end
    match first_match feedback_section s with
    | Some text => trim text
    | None => str "No feedback available"
    end.

(** The score of a response text: the value of the digits of its first
    score line, and 0 without one. *)
Definition score_value (s : jsstring) : Z :=
  match first_match score_line s with
  | Some ds => decimal_value ds
  | None => 0%Z
  end.

(** The score in the reply to a call: that of the content of its first
    choice when the reply has one and it is a string, 0 otherwise. *)
Definition reply_score (next : list reply) : Z :=
  match next with
  | Json data :: _ =>
      match choice_content data with
      | Normal (VString s) => score_value s
      | _ => 0%Z
      end
  | _ => 0%Z
  end.

(** [[\s\S]] *)
Definition any_char : cclass := ClassOr ClassSpace (ClassNot ClassSpace).

(** A lazy [[\s\S]*?] hands over to its continuation at the first position
    the continuation accepts. *)
Fixpoint lazy_scan (k : mstate -> option mstate)
         (bef : list jschar) (aft : jsstring) (cs : list (nat * jsstring))
  : option mstate :=
  match k (MState bef aft cs) with
  | Some res => Some res
  | None =>
      match aft with
      | [] => None
      | x :: rest => lazy_scan k (x :: bef) rest cs
      end
  end.

(** The lookahead [(?=Score:|$)]. *)
Definition at_score_or_end (s : jsstring) : bool :=
  starts_with (str "Score:") s || match s with [] => true | _ :: _ => false end.

(** ** The suggestions *)

Definition fallback_suggestions : value :=
  VString (str "Unable to generate suggestions at this time.").

(** What [generateModificationSuggestions] returns, read off the reply to
    its call: the content of the first choice when there is one and it is
    truthy, the fallback text otherwise. *)
Definition suggestions_result (next : list reply) : value :=
  match next with
  | Json data :: _ =>
      match Script.optional_content data with
      | Normal content => if to_boolean content then content else fallback_suggestions
      | Throw _ => fallback_suggestions
      end
  | _ => fallback_suggestions
  end.

(** The system message of its request. *)
Definition system_message : message :=
  Message (str "system")
    (str "You are an expert SOP evaluator providing specific improvement suggestions.").





Definition is_string (v : value) : bool :=
  match v with
  | VString _ => true
  | _ => false
  end.

(** ** The page

    The document of [index.html] as far as the script reads and writes it.
    Every element the script looks up may be missing ([None]), as its null
    checks provide for; the elements that carry [data-dimension] are the
    score cards, as in [index.html]. *)

Module Page.

(** A [.score-card]: its [data-dimension], whether it has the class
    [loading], and the text of the [.score] and [.feedback] elements in it,
    if there are any. *)
Record card := Card {
  dimension : jsstring;
  loading : bool;
  score_box : option jsstring;
  feedback_box : option jsstring
}.

(** The [.final-score] box and the text of the [.score] element in it. *)
Record box := Box {
  box_loading : bool;
  box_score : option jsstring
}.

Record page := Page {
  sop_text : option jsstring;              (* #sop-text: its value *)
  evaluate_btn : option bool;              (* #evaluate-btn: disabled *)
  cards : list card;                       (* .score-card, in document order *)
  final_box : option box;                  (* .final-score *)
  evaluation_results : option bool;        (* .evaluation-results: hidden *)
  modification_suggestions : option bool;  (* .modification-suggestions: hidden *)
  suggestions_content : option jsstring;   (* .suggestions-content: innerHTML *)
  alerts : list jsstring                   (* the alerts shown, latest first *)
}.

Definition set_sop_text (v : option jsstring) (p : page) : page :=
  Page v (evaluate_btn p) (cards p) (final_box p) (evaluation_results p)
    (modification_suggestions p) (suggestions_content p) (alerts p).

Definition set_evaluate_btn (v : option bool) (p : page) : page :=
  Page (sop_text p) v (cards p) (final_box p) (evaluation_results p)
    (modification_suggestions p) (suggestions_content p) (alerts p).

Definition set_cards (v : list card) (p : page) : page :=
  Page (sop_text p) (evaluate_btn p) v (final_box p) (evaluation_results p)
    (modification_suggestions p) (suggestions_content p) (alerts p).

Definition set_final_box (v : option box) (p : page) : page :=
  Page (sop_text p) (evaluate_btn p) (cards p) v (evaluation_results p)
    (modification_suggestions p) (suggestions_content p) (alerts p).

Definition set_evaluation_results (v : option bool) (p : page) : page :=
  Page (sop_text p) (evaluate_btn p) (cards p) (final_box p) v
    (modification_suggestions p) (suggestions_content p) (alerts p).

Definition set_suggestions (hidden : option bool) (html : option jsstring)
           (p : page) : page :=
  Page (sop_text p) (evaluate_btn p) (cards p) (final_box p)
    (evaluation_results p) hidden html (alerts p).

(** [alert(message)] *)
Definition alert (message : jsstring) (p : page) : page :=
  Page (sop_text p) (evaluate_btn p) (cards p) (final_box p)
    (evaluation_results p) (modification_suggestions p) (suggestions_content p)
    (message :: alerts p).

(** [card.classList.add('loading')] and [card.classList.remove('loading')] *)
Definition with_loading (b : bool) (c : card) : card :=
  Card (dimension c) b (score_box c) (feedback_box c).

Definition box_with_loading (b : bool) (x : box) : box :=
  Box b (box_score x).

(** [document.querySelector('[data-dimension="d"]')], and a change made to
    the element found: the first card of the dimension. *)
Fixpoint update_card (d : jsstring) (f : card -> card) (cs : list card)
  : list card :=
  match cs with
  | [] => []
  | c :: cs' =>
      if jsstring_eqb (dimension c) d then f c :: cs'
      else c :: update_card d f cs'
  end.

(** [a.join(sep)] for an array of strings. *)
Fixpoint join (sep : jsstring) (a : list jsstring) : jsstring :=
  match a with
  | [] => []
  | [s] => s
  | s :: a' => s ++ sep ++ join sep a'
  end.

(** [s.replace(/c/g, t)] for a pattern of one code unit and a replacement
    text without [$]. *)
Definition replace_all (c : jschar) (t s : jsstring) : jsstring :=
  flat_map (fun x => if jschar_eqb x c then t else [x]) s.

Definition BULLET : jschar := 8226%N.
Definition ASTERISK : jschar := 42%N.

(** What [displayScores] writes into [.suggestions-content]. *)
Definition formatSuggestions (suggestions : jsstring) : jsstring :=
  let formattedSuggestions :=
    join [LF]
      (filter (fun line => (0 <? length line)%nat)
         (map trim (split (Char LF) suggestions))) in
  replace_all ASTERISK (str "&bull;")
    (replace_all BULLET (str "&bull;")
       (replace_all LF (str "<br>") formattedSuggestions)).

Section WithNumberToString.

Variable Number_toString : float -> jsstring.

(** The body of the loop over the entries of [scores], for the entry of a
    dimension: what it does to the card found. *)
Definition show_result (r : result) (c : card) : card :=
  Card (dimension c) false
    (option_map
       (fun _ => Number_toString (Math_round (score r)) ++ str "/100")
       (score_box c))
    (option_map
       (fun _ =>
          if truthy (feedback r) then feedback r
          else str "No feedback available")
       (feedback_box c)).

(** The cards after [displayScores], and the page but for the suggestions. *)
Definition shown_cards (scores : Script.results) (cs : list card) : list card :=
  update_card (str "language") (show_result (Script.language scores))
    (update_card (str "narrative") (show_result (Script.narrative scores))
       (update_card (str "content") (show_result (Script.content scores))
          (map (with_loading false) cs))).

Definition shown (scores : Script.results) (p : page) : page :=
  Page (sop_text p) (evaluate_btn p) (shown_cards scores (cards p))
    (option_map
       (fun x =>
          Box (box_loading x)
            (option_map
               (fun _ =>
                  Number_toString (Math_round (Script.final_score scores))
                    ++ str "/100")
               (box_score x)))
       (final_box p))
    (option_map (fun _ => false) (evaluation_results p))
    (modification_suggestions p) (suggestions_content p) (alerts p).

Definition displayScores (scores : Script.results) (p : page)
  : completion unit * page :=
  (* Remove loading state from all score cards *)
  let p := set_cards (map (with_loading false) (cards p)) p in
  (* Update dimension scores and feedback *)
  let p :=
    set_cards (update_card (str "content") (show_result (Script.content scores))
                 (cards p)) p in
  let p :=
    set_cards (update_card (str "narrative") (show_result (Script.narrative scores))
                 (cards p)) p in
  let p :=
    set_cards (update_card (str "language") (show_result (Script.language scores))
                 (cards p)) p in
  (* Update final score *)
  let p :=
    match final_box p with
    | Some x =>
        set_final_box
          (Some (Box (box_loading x)
                   (option_map
                      (fun _ =>
                         Number_toString (Math_round (Script.final_score scores))
                           ++ str "/100")
                      (box_score x)))) p
    | None => p
    end in
  (* Show evaluation results section *)
  let p := set_evaluation_results
             (option_map (fun _ => false) (evaluation_results p)) p in
  (* Display suggestions *)
  match modification_suggestions p, suggestions_content p with
  | Some _, Some _ =>
      if to_boolean (Script.suggestions scores)
      then match Script.suggestions scores with
           | VString s =>
               (Normal tt, set_suggestions (Some false) (Some (formatSuggestions s)) p)
           | _ => (Throw TypeError, p)
           end
      else (Normal tt, p)
  | _, _ => (Normal tt, p)
  end.

End WithNumberToString.

(** The page and the conversation with the service, together. *)
Record world := World { the_page : page; the_service : service }.

Definition W (A : Type) : Type := world -> completion A * world.

Definition ret {A} (a : A) : W A := fun w => (Normal a, w).

Definition bind {A B} (m : W A) (f : A -> W B) : W B :=
  fun w =>
    match m w with
    | (Normal a, w') => f a w'
    | (Throw e, w') => (Throw e, w')
    end.

Definition throw {A} (e : error) : W A := fun w => (Throw e, w).

Definition try_catch {A} (body : W A) (handler : error -> W A) : W A :=
  fun w =>
    match body w with
    | (Normal a, w') => (Normal a, w')
    | (Throw e, w') => handler e w'
    end.

Definition on_service {A} (m : M A) : W A :=
  fun w =>
    let (c, s) := m (the_service w) in (c, World (the_page w) s).

Definition on_page {A} (f : page -> completion A * page) : W A :=
  fun w =>
    let (c, p) := f (the_page w) in (c, World p (the_service w)).

Declare Scope page_scope.
Delimit Scope page_scope with page.
Notation "x <- m ;; k" := (bind m (fun x => k))
  (at level 61, m at next level, right associativity) : page_scope.

Local Open Scope page_scope.

(** Both elements of the suggestions are on the page. *)
Definition shows_suggestions (p : page) : bool :=
  is_some (modification_suggestions p) && is_some (suggestions_content p).

(** The loading state taken off [.score-card, .final-score]. *)
Definition cleared (p : page) : page :=
  set_final_box (option_map (box_with_loading false) (final_box p))
    (set_cards (map (with_loading false) (cards p)) p).

(** The loading state put on the score cards. *)
Definition cards_loading (p : page) : page :=
  set_cards (map (with_loading true) (cards p)) p.

Section Orchestrator.

Variable Number_toString : float -> jsstring.

(** [evaluateText] of [public/script.js], with what it does to the page. *)
Definition evaluateText (text : jsstring) : W Script.results :=
  (* Set loading state for all score cards *)
  _ <- on_page (fun p => (Normal tt, cards_loading p)) ;;
  _ <- on_page (fun p =>
         match final_box p with
         | Some x => (Normal tt, set_final_box (Some (box_with_loading true x)) p)
         | None => (Throw TypeError, p)
         end) ;;
  try_catch
    (contentResult <- on_service (Script.evaluateContent text) ;;
     narrativeResult <- on_service (Script.evaluateNarrative text) ;;
     languageResult <- on_service (Script.evaluateLanguage text) ;;
     let finalScore :=
       ((score contentResult * w_content WEIGHTS +
         score narrativeResult * w_narrative WEIGHTS +
         score languageResult * w_language WEIGHTS) / 100)%float in
     suggestions <-
       on_service
         (Script.generateModificationSuggestions Number_toString text
            (Script.results_object contentResult narrativeResult languageResult
               finalScore)) ;;
     let results :=
       Script.Results contentResult narrativeResult languageResult finalScore
         suggestions in
     _ <- on_page (displayScores Number_toString results) ;;
     ret results)
    (fun error =>
       _ <- on_page (fun p => (Normal tt, cleared p)) ;;
       throw error).

(** The listener of the evaluate button. *)
Definition click : W unit :=
  sopText <- on_page (fun p =>
               match sop_text p with
               | Some value => (Normal value, p)
               | None => (Throw TypeError, p)
               end) ;;
  let text := trim sopText in
  scores <- evaluateText text ;;
  _ <- on_page (displayScores Number_toString scores) ;;
  on_page (fun p =>
    match evaluation_results p with
    | Some _ => (Normal tt, set_evaluation_results (Some false) p)
    | None => (Throw TypeError, p)
    end).

End Orchestrator.

(** The value of a text area is kept with its line breaks normalised: a
    carriage return, with the line feed after it if there is one, reads as
    a line feed. *)
Fixpoint normalize_newlines (s : jsstring) : jsstring :=
  match s with
  | 13%N :: rest =>
      LF :: match rest with
            | 10%N :: rest' => normalize_newlines rest'
            | _ => normalize_newlines rest
            end
  | c :: rest => c :: normalize_newlines rest
  | [] => []
  end.

(** The listener of the text area: the evaluate button is disabled while
    the text is blank.  Without a button the listener fails, which the
    dispatch of the event does not pass on. *)
Definition input (p : page) : page :=
  match sop_text p with
  | Some value =>
      set_evaluate_btn
        (option_map (fun _ => negb (truthy (trim value))) (evaluate_btn p)) p
  | None => p
  end.

(** A file chosen or dropped: its type and size, and what reading it as
    text gives ([None]: the reader fails). *)
Record file := File {
  file_type : jsstring;
  file_size : Z;
  file_text : option jsstring
}.

(** What [handleFileUpload] can catch: the event the reader rejects with,
    which has no [message], or an [Error]. *)
Inductive caught :=
| ReaderEvent
| AnError (message : jsstring).

Definition message_of (e : caught) : jsstring :=
  match e with
  | ReaderEvent => str "undefined"
  | AnError message => message
  end.

Definition allowedTypes : list jsstring :=
  map str
    [ "text/plain";
      "application/msword";
      "application/vnd.openxmlformats-officedocument.wordprocessingml.document";
      "application/pdf" ]%string.

Definition handleFileUpload (f : option file) (p : page) : page :=
  match f with
  | None => p
  | Some file =>
      (* Check file size (max 5MB) *)
      if (5 * 1024 * 1024 <? file_size file)%Z
      then alert (str "File is too large. Maximum size is 5MB.") p
      (* Check file type *)
      else if negb (existsb (jsstring_eqb (file_type file)) allowedTypes)
      then alert (str "Unsupported file type. Please upload .txt, .doc, .docx, or .pdf files.") p
      else
        let body : sum caught page :=
          if jsstring_eqb (file_type file) (str "text/plain")
          then match file_text file with
               | None => inl ReaderEvent
               | Some text =>
                   (* Update textarea with file content *)
                   match sop_text p with
                   | None => inl (AnError (str "Text area element not found"))
                   | Some _ =>
                       (* Trigger input event to enable evaluate button *)
                       inr (input (set_sop_text (Some (normalize_newlines text)) p))
                   end
               end
          else inr (alert (str "For .doc, .docx, and .pdf files, please copy and paste the content into the text area.") p) in
        match body with
        | inr p' => p'
        | inl error =>
            alert (str "Error reading file: " ++ message_of error
                     ++ str ". Please try again or paste the text directly.") p
        end
  end.

End Page.

(** The code unit [x] occurs in [s]. *)
Definition has (x : jschar) (s : jsstring) : bool := existsb (jschar_eqb x) s.

(** A bullet or an asterisk as [&bull;], any other code unit as it is. *)
Definition bullet (c : jschar) : jsstring :=
  if jschar_eqb c Page.BULLET || jschar_eqb c Page.ASTERISK
  then str "&bull;"
  else [c].

(** The lines of the suggestions that are shown: those that are not blank,
    trimmed. *)
Definition shown_lines (s : jsstring) : list jsstring :=
  map trim (filter (fun line => negb (blank line)) (pieces LF s)).

(** No card has the class [loading]. *)
Definition unloaded (cs : list Page.card) : bool :=
  forallb (fun c => negb (Page.loading c)) cs.

(** A file of at most 5 MB, of type [text/plain], that the reader can
    read. *)
Definition accepted (f : Page.file) : bool :=
  (Page.file_size f <=? 5 * 1024 * 1024)%Z
  && jsstring_eqb (Page.file_type f) (str "text/plain")
  && is_some (Page.file_text f).

(** ** Letter case *)

(** A text with its letters [a-z] in upper case. *)
Definition upper_case (s : jsstring) : jsstring := map (canonicalize true) s.

(** ** The page of the heuristic version *)

Module HeuristicPage.

Section WithNumberToString.

Variable Number_toString : float -> jsstring.

(** [document.querySelector('[data-dimension="d"] .score')] and the text
    put into the element found: the [.score] of the first card of the
    dimension that has one. *)
Fixpoint update_score (d text : jsstring) (cs : list Page.card)
  : list Page.card :=
  match cs with
  | [] => []
  | c :: cs' =>
      if jsstring_eqb (Page.dimension c) d && is_some (Page.score_box c)
      then Page.Card (Page.dimension c) (Page.loading c) (Some text)
             (Page.feedback_box c) :: cs'
      else c :: update_score d text cs'
  end.

Definition show_score (dimension : string) (score : float) (p : Page.page)
  : Page.page :=
  Page.set_cards
    (update_score (str dimension) (Number_toString score ++ str "/100")
       (Page.cards p)) p.

Definition displayScores (scores : Heuristic.scores) (p : Page.page)
  : completion unit * Page.page :=
  (* Update dimension scores *)
  let p := show_score "content" (Heuristic.content scores) p in
  let p := show_score "narrative" (Heuristic.narrative scores) p in
  let p := show_score "language" (Heuristic.language scores) p in
  let p := show_score "final_score" (Heuristic.final_score scores) p in
  (* Update final score *)
  match Page.final_box p with
  | Some (Page.Box l (Some _)) =>
      (Normal tt,
       Page.set_final_box
         (Some (Page.Box l
                  (Some (Number_toString (Heuristic.final_score scores)
                           ++ str "/100")))) p)
  | _ => (Throw TypeError, p)
  end.

(** The listener of the evaluate button. *)
Definition click (p : Page.page) : completion unit * Page.page :=
  match Page.sop_text p with
  | None => (Throw TypeError, p)
  | Some value =>
      let text := trim value in
      let scores := Heuristic.evaluateText text in
      match displayScores scores p with
      | (Throw e, p) => (Throw e, p)
      | (Normal _, p) =>
          match Page.evaluation_results p with
          | Some _ => (Normal tt, Page.set_evaluation_results (Some false) p)
          | None => (Throw TypeError, p)
          end
      end
  end.

End WithNumberToString.

End HeuristicPage.

(** ** Texts without letters *)

(** The letters [A-Z] and [a-z]. *)
Definition is_letter (c : jschar) : bool := is_upper c || is_lower c.

(** No letter in it. *)
Definition no_letter (s : jsstring) : bool :=
  forallb (fun c => negb (is_letter c)) s.

(** Nothing but sentence terminators and white space. *)
Definition punctuation_only (s : jsstring) : bool :=
  forallb (fun c => is_terminator c || is_space c) s.

(** A keyword that starts with a letter. *)
Definition starts_with_letter (w : jsstring) : bool :=
  match w with
  | c :: _ => is_letter c
  | [] => false
  end.

(** * Properties *)

Local Close Scope float_scope.

Ltac inv H := inversion H; subst; clear H.

(** ** The matcher against its declarative reading *)

Section MatcherLaws.

Variable ignoreCase : bool.

Lemma star_loop_sound (g : bool) (r : regex)
      (body : mstate -> (mstate -> option mstate) -> option mstate) :
  (forall st k res, body st k = Some res ->
     exists st', matches ignoreCase r st st' /\ k st' = Some res) ->
  forall fuel st k res,
    star_loop g body k fuel st = Some res ->
    exists st', matches ignoreCase (Star g r) st st' /\ k st' = Some res.
Proof.
  intros Hbody fuel.
  induction fuel as [|fuel IH]; intros st k res H; simpl in H.
  - exists st. split; [constructor | exact H].
  - assert (Hagain :
      body st (fun st' => if length (after st') <? length (after st)
                          then star_loop g body k fuel st' else None) = Some res ->
      exists st', matches ignoreCase (Star g r) st st' /\ k st' = Some res).
    { intros Hb. apply Hbody in Hb. destruct Hb as (st1 & Hm & Hk).
      destruct (length (after st1) <? length (after st)) eqn:Hlt; [|discriminate].
      apply Nat.ltb_lt in Hlt.
      apply IH in Hk. destruct Hk as (st2 & Hm2 & Hk2).
      exists st2. split; [|exact Hk2].
      eapply MStarStep; eauto. }
    destruct g.
    + destruct (body st _) eqn:Hb.
      * inv H. apply Hagain. reflexivity.
      * exists st. split; [constructor | exact H].
    + destruct (k st) eqn:Hk.
      * inv H. exists st. split; [constructor | exact Hk].
      * apply Hagain. exact H.
Qed.

Lemma rmatch_sound (r : regex) :
  forall st k res,
    rmatch ignoreCase r st k = Some res ->
    exists st', matches ignoreCase r st st' /\ k st' = Some res.
Proof.
  induction r; intros st k res H; simpl in H.
  - exists st. split; [constructor | exact H].
  - destruct (after st) as [|x rest] eqn:Ha; [discriminate|].
    destruct (jschar_eqb _ _) eqn:He; [|discriminate].
    apply N.eqb_eq in He.
    eexists. split; [eapply MChar; eauto | exact H].
  - destruct (after st) as [|x rest] eqn:Ha; [discriminate|].
    destruct (in_class c x) eqn:He; [|discriminate].
    eexists. split; [eapply MClass; eauto | exact H].
  - apply IHr1 in H. destruct H as (st1 & Hm1 & H).
    apply IHr2 in H. destruct H as (st2 & Hm2 & H).
    exists st2. split; [econstructor; eauto | exact H].
  - destruct (rmatch ignoreCase r1 st k) eqn:H1.
    + inv H. apply IHr1 in H1. destruct H1 as (st' & Hm & Hk).
      exists st'. split; [apply MAltL; exact Hm | exact Hk].
    + apply IHr2 in H. destruct H as (st' & Hm & Hk).
      exists st'. split; [apply MAltR; exact Hm | exact Hk].
  - eapply star_loop_sound; eauto.
  - apply IHr in H. destruct H as (st' & Hm & Hk).
    eexists. split; [apply MGroup; exact Hm | exact Hk].
  - destruct (xorb _ _) eqn:Hx; [|discriminate].
    exists st. split; [constructor; exact Hx | exact H].
  - destruct (after st) eqn:Ha; [|discriminate].
    exists st. split; [constructor; exact Ha | exact H].
  - destruct (rmatch ignoreCase r st Some) as [st'|] eqn:Hl; [|discriminate].
    eexists. split; [apply MLookAhead; exact Hl | exact H].
Qed.

(** Whatever match the declarative reading has and the continuation
    accepts, the matcher answers: backtracking loses no match. *)
Lemma rmatch_complete_fuel (r : regex) (st st' : mstate) :
  matches ignoreCase r st st' ->
  (forall k res, k st' = Some res ->
     exists res', rmatch ignoreCase r st k = Some res') /\
  match r with
  | Star g r0 =>
      forall fuel k res,
        length (after st) <= fuel -> k st' = Some res ->
        exists res', star_loop g (rmatch ignoreCase r0) k fuel st = Some res'
  | _ => True
  end.
Proof.
  assert (Hstop : forall g r0 fuel k st0 res,
            k st0 = Some res ->
            exists res', star_loop g (rmatch ignoreCase r0) k fuel st0 = Some res').
  { intros g r0 fuel k st0 res Hk. destruct fuel; simpl; [eauto|].
    destruct g.
    - destruct (rmatch ignoreCase r0 st0 _); eauto.
    - rewrite Hk. eauto. }
  assert (Hstep : forall g r0 fuel k st0 st1 res,
            (forall k res, k st1 = Some res ->
               exists res', rmatch ignoreCase r0 st0 k = Some res') ->
            length (after st1) < length (after st0) ->
            length (after st0) <= fuel ->
            star_loop g (rmatch ignoreCase r0) k (pred fuel) st1 = Some res ->
            exists res', star_loop g (rmatch ignoreCase r0) k fuel st0 = Some res').
  { intros g r0 fuel k st0 st1 res Hbody Hlt Hfuel Hrest.
    destruct fuel as [|fuel]; [lia|]. simpl in Hrest. simpl.
    destruct (Hbody (fun st' => if length (after st') <? length (after st0)
                                then star_loop g (rmatch ignoreCase r0) k fuel st'
                                else None) res) as (res' & Hres').
    { apply Nat.ltb_lt in Hlt. rewrite Hlt. exact Hrest. }
    destruct g.
    - rewrite Hres'. eauto.
    - destruct (k st0); eauto. }
  induction 1; simpl; (split; [intros k res Hk | try exact I]).
  - eauto.
  - rewrite H. apply N.eqb_eq in H0. unfold jschar_eqb. rewrite H0. eauto.
  - rewrite H, H0. eauto.
  - destruct IHmatches1 as [IH1 _]. destruct IHmatches2 as [IH2 _].
    destruct (IH2 k res Hk) as (res2 & H2).
    eapply IH1. exact H2.
  - destruct IHmatches as [IH _].
    destruct (IH k res Hk) as (res1 & H1). rewrite H1. eauto.
  - destruct IHmatches as [IH _].
    destruct (rmatch ignoreCase r1 st k); eauto.
  - eapply Hstop; eauto.
  - intros fuel k res _ Hk. eapply Hstop; eauto.
  - destruct IHmatches1 as [IH1 _]. destruct IHmatches2 as [_ IH2].
    destruct (IH2 (pred (length (after st))) k res ltac:(lia) Hk) as (res2 & H2).
    eapply Hstep; eauto.
  - intros fuel k res Hfuel Hk.
    destruct IHmatches1 as [IH1 _]. destruct IHmatches2 as [_ IH2].
    destruct (IH2 (pred fuel) k res ltac:(lia) Hk) as (res2 & H2).
    eapply Hstep; eauto.
  - destruct IHmatches as [IH _]. eapply IH. exact Hk.
  - rewrite H. eauto.
  - rewrite H. eauto.
  - rewrite H. eauto.
Qed.

Lemma rmatch_complete (r : regex) (st st' : mstate) k res :
  matches ignoreCase r st st' ->
  k st' = Some res ->
  exists res', rmatch ignoreCase r st k = Some res'.
Proof.
  intros Hm Hk. eapply (proj1 (rmatch_complete_fuel r st st' Hm)); eauto.
Qed.

(** [exec_from] finds a match exactly when one starts at some position. *)
Lemma exec_from_sound (r : regex) :
  forall aft bef res,
    exec_from ignoreCase r bef aft = Some res ->
    exists pre aft',
      aft = pre ++ aft' /\
      match_here ignoreCase r (rev pre ++ bef) aft' = Some res.
Proof.
  induction aft as [|x aft IH]; intros bef res H; simpl in H.
  - destruct (match_here ignoreCase r bef []) eqn:Hm; [|discriminate].
    inv H. exists [], []. auto.
  - destruct (match_here ignoreCase r bef (x :: aft)) eqn:Hm.
    + inv H. exists [], (x :: aft). auto.
    + apply IH in H. destruct H as (pre & aft' & -> & H).
      exists (x :: pre), aft'. split; [reflexivity|].
      simpl. rewrite <- app_assoc. exact H.
Qed.

Lemma exec_from_complete (r : regex) :
  forall pre bef aft res,
    match_here ignoreCase r (rev pre ++ bef) aft = Some res ->
    exists res', exec_from ignoreCase r bef (pre ++ aft) = Some res'.
Proof.
  induction pre as [|x pre IH]; intros bef aft res H; simpl in *.
  - destruct aft; simpl; rewrite H; eauto.
  - destruct (match_here ignoreCase r bef (x :: pre ++ aft)); eauto.
    rewrite <- app_assoc in H. eapply IH. exact H.
Qed.

End MatcherLaws.

(** ** Whole words *)

Lemma exec_from_scan ic r P :
  (forall bef aft, is_some (match_here ic r bef aft) = P bef aft) ->
  forall aft bef, is_some (exec_from ic r bef aft) = scan P bef aft.
Proof.
  intros HP. induction aft as [|x aft IH]; intros bef; simpl;
    rewrite <- HP; destruct (match_here ic r bef _); simpl; auto.
Qed.

Lemma existsb_orb {A} (f g : A -> bool) (l : list A) :
  existsb (fun w => f w || g w) l = existsb f l || existsb g l.
Proof.
  induction l as [|a l IHl]; simpl; [reflexivity|].
  rewrite IHl. destruct (f a), (g a), (existsb f l); reflexivity.
Qed.

Lemma existsb_ext {A} (f g : A -> bool) (l : list A) :
  (forall w, f w = g w) -> existsb f l = existsb g l.
Proof.
  intros H. induction l as [|a l IHl]; simpl; [reflexivity|].
  rewrite H, IHl. reflexivity.
Qed.

Lemma existsb_false_all {A} (l : list A) : existsb (fun _ => false) l = false.
Proof. induction l; simpl; auto. Qed.

Lemma scan_existsb {A} (Q : A -> list jschar -> jsstring -> bool) (l : list A) :
  forall aft bef,
    scan (fun b a => existsb (fun w => Q w b a) l) bef aft
    = existsb (fun w => scan (Q w) bef aft) l.
Proof.
  induction aft as [|x aft IH]; intros bef; simpl.
  - rewrite existsb_orb, existsb_false_all. reflexivity.
  - rewrite IH, existsb_orb. reflexivity.
Qed.

Lemma whole_word_from_scan w bef aft :
  whole_word_from w bef aft = scan (whole_word_here w) bef aft.
Proof.
  revert bef. induction aft as [|x aft IH]; intros bef; simpl; [reflexivity|].
  rewrite IH. reflexivity.
Qed.

Lemma rmatch_Chars w :
  forall st k,
    rmatch true (Chars w) st k
    = match same_letters w (after st) with
      | Some (u, post) => k (MState (u ++ before st) post (caps st))
      | None => None
      end.
Proof.
  induction w as [|c w IH]; intros st k; simpl.
  - destruct st; reflexivity.
  - destruct (after st) as [|x rest]; [reflexivity|].
    destruct (jschar_eqb _ _); [|reflexivity].
    rewrite IH. simpl.
    destruct (same_letters w rest) as [[u post]|]; [|reflexivity].
    rewrite <- app_assoc. reflexivity.
Qed.

(** The pattern built from a keyword finds what [whole_word_in] describes. *)
Lemma match_here_RegExp_word w bef aft :
  is_some (match_here true (RegExp_word w) bef aft) = whole_word_here w bef aft.
Proof.
  unfold match_here, RegExp_word, whole_word_here, boundary. simpl.
  destruct (xorb (is_word_at bef) (is_word_at aft)); [|reflexivity].
  rewrite rmatch_Chars. simpl.
  destruct (same_letters w aft) as [[u post]|]; [|reflexivity].
  simpl. destruct (xorb _ _); reflexivity.
Qed.

Lemma test_RegExp_word w text :
  test true (RegExp_word w) text = whole_word_in w text.
Proof.
  unfold test, exec, whole_word_in.
  change (is_some (exec_from true (RegExp_word w) [] text)
          = whole_word_from w [] text).
  rewrite whole_word_from_scan.
  apply exec_from_scan. intros. apply match_here_RegExp_word.
Qed.

(** A pattern [\b(w1|...|wn)\b] finds the whole words among [w1 ... wn]. *)
Lemma rmatch_words_boundary (ws : list string) (w0 : string) st :
  is_some
    (rmatch true (Alts (Chars (str w0)) (map (fun w => Chars (str w)) ws)) st
       (fun st' =>
          if xorb (is_word_at (before st')) (is_word_at (after st'))
          then Some (MState (before st') (after st')
                       ((1, consumed st st') :: caps st'))
          else None))
  = existsb
      (fun w =>
         match same_letters w (after st) with
         | Some (u, post) => boundary (u ++ before st) post
         | None => false
         end) (map str (w0 :: ws)).
Proof.
  revert w0. induction ws as [|w1 ws IH]; intros w0; simpl.
  - rewrite rmatch_Chars. rewrite orb_false_r.
    destruct (same_letters (str w0) (after st)) as [[u post]|]; [|reflexivity].
    simpl. unfold boundary. destruct (xorb _ _); reflexivity.
  - rewrite rmatch_Chars.
    specialize (IH w1). simpl in IH.
    destruct (same_letters (str w0) (after st)) as [[u post]|]; simpl.
    + unfold boundary at 1. destruct (xorb _ _); simpl; [reflexivity|].
      exact IH.
    + exact IH.
Qed.

Lemma test_words_boundary (w0 : string) (ws : list string) text :
  test true
    (Seq WordBoundary (Seq (Group 1 (words (w0 :: ws))) WordBoundary)) text
  = existsb (fun w => whole_word_in w text) (map str (w0 :: ws)).
Proof.
  unfold test, exec, whole_word_in.
  change (is_some (exec_from true
            (Seq WordBoundary (Seq (Group 1 (words (w0 :: ws))) WordBoundary))
            [] text)
          = existsb (fun w => whole_word_from w [] text) (map str (w0 :: ws))).
  rewrite (exec_from_scan true _
             (fun b a => existsb (fun w => whole_word_here w b a)
                           (map str (w0 :: ws)))).
  - rewrite scan_existsb. apply existsb_ext.
    intros w. symmetry. apply whole_word_from_scan.
  - intros bef aft. unfold match_here, words. simpl map.
    cbn [rmatch before after caps].
    unfold whole_word_here.
    destruct (xorb (is_word_at bef) (is_word_at aft)) eqn:Hb.
    + rewrite (rmatch_words_boundary ws w0 (MState bef aft [])).
      apply existsb_ext. intros w. unfold boundary at 2.
      simpl. rewrite Hb. reflexivity.
    + transitivity (existsb (fun _ : jsstring => false) (map str (w0 :: ws))).
      * rewrite existsb_false_all. reflexivity.
      * apply existsb_ext. intros w. unfold boundary at 1.
        rewrite Hb. reflexivity.
Qed.

(** ** Phrases *)

Lemma rmatch_Seq ic r1 r2 st k :
  rmatch ic (Seq r1 r2) st k = rmatch ic r1 st (fun st' => rmatch ic r2 st' k).
Proof. reflexivity. Qed.

Lemma after_letters_nil s K : after_letters [] s K = K s.
Proof. reflexivity. Qed.

Lemma after_letters_cons c w s K :
  after_letters (c :: w) s K
  = match s with
    | x :: rest =>
        jschar_eqb (canonicalize true x) (canonicalize true c)
        && after_letters w rest K
    | [] => false
    end.
Proof.
  unfold after_letters. cbn [same_letters].
  destruct s as [|x rest]; [reflexivity|].
  destruct (jschar_eqb _ _); [|reflexivity].
  destruct (same_letters w rest) as [[u post]|]; reflexivity.
Qed.

Lemma after_letters_app w w' :
  forall s K,
    after_letters (w ++ w') s K
    = after_letters w s (fun post => after_letters w' post K).
Proof.
  induction w as [|c w IH]; intros s K; [reflexivity|].
  cbn [app]. rewrite !after_letters_cons.
  destruct s as [|x rest]; [reflexivity|]. rewrite IH. reflexivity.
Qed.

Lemma after_letters_ext w s K K' :
  (forall post, K post = K' post) -> after_letters w s K = after_letters w s K'.
Proof.
  intros H. unfold after_letters.
  destruct (same_letters w s) as [[u post]|]; [apply H | reflexivity].
Qed.

Lemma after_letters_existsb {A} w s (F : A -> jsstring -> bool) l :
  after_letters w s (fun post => existsb (fun x => F x post) l)
  = existsb (fun x => after_letters w s (F x)) l.
Proof.
  unfold after_letters.
  destruct (same_letters w s) as [[u post]|]; [reflexivity|].
  symmetry. apply existsb_false_all.
Qed.

Lemma is_some_same_letters w s :
  is_some (same_letters w s) = after_letters w s (fun _ => true).
Proof.
  unfold after_letters. destruct (same_letters w s) as [[u post]|]; reflexivity.
Qed.

Lemma existsb_flat_map {A B} (f : B -> bool) (g : A -> list B) l :
  existsb f (flat_map g l) = existsb (fun x => existsb f (g x)) l.
Proof.
  induction l as [|a l IH]; [reflexivity|].
  cbn [flat_map existsb]. rewrite existsb_app, IH. reflexivity.
Qed.

Lemma existsb_map {A B} (f : B -> bool) (g : A -> B) l :
  existsb f (map g l) = existsb (fun x => f (g x)) l.
Proof.
  induction l as [|a l IH]; [reflexivity|].
  cbn [map existsb]. rewrite IH. reflexivity.
Qed.

(** What the parts of the cliche pattern accept, given what the rest of the
    pattern accepts of the rest of the text. *)
Lemma rmatch_Chars_after w st k K :
  (forall st', is_some (k st') = K (after st')) ->
  is_some (rmatch true (Chars w) st k) = after_letters w (after st) K.
Proof.
  intros Hk. rewrite rmatch_Chars. unfold after_letters.
  destruct (same_letters w (after st)) as [[u post]|]; [|reflexivity].
  rewrite Hk. reflexivity.
Qed.

Lemma rmatch_Char_after c st k K :
  (forall st', is_some (k st') = K (after st')) ->
  is_some (rmatch true (Char c) st k) = after_letters [c] (after st) K.
Proof.
  intros Hk. rewrite after_letters_cons. cbn [rmatch].
  destruct (after st) as [|x rest]; [reflexivity|].
  destruct (jschar_eqb _ _); [|reflexivity].
  rewrite Hk. reflexivity.
Qed.

Lemma rmatch_Alts_after (ws : list string) :
  forall (w0 : string) st k K,
    (forall st', is_some (k st') = K (after st')) ->
    is_some
      (rmatch true (Alts (Chars (str w0)) (map (fun w => Chars (str w)) ws)) st k)
    = existsb (fun w => after_letters (str w) (after st) K) (w0 :: ws).
Proof.
  induction ws as [|w1 ws IH]; intros w0 st k K Hk.
  - cbn [map Alts existsb]. rewrite (rmatch_Chars_after _ _ _ K Hk).
    rewrite orb_false_r. reflexivity.
  - cbn [map Alts]. cbn [rmatch].
    pose proof (rmatch_Chars_after (str w0) st k K Hk) as H0.
    specialize (IH w1 st k K Hk).
    change (existsb (fun w => after_letters (str w) (after st) K) (w0 :: w1 :: ws))
      with (after_letters (str w0) (after st) K
            || existsb (fun w => after_letters (str w) (after st) K) (w1 :: ws)).
    rewrite <- H0, <- IH.
    destruct (rmatch true (Chars (str w0)) st k); reflexivity.
Qed.

Lemma rmatch_Group_words_after n (w0 : string) (ws : list string) st k K :
  (forall st', is_some (k st') = K (after st')) ->
  is_some (rmatch true (Group n (words (w0 :: ws))) st k)
  = existsb (fun w => after_letters (str w) (after st) K) (w0 :: ws).
Proof.
  intros Hk. unfold words. cbn [map]. cbn [rmatch].
  apply rmatch_Alts_after. intros st'. rewrite Hk. reflexivity.
Qed.

Lemma match_here_cliche_re bef aft :
  is_some (match_here true cliche_re bef aft)
  = existsb (fun p => is_some (same_letters p aft)) cliche_phrases.
Proof.
  unfold match_here, cliche_re. rewrite rmatch_Seq.
  rewrite (rmatch_Group_words_after 1 _ _ _ _
             (fun a1 =>
                after_letters [SPACE] a1
                  (fun a2 =>
                     existsb
                       (fun feeling =>
                          after_letters (str feeling) a2
                            (fun a3 =>
                               after_letters [SPACE] a3
                                 (fun a4 =>
                                    existsb
                                      (fun prep =>
                                         after_letters (str prep) a4 (fun _ => true))
                                      ["about"; "in"]%string)))
                       ["passionate"; "interested"; "excited"]%string))).
  - cbn [after]. unfold cliche_phrases.
    rewrite existsb_flat_map. apply existsb_ext. intros be.
    rewrite existsb_flat_map.
    rewrite (after_letters_ext _ _ _ _
               (fun a1 => after_letters_existsb [SPACE] a1 _ _)).
    rewrite after_letters_existsb.
    apply existsb_ext. intros feeling.
    rewrite existsb_map.
    rewrite (after_letters_ext _ _ _ _
               (fun a1 =>
                  after_letters_ext _ _ _ _
                    (fun a2 =>
                       after_letters_ext _ _ _ _
                         (fun a3 => after_letters_existsb [SPACE] a3 _ _)))).
    rewrite (after_letters_ext _ _ _ _
               (fun a1 =>
                  after_letters_ext _ _ _ _
                    (fun a2 => after_letters_existsb (str feeling) a2 _ _))).
    rewrite (after_letters_ext _ _ _ _
               (fun a1 => after_letters_existsb [SPACE] a1 _ _)).
    rewrite after_letters_existsb.
    apply existsb_ext. intros prep.
    rewrite is_some_same_letters.
    change (str be ++ SPACE :: str feeling ++ SPACE :: str prep)
      with (str be ++ [SPACE] ++ str feeling ++ [SPACE] ++ str prep).
    rewrite after_letters_app.
    apply after_letters_ext. intros a1. rewrite after_letters_app.
    apply after_letters_ext. intros a2. rewrite after_letters_app.
    apply after_letters_ext. intros a3. rewrite after_letters_app.
    reflexivity.
  - intros st1. rewrite rmatch_Seq.
    apply rmatch_Char_after. intros st2. rewrite rmatch_Seq.
    apply rmatch_Group_words_after. intros st3. rewrite rmatch_Seq.
    apply rmatch_Char_after. intros st4.
    apply (rmatch_Group_words_after 3 "about" ["in"]%string st4 Some
             (fun _ => true)).
    reflexivity.
Qed.

Lemma phrase_in_scan p :
  forall text bef,
    phrase_in p text = scan (fun _ aft => is_some (same_letters p aft)) bef text.
Proof.
  induction text as [|x text IH]; intros bef; cbn [phrase_in scan];
    [reflexivity|].
  rewrite (IH (x :: bef)). reflexivity.
Qed.

(** The cliche pattern finds the phrases of the list, wherever they stand. *)
Lemma test_cliche_re s :
  test true cliche_re s = contains_phrase_of cliche_phrases s.
Proof.
  unfold test, exec, contains_phrase_of.
  change (is_some (exec_from true cliche_re [] s)
          = existsb (fun p => phrase_in p s) cliche_phrases).
  rewrite (exec_from_scan true _
             (fun _ a => existsb (fun p => is_some (same_letters p a))
                           cliche_phrases)).
  - rewrite (scan_existsb (fun p _ a => is_some (same_letters p a))).
    apply existsb_ext. intros p. symmetry. apply phrase_in_scan.
  - intros bef aft. apply match_here_cliche_re.
Qed.

(** ** Sentences that need modification *)

Lemma test_vague_re s : test true vague_re s = contains_word_of vague_tokens s.
Proof. apply (test_words_boundary "very" ["really"; "things"; "stuff"]%string). Qed.

Lemma test_absolute_re s :
  test true absolute_re s = contains_word_of absolute_words s.
Proof.
  apply (test_words_boundary "always"
           ["never"; "all"; "none"; "every"; "everyone"]%string).
Qed.

Lemma needsModification_count s :
  needsModification s = (2 <=? red_flags_held s).
Proof.
  unfold needsModification, redFlags, red_flags_held.
  rewrite test_vague_re, test_cliche_re, test_absolute_re.
  generalize (50 <? length s) (length s <? 10)
    (contains_word_of vague_tokens s) (contains_phrase_of cliche_phrases s)
    (contains_word_of absolute_words s).
  intros [] [] [] [] []; reflexivity.
Qed.

(** C9.  A sentence needs modification exactly when at least two of the five
    red flags hold: longer than 50, shorter than 10, a vague token as a whole
    word, a cliche phrase (a form of "to be", one of "passionate",
    "interested" and "excited", and "about" or "in", a space between them,
    in either case, anywhere in the sentence), an absolute-quantifier word.
    So a sentence of length 60 with the whole words "really" and "always" is
    counted, and a sentence of length 20 with no vague token, no cliche
    phrase and no absolute-quantifier word is not; a cliche phrase counts
    with any other flag, as in "I am Interested in all of it", and not on
    its own, as in "I am interested in it". *)
Theorem needsModification_two_red_flags :
  (forall s, needsModification s = (2 <=? red_flags_held s)) /\
  (forall s,
     length s = 60 ->
     whole_word_in (str "really") s = true ->
     whole_word_in (str "always") s = true ->
     needsModification s = true) /\
  (forall s,
     length s = 20 ->
     contains_word_of vague_tokens s = false ->
     contains_phrase_of cliche_phrases s = false ->
     contains_word_of absolute_words s = false ->
     needsModification s = false) /\
  (forall s,
     contains_phrase_of cliche_phrases s = true ->
     50 < length s \/ length s < 10 \/
     contains_word_of vague_tokens s = true \/
     contains_word_of absolute_words s = true ->
     needsModification s = true) /\
  needsModification (str "I am Interested in all of it") = true /\
  needsModification (str "I am interested in it") = false /\
  needsModification (str "I often think of all of it") = false.
Proof.
  split; [exact needsModification_count|]. split; [|split; [|split]].
  - intros s Hlen Hreally Halways.
    rewrite needsModification_count. unfold red_flags_held.
    assert (Hv : contains_word_of vague_tokens s = true).
    { unfold contains_word_of, vague_tokens. simpl existsb.
      rewrite Hreally. apply orb_true_r. }
    assert (Ha : contains_word_of absolute_words s = true).
    { unfold contains_word_of, absolute_words. simpl existsb.
      rewrite Halways. reflexivity. }
    rewrite Hv, Ha, Hlen. simpl.
    destruct (contains_phrase_of cliche_phrases s); reflexivity.
  - intros s Hlen Hv Hc Ha.
    rewrite needsModification_count. unfold red_flags_held.
    rewrite Hv, Hc, Ha, Hlen. reflexivity.
  - intros s Hc H.
    rewrite needsModification_count. unfold red_flags_held. rewrite Hc.
    destruct H as [H|[H|[H|H]]].
    + apply Nat.ltb_lt in H. rewrite H.
      destruct (length s <? 10), (contains_word_of vague_tokens s),
        (contains_word_of absolute_words s); reflexivity.
    + apply Nat.ltb_lt in H. rewrite H.
      destruct (50 <? length s), (contains_word_of vague_tokens s),
        (contains_word_of absolute_words s); reflexivity.
    + rewrite H.
      destruct (50 <? length s), (length s <? 10),
        (contains_word_of absolute_words s); reflexivity.
    + rewrite H.
      destruct (50 <? length s), (length s <? 10),
        (contains_word_of vague_tokens s); reflexivity.
  - repeat split; vm_compute; reflexivity.
Qed.

Lemma needsModification_two_red_flags_witness :
  needsModification
    (str "I have really always wanted to study the stars and the moons") = true
  /\ needsModification (str "The lab opens at six") = false
  /\ needsModification (str "We were EXCITED about things") = true.
Proof.
  split; [|split].
  - apply (proj1 (proj2 needsModification_two_red_flags)); reflexivity.
  - apply (proj1 (proj2 (proj2 needsModification_two_red_flags))); reflexivity.
  - apply (proj1 (proj2 (proj2 (proj2 needsModification_two_red_flags))));
      [reflexivity|].
    right. right. left. reflexivity.
Defined.

(** C10.  No sentence is both longer than 50 and shorter than 10, so
    [needsModification] never answers [true] on length alone: a sentence it
    counts holds a vague token, matches the cliche pattern or holds an
    absolute-quantifier word. *)
Theorem needsModification_not_on_length_alone :
  (forall s : jsstring, (50 <? length s) && (length s <? 10) = false) /\
  (forall s,
     needsModification s = true ->
     contains_word_of vague_tokens s = true \/
     test true cliche_re s = true \/
     contains_word_of absolute_words s = true).
Proof.
  assert (Hexcl : forall s : jsstring, (50 <? length s) && (length s <? 10) = false).
  { intros s. destruct (50 <? length s) eqn:H1; [|reflexivity].
    apply Nat.ltb_lt in H1. simpl. apply Nat.ltb_ge. lia. }
  split; [exact Hexcl|].
  intros s H. rewrite needsModification_count in H. unfold red_flags_held in H.
  specialize (Hexcl s). rewrite test_cliche_re.
  destruct (contains_word_of vague_tokens s); [auto|].
  destruct (contains_phrase_of cliche_phrases s); [auto|].
  destruct (contains_word_of absolute_words s); [auto|].
  destruct (50 <? length s), (length s <? 10); discriminate.
Qed.

Lemma needsModification_not_on_length_alone_witness :
  contains_word_of vague_tokens (str "I really never do") = true \/
  test true cliche_re (str "I really never do") = true \/
  contains_word_of absolute_words (str "I really never do") = true.
Proof.
  apply (proj2 needsModification_not_on_length_alone). reflexivity.
Defined.

(** ** The response parser *)

(** C4.  The parser answers every response with a result and never throws.
    A response that is no string gets score 0 and the parser's error
    message, a string without a score line gets score 0, a string without a
    feedback section gets "No feedback available"; and the two responses of
    the specification are parsed as it says. *)
Theorem parseEvaluationResponse_total :
  (forall response, exists r, parseEvaluationResponse response = Normal r) /\
  (forall response,
     (forall s, response <> VString s) ->
     parseEvaluationResponse response
     = Normal (Result 0%float (str "Error parsing evaluation response."))) /\
  (forall s r,
     parseEvaluationResponse (VString s) = Normal r ->
     (exec false score_re s = None -> score r = 0%float) /\
     (exec false feedback_re s = None ->
      feedback r = str "No feedback available")) /\
  parseEvaluationResponse
    (VString (str "Score: 85/100" ++ [LF] ++ str "Feedback: Strong opening."))
  = Normal (Result 85%float (str "Strong opening.")) /\
  parseEvaluationResponse (VString (str "garbage text with no markers"))
  = Normal (Result 0%float (str "No feedback available")).
Proof.
  split; [|split; [|split; [|split]]].
  - intros response. unfold parseEvaluationResponse.
    destruct response; simpl; eauto.
  - intros response Hns. unfold parseEvaluationResponse.
    destruct response; simpl; try reflexivity.
    exfalso. eapply Hns. reflexivity.
  - intros s r H. unfold parseEvaluationResponse in H. simpl in H.
    inv H. simpl. split; intros ->; reflexivity.
  - vm_compute. reflexivity.
  - vm_compute. reflexivity.
Qed.

Lemma parseEvaluationResponse_total_witness :
  parseEvaluationResponse VNull
  = Normal (Result 0%float (str "Error parsing evaluation response.")) /\
  score (Result 0%float (str "fine")) = 0%float /\
  feedback (Result 5%float (str "No feedback available"))
  = str "No feedback available".
Proof.
  split; [|split].
  - apply (proj1 (proj2 parseEvaluationResponse_total)).
    intros s. discriminate.
  - apply (proj1 (proj1 (proj2 (proj2 parseEvaluationResponse_total))
                    (str "Feedback: fine") _ eq_refl)).
    vm_compute. reflexivity.
  - apply (proj2 (proj1 (proj2 (proj2 parseEvaluationResponse_total))
                    (str "Score: 5/100") _ eq_refl)).
    vm_compute. reflexivity.
Defined.

(** ** The dimension evaluators *)

Lemma evaluate_result prompt dimension sv :
  Script.evaluate prompt dimension sv
  = (Normal (evaluator_result dimension (replies sv)),
     Service (tl (replies sv)) ([Message (str "user") prompt] :: sent sv)).
Proof.
  unfold Script.evaluate, try_catch, bind, fetch, evaluator_result, choice_content.
  destruct (replies sv) as [|[| |data] rest]; simpl; try reflexivity.
  unfold lift.
  destruct (get data "choices") as [choices|]; simpl; [|reflexivity].
  destruct (get_first choices) as [choice|]; simpl; [|reflexivity].
  destruct (get choice "message") as [message|]; simpl; [|reflexivity].
  destruct (get message "content") as [c|]; simpl; [|reflexivity].
  destruct c; reflexivity.
Qed.

(** C8, as the code has it.  Whatever the reply to its call, a dimension
    evaluator returns a result and never throws, and it uses up exactly that
    one reply, so the calls of the other dimensions are not affected.  The
    result has score 0 and the feedback "Error evaluating <dimension>. Please
    try again." when the call fails, the body is not JSON or has no
    [choices[0].message]; it has score 0 and the parser's own feedback "Error
    parsing evaluation response." when the message holds no string. *)
Theorem evaluators_absorb_failures (text : jsstring) (sv : service) :
  (exists p, Script.evaluateContent text sv
             = (Normal (evaluator_result "content" (replies sv)),
                Service (tl (replies sv)) (p :: sent sv))) /\
  (exists p, Script.evaluateNarrative text sv
             = (Normal (evaluator_result "narrative" (replies sv)),
                Service (tl (replies sv)) (p :: sent sv))) /\
  (exists p, Script.evaluateLanguage text sv
             = (Normal (evaluator_result "language" (replies sv)),
                Service (tl (replies sv)) (p :: sent sv))) /\
  (forall dimension next,
     (forall data rest, next = Json data :: rest ->
        exists e, choice_content data = Throw e) ->
     evaluator_result dimension next = error_result dimension) /\
  (forall dimension data rest v,
     choice_content data = Normal v ->
     (forall s, v <> VString s) ->
     evaluator_result dimension (Json data :: rest) = parse_error_result).
Proof.
  split; [|split; [|split; [|split]]].
  - eexists. apply evaluate_result.
  - eexists. apply evaluate_result.
  - eexists. apply evaluate_result.
  - intros dimension next H. unfold evaluator_result.
    destruct next as [|[| |data] rest]; try reflexivity.
    destruct (H data rest eq_refl) as [e ->]. reflexivity.
  - intros dimension data rest v Hc Hv. unfold evaluator_result.
    rewrite Hc. destruct v; try reflexivity.
    exfalso. eapply Hv. reflexivity.
Qed.

Lemma evaluators_absorb_failures_witness :
  evaluator_result "content" [NetworkError] = error_result "content" /\
  evaluator_result "content" [Json (VObject [])] = error_result "content" /\
  evaluator_result "content" [Json (chat_body VNull)] = parse_error_result.
Proof.
  split; [|split].
  - apply (proj1 (proj2 (proj2 (proj2
             (evaluators_absorb_failures [] (Service [] [])))))).
    intros data rest H. discriminate.
  - apply (proj1 (proj2 (proj2 (proj2
             (evaluators_absorb_failures [] (Service [] [])))))).
    intros data rest H. inversion H. exists TypeError. reflexivity.
  - apply (proj2 (proj2 (proj2 (proj2
             (evaluators_absorb_failures [] (Service [] []))))) "content"%string
             (chat_body VNull) [] VNull).
    + reflexivity.
    + intros s. discriminate.
Defined.

(** C8 as stated fails: a body whose message holds [null] where the text
    should be is answered with the parser's message, not with the
    dimension's. *)
Lemma evaluateContent_null_content :
  exists r,
    fst (Script.evaluateContent (str "My essay.")
           (Service [Json (chat_body VNull)] [])) = Normal r /\
    score r = 0%float /\
    feedback r = str "Error parsing evaluation response." /\
    feedback r <> str "Error evaluating content. Please try again.".
Proof.
  eexists. split; [vm_compute; reflexivity|].
  split; [reflexivity|]. split; [reflexivity|].
  vm_compute. discriminate.
Qed.

(** ** The suggestion generator *)

Section Suggestions.

Variable Number_toString : float -> jsstring.

(** The prompt built from the [results] object of [evaluateText]: the
    substitutions [scores.content] ... are objects and [scores.contentFeedback]
    ... do not exist, so neither a score nor a feedback text gets into it. *)
Lemma suggestions_prompt_results text c n l f :
  Script.suggestions_prompt Number_toString text (Script.results_object c n l f)
  = Normal (Script.lines
      [ str "As an expert SOP evaluator, please provide specific suggestions to improve this Statement of Purpose. Focus on the following aspects:";
        [];
        str "1. Content ([object Object]/100):";
        str "undefined";
        [];
        str "2. Narrative Structure ([object Object]/100):";
        str "undefined";
        [];
        str "3. Language Usage ([object Object]/100):";
        str "undefined";
        [];
        str "Please analyze the following SOP and provide clear, actionable suggestions for improvement:";
        [];
        text;
        [];
        str "Format your response as a bulleted list of specific suggestions, focusing on the most critical improvements needed." ]).
Proof. reflexivity. Qed.

Lemma generateModificationSuggestions_results text c n l f sv :
  exists v prompt,
    Script.suggestions_prompt Number_toString text
      (Script.results_object c n l f) = Normal prompt /\
    Script.generateModificationSuggestions Number_toString text
      (Script.results_object c n l f) sv
    = (Normal v,
       Service (tl (replies sv))
         ([ Message (str "system")
              (str "You are an expert SOP evaluator providing specific improvement suggestions.");
            Message (str "user") prompt ] :: sent sv)).
Proof.
  unfold Script.generateModificationSuggestions.
  rewrite suggestions_prompt_results.
  unfold bind at 1. unfold lift at 1. cbv beta iota.
  unfold try_catch, bind, fetch.
  destruct (replies sv) as [|[| |data] rest]; cbn [tl json throw lift ret];
    try (eexists; eexists; split; reflexivity).
  destruct (Script.optional_content data) as [v|e];
    [|eexists; eexists; split; reflexivity].
  destruct (to_boolean v); eexists; eexists; split; reflexivity.
Qed.

End Suggestions.

(** C7, on the code.  [generateModificationSuggestions] makes one request,
    but the instruction it sends reports no score and no feedback: given the
    results of [evaluateText] for the text "My essay.", with content result
    [{score: 85, feedback: "Strong opening."}], the prompt reads
    "[object Object]/100" where the score should stand and "undefined" where
    the feedback should; it holds neither "85" nor "Strong opening.", and it
    is the same whatever the three results are. *)
Theorem generateModificationSuggestions_prompt :
  forall Number_toString sv,
    let text := str "My essay." in
    let c := Result 85%float (str "Strong opening.") in
    let n := Result 80%float (str "Clear arc.") in
    let l := Result 90%float (str "Fluent.") in
    exists v prompt,
      Script.generateModificationSuggestions Number_toString text
        (Script.results_object c n l 84%float) sv
      = (Normal v,
         Service (tl (replies sv))
           ([ Message (str "system")
                (str "You are an expert SOP evaluator providing specific improvement suggestions.");
              Message (str "user") prompt ] :: sent sv)) /\
      (forall c' n' l' f',
         Script.suggestions_prompt Number_toString text
           (Script.results_object c' n' l' f') = Normal prompt) /\
      includes prompt (str "1. Content ([object Object]/100):" ++ [LF]
                         ++ str "undefined") = true /\
      includes prompt (str "85") = false /\
      includes prompt (str "Strong opening.") = false.
Proof.
  intros nts sv text c n l.
  destruct (generateModificationSuggestions_results nts text c n l 84%float sv)
    as (v & prompt & Hp & Hg).
  exists v, prompt. split; [exact Hg|].
  rewrite suggestions_prompt_results in Hp. inv Hp.
  split; [intros; apply suggestions_prompt_results|].
  repeat split; vm_compute; reflexivity.
Qed.

(** ** The orchestrator *)

(** C1, on the code.  With the content call failing and the narrative and
    language calls answered with scores 80 and 90, [evaluateText] of
    [public/script.js] completes with content score 0, but its final score
    is the weighted sum divided by 100 and not rounded: 0.5, not 50.  The
    other version of the script rounds the weighted sum and returns 50. *)
Theorem evaluateText_final_score :
  forall Number_toString text rest,
    let sv :=
      Service (NetworkError :: scored_reply "80" "Fine."
                 :: scored_reply "90" "Fine." :: rest) [] in
    (exists r sv',
       Script.evaluateText Number_toString text sv = (Normal r, sv') /\
       Script.content r = error_result "content" /\
       score (Script.narrative r) = 80%float /\
       score (Script.language r) = 90%float /\
       Script.final_score r = 0.5%float) /\
    (exists r sv',
       Sibling.evaluateText text sv = (Normal r, sv') /\
       Sibling.content r = error_result "content" /\
       score (Sibling.narrative r) = 80%float /\
       score (Sibling.language r) = 90%float /\
       Sibling.final_score r = 50%float).
Proof.
  intros nts text rest sv.
  assert (H80 : forall X, evaluator_result "narrative"
                  (scored_reply "80" "Fine." :: X) = Result 80%float (str "Fine."))
    by (intros; vm_compute; reflexivity).
  assert (H90 : forall X, evaluator_result "language"
                  (scored_reply "90" "Fine." :: X) = Result 90%float (str "Fine."))
    by (intros; vm_compute; reflexivity).
  split.
  - unfold Script.evaluateText, try_catch.
    unfold bind at 1. unfold Script.evaluateContent. rewrite evaluate_result.
    unfold bind at 1. unfold Script.evaluateNarrative. rewrite evaluate_result.
    unfold bind at 1. unfold Script.evaluateLanguage. rewrite evaluate_result.
    cbn [replies tl sv]. rewrite H80, H90.
    unfold evaluator_result at 1 2 3.
    unfold bind at 1.
    match goal with
    | |- context [Script.generateModificationSuggestions _ _
                    (Script.results_object ?c ?n ?l ?f) ?s] =>
        destruct (generateModificationSuggestions_results nts text c n l f s)
          as (v & prompt & _ & ->)
    end.
    eexists. eexists. split; [reflexivity|].
    cbn [Script.content Script.narrative Script.language Script.final_score score].
    repeat split; vm_compute; reflexivity.
  - unfold Sibling.evaluateText, try_catch.
    unfold bind at 1. unfold Script.evaluateContent. rewrite evaluate_result.
    unfold bind at 1. unfold Script.evaluateNarrative. rewrite evaluate_result.
    unfold bind. unfold Script.evaluateLanguage. rewrite evaluate_result.
    cbn [replies tl sv]. rewrite H80, H90.
    eexists. eexists. split; [reflexivity|].
    cbn [Sibling.content Sibling.narrative Sibling.language Sibling.final_score score].
    repeat split; vm_compute; reflexivity.
Qed.

(** C2, on the code.  With no sentence at all the flagged fraction is 0/0,
    which is NaN and fails every comparison of the step function, so the
    language score is the lowest step, 1 of 5, that is 20 - not 100.  The
    text "..." is such an input: it is not empty, and it has no sentence. *)
Theorem evaluateLanguage_no_sentence :
  filter (fun s => truthy (trim s))
    (split Heuristic.sentence_end_re (str "...")) = [] /\
  PrimFloat.is_nan (Number_of_nat 0 / Number_of_nat 0 * 100)%float = true /\
  Heuristic.evaluateLanguage [] = 20%float /\
  Heuristic.language (Heuristic.evaluateText (str "...")) = 20%float /\
  Heuristic.evaluateLanguage [str "One plain sentence"] = 100%float.
Proof. repeat split; vm_compute; reflexivity. Qed.

(** ** Rounding to a Number *)

Section Rounding.

Local Open Scope Z_scope.

Ltac dm := Z.div_mod_to_equations; lia.

Lemma or_one_cases x b :
  (b = false /\ or_one x b = x) \/
  (b = true /\ x mod 2 = 0 /\ or_one x b = x + 1) \/
  (b = true /\ x mod 2 = 1 /\ or_one x b = x).
Proof.
  unfold or_one. destruct b; [|auto].
  destruct (Z.even x) eqn:H.
  - right. left. rewrite Zeven_mod in H. apply Z.eqb_eq in H. auto.
  - right. right. rewrite Zeven_mod in H. apply Z.eqb_neq in H.
    repeat split; auto. dm.
Qed.

(** One shift of a record halves it, keeping the last bit sticky. *)
Lemma shr_1_quarters mrs :
  0 <= shr_m mrs ->
  quarters (shr_1 mrs) = sticky_shift (quarters mrs) 1 /\ 0 <= shr_m (shr_1 mrs).
Proof.
  destruct mrs as [m r s]. simpl. intros Hm.
  unfold sticky_shift, quarters. simpl shr_m. simpl shr_r. simpl shr_s.
  change (2 ^ 1) with 2.
  match goal with
  | |- context [or_one ?x ?b] =>
      destruct (or_one_cases x b) as [(Hb & ->)|[(Hb & Hx & ->)|(Hb & Hx & ->)]]
  end;
  [apply negb_false_iff in Hb; apply Z.eqb_eq in Hb
  |apply negb_true_iff in Hb; apply Z.eqb_neq in Hb
  |apply negb_true_iff in Hb; apply Z.eqb_neq in Hb];
  (destruct m as [|p|p]; [| |lia];
   [|destruct p as [p|p|]]; destruct r, s;
   cbn [shr_1 shr_m shr_r shr_s orb Z.b2z] in *;
   try rewrite Pos2Z.inj_xI in *; try rewrite Pos2Z.inj_xO in *;
   split; dm).
Qed.

Lemma or_one_div2 x b : 0 <= x -> or_one x b / 2 = x / 2.
Proof.
  intros Hx.
  destruct (or_one_cases x b) as [(_ & ->)|[(_ & H & ->)|(_ & H & ->)]]; dm.
Qed.

Lemma or_one_mod2 x b :
  0 <= x -> (or_one x b mod 2 =? 0) = (x mod 2 =? 0) && negb b.
Proof.
  intros Hx.
  destruct (or_one_cases x b) as [(-> & ->)|[(-> & H & ->)|(-> & H & ->)]].
  - rewrite andb_true_r. reflexivity.
  - rewrite andb_false_r. apply Z.eqb_neq. dm.
  - rewrite andb_false_r. apply Z.eqb_neq. dm.
Qed.

Lemma sticky_shift_0 T : sticky_shift T 0 = T.
Proof.
  unfold sticky_shift. change (2 ^ 0) with 1.
  rewrite Z.div_1_r, Z.mod_1_r. reflexivity.
Qed.

Lemma sticky_shift_succ T n :
  0 <= T -> 0 <= n ->
  sticky_shift (sticky_shift T n) 1 = sticky_shift T (n + 1).
Proof.
  intros HT Hn. unfold sticky_shift at 1 3. change (2 ^ 1) with 2.
  assert (Hp : 0 < 2 ^ n) by (apply Z.pow_pos_nonneg; lia).
  assert (Hq : 0 <= T / 2 ^ n) by (apply Z.div_pos; lia).
  unfold sticky_shift.
  rewrite or_one_div2 by exact Hq.
  rewrite or_one_mod2 by exact Hq.
  rewrite Z.pow_add_r by lia. change (2 ^ 1) with 2.
  rewrite <- Z.div_div by lia.
  rewrite Z.rem_mul_r by lia.
  f_equal. f_equal.
  rewrite negb_involutive.
  pose proof (Z.mod_pos_bound T (2 ^ n) Hp).
  pose proof (Z.mod_pos_bound (T / 2 ^ n) 2 ltac:(lia)).
  destruct (T mod 2 ^ n =? 0) eqn:Hr;
    destruct (T / 2 ^ n mod 2 =? 0) eqn:Hb;
    destruct (T mod 2 ^ n + 2 ^ n * ((T / 2 ^ n) mod 2) =? 0) eqn:Hs;
    try reflexivity; exfalso;
    repeat match goal with
      | H : (_ =? _) = true |- _ => apply Z.eqb_eq in H
      | H : (_ =? _) = false |- _ => apply Z.eqb_neq in H
      end; nia.
Qed.

Lemma sticky_shift_nonneg T n : 0 <= T -> 0 <= n -> 0 <= sticky_shift T n.
Proof.
  intros HT Hn. unfold sticky_shift.
  assert (0 <= T / 2 ^ n) by (apply Z.div_pos; [lia | apply Z.pow_pos_nonneg; lia]).
  destruct (or_one_cases (T / 2 ^ n) (negb (T mod 2 ^ n =? 0)))
    as [(_ & E)|[(_ & _ & E)|(_ & _ & E)]]; rewrite E; lia.
Qed.

Lemma quarters_nonneg mrs : 0 <= shr_m mrs -> 0 <= quarters mrs.
Proof.
  unfold quarters. intros H. destruct (shr_r mrs), (shr_s mrs); cbn [Z.b2z]; lia.
Qed.

Lemma iter_pos_nat {A} (f : A -> A) p x :
  iter_pos f p x = Nat.iter (Pos.to_nat p) f x.
Proof.
  revert x. induction p as [p IH|p IH|]; intros x; cbn [iter_pos].
  - rewrite !IH, Pos2Nat.inj_xI.
    replace (S (2 * Pos.to_nat p)) with (Pos.to_nat p + S (Pos.to_nat p))%nat by lia.
    rewrite Nat.iter_add. f_equal. rewrite Nat.iter_succ_r. reflexivity.
  - rewrite !IH, Pos2Nat.inj_xO.
    replace (2 * Pos.to_nat p)%nat with (Pos.to_nat p + Pos.to_nat p)%nat by lia.
    rewrite Nat.iter_add. reflexivity.
  - reflexivity.
Qed.

Lemma iter_shr_1_quarters (n : nat) mrs :
  0 <= shr_m mrs ->
  quarters (Nat.iter n shr_1 mrs) = sticky_shift (quarters mrs) (Z.of_nat n) /\
  0 <= shr_m (Nat.iter n shr_1 mrs).
Proof.
  intros Hm. induction n as [|n [IHq IHm]].
  - simpl. rewrite sticky_shift_0. auto.
  - rewrite Nat2Z.inj_succ. simpl Nat.iter.
    destruct (shr_1_quarters _ IHm) as [Hq Hm'].
    split; [|exact Hm'].
    rewrite Hq, IHq. unfold Z.succ.
    apply sticky_shift_succ; [apply quarters_nonneg; exact Hm | lia].
Qed.

Lemma shr_quarters mrs e n :
  0 <= shr_m mrs -> 0 <= n ->
  quarters (fst (shr mrs e n)) = sticky_shift (quarters mrs) n /\
  snd (shr mrs e n) = e + n /\
  0 <= shr_m (fst (shr mrs e n)).
Proof.
  intros Hm Hn. unfold shr. destruct n as [|p|p]; [| |lia].
  - simpl. rewrite sticky_shift_0, Z.add_0_r. auto.
  - cbn [fst snd]. rewrite iter_pos_nat.
    destruct (iter_shr_1_quarters (Pos.to_nat p) mrs Hm) as [Hq Hm'].
    rewrite positive_nat_Z in Hq. auto.
Qed.

Lemma shr_nonpos mrs e n : n <= 0 -> shr mrs e n = (mrs, e).
Proof. intros Hn. unfold shr. destruct n; [reflexivity | lia | reflexivity]. Qed.

(** Rounding a record is rounding its quarters. *)
Lemma round_nearest_even_quarters mrs :
  0 <= shr_m mrs ->
  round_nearest_even (shr_m mrs) (loc_of_shr_record mrs)
  = round_quarters (quarters mrs).
Proof.
  destruct mrs as [m r s]. cbn [shr_m]. intros Hm.
  unfold round_quarters, quarters. cbn [shr_m shr_r shr_s].
  assert (Hd : forall c, 0 <= c < 4 -> (4 * m + c) / 4 = m /\ (4 * m + c) mod 4 = c)
    by (intros; dm).
  destruct r, s; cbn [Z.b2z loc_of_shr_record round_nearest_even].
  - destruct (Hd 3 ltac:(lia)) as [H1 H2].
    replace (4 * m + 2 * 1 + 1) with (4 * m + 3) by lia.
    rewrite H1, H2. reflexivity.
  - destruct (Hd 2 ltac:(lia)) as [H1 H2].
    replace (4 * m + 2 * 1 + 0) with (4 * m + 2) by lia.
    rewrite H1, H2. reflexivity.
  - destruct (Hd 1 ltac:(lia)) as [H1 H2].
    replace (4 * m + 2 * 0 + 1) with (4 * m + 1) by lia.
    rewrite H1, H2. reflexivity.
  - destruct (Hd 0 ltac:(lia)) as [H1 H2].
    replace (4 * m + 2 * 0 + 0) with (4 * m + 0) by lia.
    rewrite H1, H2. reflexivity.
Qed.

(** Binary digits. *)
Lemma digits2_pos_bounds p :
  2 ^ (Zpos (digits2_pos p) - 1) <= Zpos p < 2 ^ Zpos (digits2_pos p).
Proof.
  induction p as [p IH|p IH|]; cbn [digits2_pos].
  - rewrite Pos2Z.inj_succ. change (Z.pos p~1) with (2 * Z.pos p + 1).
    replace (Z.succ (Zpos (digits2_pos p)) - 1)
      with (Z.succ (Zpos (digits2_pos p) - 1)) by lia.
    rewrite !Z.pow_succ_r by lia. lia.
  - rewrite Pos2Z.inj_succ. change (Z.pos p~0) with (2 * Z.pos p).
    replace (Z.succ (Zpos (digits2_pos p)) - 1)
      with (Z.succ (Zpos (digits2_pos p) - 1)) by lia.
    rewrite !Z.pow_succ_r by lia. lia.
  - simpl. lia.
Qed.

Lemma Zdigits2_bounds x :
  0 < x -> 2 ^ (Zdigits2 x - 1) <= x < 2 ^ Zdigits2 x.
Proof.
  intros Hx. destruct x as [|p|p]; try lia. apply digits2_pos_bounds.
Qed.

Lemma Zdigits2_nonneg x : 0 <= Zdigits2 x.
Proof. destruct x; simpl; lia. Qed.

Lemma Zdigits2_unique x k :
  0 < x -> 2 ^ (k - 1) <= x < 2 ^ k -> Zdigits2 x = k.
Proof.
  intros Hx [Hlo Hhi].
  destruct (Zdigits2_bounds x Hx) as [Dlo Dhi].
  pose proof (Zdigits2_nonneg x) as Dn.
  assert (Hk : 0 < k).
  { destruct (Z.lt_trichotomy k 0) as [H|[H|H]]; [| |exact H].
    - rewrite Z.pow_neg_r in Hhi by lia. lia.
    - subst k. simpl in Hhi. lia. }
  destruct (Z.lt_trichotomy (Zdigits2 x) k) as [H|[H|H]]; [|exact H|].
  - assert (2 ^ Zdigits2 x <= 2 ^ (k - 1)) by (apply Z.pow_le_mono_r; lia). lia.
  - assert (2 ^ k <= 2 ^ (Zdigits2 x - 1)) by (apply Z.pow_le_mono_r; lia). lia.
Qed.

Lemma fexp_64 k : fexp prec emax k = fexp64 k.
Proof. reflexivity. Qed.

Lemma round_quarters_bounds T :
  0 <= T -> T / 4 <= round_quarters T <= T / 4 + 1.
Proof.
  intros HT. unfold round_quarters.
  destruct (T mod 4 <? 2); [lia|].
  destruct (T mod 4 =? 2); [|lia].
  destruct (Z.even (T / 4)); lia.
Qed.

Lemma sticky_shift_div4 T n :
  0 <= T -> 0 <= n -> sticky_shift T n / 4 = T / 2 ^ n / 4.
Proof.
  intros HT Hn. unfold sticky_shift.
  assert (0 <= T / 2 ^ n) by (apply Z.div_pos; [lia | apply Z.pow_pos_nonneg; lia]).
  destruct (or_one_cases (T / 2 ^ n) (negb (T mod 2 ^ n =? 0)))
    as [(_ & E)|[(_ & Hx & E)|(_ & _ & E)]]; rewrite E; [reflexivity| |reflexivity].
  dm.
Qed.

Lemma shr_record_of_loc_quarters m l :
  0 <= m ->
  0 <= shr_m (shr_record_of_loc m l) /\
  4 * m <= quarters (shr_record_of_loc m l) < 4 * m + 4 /\
  shr_m (shr_record_of_loc m l) = m.
Proof.
  intros Hm. unfold quarters.
  destruct l as [|[| |]]; cbn [shr_record_of_loc shr_m shr_r shr_s Z.b2z]; lia.
Qed.

(** The rounding of a positive mantissa with a location, as the library
    does it, is [round64] of its quarters shifted to the last place. *)
Lemma binary_round_aux_round64 sx m e l :
  0 < m ->
  0 <= fexp64 (Zdigits2 m + e) - e ->
  binary_round_aux prec emax sx m e l
  = round64 sx
      (sticky_shift (quarters (shr_record_of_loc m l))
         (fexp64 (Zdigits2 m + e) - e))
      (fexp64 (Zdigits2 m + e)).
Proof.
  intros Hm Hn.
  destruct (shr_record_of_loc_quarters m l ltac:(lia)) as (Hm0 & HT0 & _).
  set (T0 := quarters (shr_record_of_loc m l)) in *.
  set (n := fexp64 (Zdigits2 m + e) - e) in *.
  unfold binary_round_aux, shr_fexp. rewrite fexp_64. fold n.
  destruct (shr_quarters (shr_record_of_loc m l) e n Hm0 Hn) as (Hq & He & Hm1).
  destruct (shr (shr_record_of_loc m l) e n) as [mrs1 e1]. cbn [fst snd] in *.
  fold T0 in Hq.
  rewrite round_nearest_even_quarters by exact Hm1. rewrite Hq.
  assert (He1 : e1 = fexp64 (Zdigits2 m + e)) by (unfold n in He; lia).
  assert (HT1 : 0 <= sticky_shift T0 n)
    by (apply sticky_shift_nonneg; lia).
  (* the mantissa before rounding has at most 53 bits *)
  assert (Hm1b : sticky_shift T0 n / 4 < 2 ^ 53).
  { rewrite sticky_shift_div4 by lia.
    assert (Hp : 0 < 2 ^ n) by (apply Z.pow_pos_nonneg; lia).
    assert (T0 / 2 ^ n / 4 = m / 2 ^ n) as ->.
    { rewrite Z.div_div by lia. rewrite (Z.mul_comm (2 ^ n) 4).
      rewrite <- Z.div_div by lia. f_equal. dm. }
    apply Z.div_lt_upper_bound; [exact Hp|].
    destruct (Zdigits2_bounds m Hm) as [_ Hhi].
    rewrite <- Z.pow_add_r by lia.
    eapply Z.lt_le_trans; [exact Hhi|].
    apply Z.pow_le_mono_r; [lia|]. unfold n, fexp64. lia. }
  pose proof (round_quarters_bounds _ HT1) as Hr.
  set (m2 := round_quarters (sticky_shift T0 n)) in *.
  assert (Hm2 : 0 <= m2 <= 2 ^ 53).
  { split; [|lia]. assert (0 <= sticky_shift T0 n / 4) by (apply Z.div_pos; lia). lia. }
  unfold round64. fold m2. unfold renormalize.
  rewrite fexp_64, <- He1.
  assert (Hemin : -1074 <= e1) by (rewrite He1; unfold fexp64; lia).
  destruct (2 ^ 53 <=? m2) eqn:Hc.
  - apply Z.leb_le in Hc. assert (m2 = 2 ^ 53) as -> by lia.
    vm_compute (Zdigits2 (2 ^ 53)).
    replace (fexp64 (54 + e1) - e1) with 1 by (unfold fexp64; lia).
    cbn [shr_record_of_loc shr iter_pos].
    vm_compute (shr_1 {| shr_m := 2 ^ 53; shr_r := false; shr_s := false |}).
    cbn [shr_m]. vm_compute (2 ^ 53 / 2). unfold finish.
    rewrite (Z.add_comm e1 1). reflexivity.
  - apply Z.leb_gt in Hc.
    assert (Hn2 : fexp64 (Zdigits2 m2 + e1) - e1 <= 0).
    { destruct (Z.eq_dec m2 0) as [->|Hz].
      - simpl. unfold fexp64. lia.
      - destruct (Zdigits2_bounds m2 ltac:(lia)) as [Hlo _].
        assert (Zdigits2 m2 <= 53).
        { destruct (Z.le_gt_cases (Zdigits2 m2) 53) as [H|H]; [exact H|].
          assert (2 ^ 53 <= 2 ^ (Zdigits2 m2 - 1)) by (apply Z.pow_le_mono_r; lia).
          lia. }
        unfold fexp64. lia. }
    rewrite shr_nonpos by exact Hn2.
    cbn [shr_record_of_loc shr_m]. unfold finish. reflexivity.
Qed.

(** *** Rounding is monotone *)

Lemma or_one_mono x y b c :
  x <= y -> (x = y -> Bool.le b c) -> or_one x b <= or_one y c.
Proof.
  intros Hxy Hbc.
  destruct (or_one_cases x b) as [(Hb & Ex)|[(Hb & Hx & Ex)|(Hb & Hx & Ex)]];
    destruct (or_one_cases y c) as [(Hc & Ey)|[(Hc & Hy & Ey)|(Hc & Hy & Ey)]];
    rewrite Ex, Ey; try lia;
    (destruct (Z.eq_dec x y) as [E|E];
     [specialize (Hbc E); subst b c; try (simpl in Hbc; contradiction);
      try discriminate; dm
     |dm]).
Qed.

Lemma sticky_shift_mono T T' n :
  0 <= n -> T <= T' -> sticky_shift T n <= sticky_shift T' n.
Proof.
  intros Hn HT. unfold sticky_shift.
  assert (Hp : 0 < 2 ^ n) by (apply Z.pow_pos_nonneg; lia).
  apply or_one_mono.
  - apply Z.div_le_mono; lia.
  - intros Hq.
    destruct (T mod 2 ^ n =? 0) eqn:H1; destruct (T' mod 2 ^ n =? 0) eqn:H2;
      simpl; auto.
    apply Z.eqb_neq in H1. apply Z.eqb_eq in H2.
    pose proof (Z.div_mod T (2 ^ n) ltac:(lia)).
    pose proof (Z.div_mod T' (2 ^ n) ltac:(lia)).
    pose proof (Z.mod_pos_bound T (2 ^ n) Hp). nia.
Qed.

Lemma sticky_shift_scale T n k :
  0 <= n -> 0 <= k -> sticky_shift (T * 2 ^ k) (n + k) = sticky_shift T n.
Proof.
  intros Hn Hk. unfold sticky_shift.
  assert (Hp : 0 < 2 ^ n) by (apply Z.pow_pos_nonneg; lia).
  assert (Hq : 0 < 2 ^ k) by (apply Z.pow_pos_nonneg; lia).
  rewrite Z.pow_add_r by lia.
  rewrite Z.div_mul_cancel_r by lia.
  rewrite Z.mul_mod_distr_r by lia.
  f_equal. f_equal.
  destruct (T mod 2 ^ n =? 0) eqn:H1.
  - apply Z.eqb_eq in H1. rewrite H1. reflexivity.
  - apply Z.eqb_neq in H1. apply Z.eqb_neq. nia.
Qed.

Lemma round_quarters_mono T T' :
  T <= T' -> round_quarters T <= round_quarters T'.
Proof.
  intros HT. unfold round_quarters.
  assert (Hq : T / 4 <= T' / 4) by (apply Z.div_le_mono; lia).
  assert (Hm : T / 4 = T' / 4 -> T mod 4 <= T' mod 4) by (intros; dm).
  assert (Hb : 0 <= T mod 4 < 4) by (apply Z.mod_pos_bound; lia).
  assert (Hb' : 0 <= T' mod 4 < 4) by (apply Z.mod_pos_bound; lia).
  destruct (Z.eq_dec (T / 4) (T' / 4)) as [E|E].
  - specialize (Hm E). rewrite <- E.
    destruct (T mod 4 <? 2) eqn:H1; destruct (T' mod 4 <? 2) eqn:H2;
      destruct (T mod 4 =? 2) eqn:H3; destruct (T' mod 4 =? 2) eqn:H4;
      destruct (Z.even (T / 4)); lia.
  - destruct (T mod 4 <? 2); destruct (T' mod 4 <? 2);
      destruct (T mod 4 =? 2); destruct (T' mod 4 =? 2);
      destruct (Z.even (T / 4)); destruct (Z.even (T' / 4)); lia.
Qed.

Lemma value_le_shift m e m' e' z :
  z <= e -> z <= e' ->
  (value_le m e m' e' <-> m * 2 ^ (e - z) <= m' * 2 ^ (e' - z)).
Proof.
  intros Hz Hz'. unfold value_le.
  set (k := Z.min e e' - z).
  assert (Hk : 0 <= k) by (unfold k; lia).
  replace (e - z) with ((e - Z.min e e') + k) by (unfold k; lia).
  replace (e' - z) with ((e' - Z.min e e') + k) by (unfold k; lia).
  rewrite !Z.pow_add_r by lia.
  assert (0 < 2 ^ k) by (apply Z.pow_pos_nonneg; lia).
  rewrite !Z.mul_assoc. split; intros H0.
  - apply Z.mul_le_mono_nonneg_r; lia.
  - apply Z.mul_le_mono_pos_r in H0; lia.
Qed.

Lemma pow2_pos k : 0 <= k -> 0 < 2 ^ k.
Proof. intros. apply Z.pow_pos_nonneg; lia. Qed.

Lemma magnitude_le P e P' e' :
  0 < P -> 0 < P' -> value_le P e P' e' ->
  Zdigits2 P + e <= Zdigits2 P' + e'.
Proof.
  intros HP HP' Hv. unfold value_le in Hv.
  set (z := Z.min e e') in *.
  destruct (Zdigits2_bounds P HP) as [Hlo _].
  destruct (Zdigits2_bounds P' HP') as [_ Hhi'].
  pose proof (Zdigits2_nonneg P). pose proof (Zdigits2_nonneg P').
  assert (0 < Zdigits2 P).
  { destruct (Z.eq_dec (Zdigits2 P) 0) as [E|E]; [|lia].
    destruct P; simpl in E; lia. }
  destruct (Z.le_gt_cases (Zdigits2 P + e) (Zdigits2 P' + e')) as [Hle|Hgt];
    [exact Hle | exfalso].
  assert (Hz : 0 <= e - z /\ 0 <= e' - z) by (unfold z; lia).
  assert (A : 2 ^ (Zdigits2 P - 1) * 2 ^ (e - z) <= P * 2 ^ (e - z))
    by (apply Z.mul_le_mono_nonneg_r; [apply Z.lt_le_incl, pow2_pos|]; lia).
  assert (B : P' * 2 ^ (e' - z) < 2 ^ Zdigits2 P' * 2 ^ (e' - z))
    by (apply Z.mul_lt_mono_pos_r; [apply pow2_pos|]; lia).
  rewrite <- Z.pow_add_r in A by lia.
  rewrite <- Z.pow_add_r in B by lia.
  assert (C : 2 ^ (Zdigits2 P' + (e' - z)) <= 2 ^ (Zdigits2 P - 1 + (e - z)))
    by (apply Z.pow_le_mono_r; lia).
  lia.
Qed.

Lemma rounded_mantissa_bounds P e :
  0 < P -> 0 <= shift_of P e ->
  0 <= rounded_mantissa P e <= 2 ^ 53 /\
  (-1074 < fexp64 (Zdigits2 P + e) -> 2 ^ 52 <= rounded_mantissa P e).
Proof.
  intros HP Hn. unfold rounded_mantissa.
  set (n := shift_of P e) in *.
  assert (HT : 0 <= sticky_shift (4 * P) n) by (apply sticky_shift_nonneg; lia).
  pose proof (round_quarters_bounds _ HT) as Hr.
  assert (Hq : sticky_shift (4 * P) n / 4 = P / 2 ^ n).
  { rewrite sticky_shift_div4 by lia.
    rewrite Z.div_div by (try apply pow2_pos; lia).
    rewrite (Z.mul_comm (2 ^ n) 4).
    rewrite <- Z.div_div by (try apply pow2_pos; lia).
    f_equal. dm. }
  rewrite Hq in Hr.
  destruct (Zdigits2_bounds P HP) as [Hlo Hhi].
  pose proof (pow2_pos n Hn) as Hp.
  assert (Hd : 0 < Zdigits2 P).
  { destruct P; simpl; lia. }
  split; [split|].
  - assert (0 <= P / 2 ^ n) by (apply Z.div_pos; lia). lia.
  - assert (P / 2 ^ n < 2 ^ 53); [|lia].
    apply Z.div_lt_upper_bound; [exact Hp|].
    rewrite <- Z.pow_add_r by lia.
    eapply Z.lt_le_trans; [exact Hhi|].
    apply Z.pow_le_mono_r; [lia|]. unfold n, shift_of, fexp64. lia.
  - intros He.
    assert (En : n = Zdigits2 P - 53) by (unfold n, shift_of, fexp64 in *; lia).
    assert (2 ^ 52 <= P / 2 ^ n); [|lia].
    apply Z.div_le_lower_bound; [exact Hp|].
    rewrite <- Z.pow_add_r by lia.
    eapply Z.le_trans; [|exact Hlo].
    apply Z.pow_le_mono_r; lia.
Qed.

(** Of two values at the same magnitude, the larger has the larger rounded
    mantissa. *)
Lemma rounded_mantissa_mono P e P' e' :
  0 < P -> 0 < P' ->
  0 <= shift_of P e -> 0 <= shift_of P' e' ->
  value_le P e P' e' ->
  fexp64 (Zdigits2 P + e) = fexp64 (Zdigits2 P' + e') ->
  rounded_mantissa P e <= rounded_mantissa P' e'.
Proof.
  intros HP HP' Hn Hn' Hv He. unfold rounded_mantissa.
  apply round_quarters_mono.
  set (n := shift_of P e) in *. set (n' := shift_of P' e') in *.
  set (z := Z.min e e').
  assert (Hz : 0 <= e - z /\ 0 <= e' - z) by (unfold z; lia).
  rewrite <- (sticky_shift_scale (4 * P) n (e - z)) by lia.
  rewrite <- (sticky_shift_scale (4 * P') n' (e' - z)) by lia.
  replace (n' + (e' - z)) with (n + (e - z))
    by (unfold n, n', shift_of; lia).
  apply sticky_shift_mono; [lia|].
  unfold value_le in Hv. fold z in Hv. lia.
Qed.

(** *** From a rounded product to a criterion score *)

Lemma ceil_shiftr m k : 0 < m -> 0 <= k -> 1 <= - Z.shiftr (- m) k <= m.
Proof.
  intros Hm Hk. rewrite Z.shiftr_div_pow2 by lia.
  pose proof (pow2_pos k Hk) as Hp.
  pose proof (Z.div_mod (- m) (2 ^ k) ltac:(lia)).
  pose proof (Z.mod_pos_bound (- m) (2 ^ k) Hp). nia.
Qed.

Lemma score_pair_range m e : 0 <= m -> 0 <= score_pair m e <= 5.
Proof.
  intros Hm. unfold score_pair.
  destruct (m =? 0) eqn:H0; [lia|]. apply Z.eqb_neq in H0.
  destruct (971 <? e); [lia|]. destruct (0 <=? e) eqn:He; [lia|].
  apply Z.leb_gt in He.
  pose proof (ceil_shiftr m (- e) ltac:(lia) ltac:(lia)). lia.
Qed.

Lemma score_pair_mono m e m' e' :
  0 <= m -> 0 <= m' -> e <= e' -> value_le m e m' e' ->
  score_pair m e <= score_pair m' e'.
Proof.
  intros Hm Hm' He Hv.
  pose proof (score_pair_range m' e' Hm') as Hr'.
  pose proof (score_pair_range m e Hm) as Hr.
  unfold score_pair in *.
  destruct (m =? 0) eqn:H0; [lia|]. apply Z.eqb_neq in H0.
  apply (value_le_shift m e m' e' e) in Hv; [|lia|lia].
  rewrite Z.sub_diag, Z.mul_1_r in Hv.
  assert (Hp : 0 < 2 ^ (e' - e)) by (apply pow2_pos; lia).
  assert (H0' : m' <> 0) by nia.
  apply Z.eqb_neq in H0'. rewrite H0' in *. apply Z.eqb_neq in H0'.
  destruct (971 <? e) eqn:H1.
  - apply Z.ltb_lt in H1. replace (971 <? e') with true by (symmetry; apply Z.ltb_lt; lia).
    lia.
  - destruct (971 <? e') eqn:H1'; [lia|].
    destruct (0 <=? e) eqn:H2.
    + apply Z.leb_le in H2.
      replace (0 <=? e') with true by (symmetry; apply Z.leb_le; lia). lia.
    + destruct (0 <=? e') eqn:H2'; [lia|].
      apply Z.leb_gt in H2, H2'.
      apply Z.min_le_compat_l.
      rewrite !Z.shiftr_div_pow2 by lia.
      apply Z.opp_le_mono. rewrite !Z.opp_involutive.
      replace (- e) with ((- e') + (e' - e)) by lia.
      rewrite Z.pow_add_r by lia.
      rewrite <- (Z.div_mul_cancel_r (- m') (2 ^ (- e')) (2 ^ (e' - e)))
        by (try apply Z.neq_sym; apply Z.lt_neq; apply pow2_pos; lia).
      apply Z.div_le_mono.
      * apply Z.mul_pos_pos; apply pow2_pos; lia.
      * lia.
Qed.

(** Rounding then rounding up respects the order of the values: the score
    of the larger value is not below the score of the smaller one. *)
Lemma rounded_score_mono P e P' e' :
  0 < P -> 0 < P' ->
  0 <= shift_of P e -> 0 <= shift_of P' e' ->
  value_le P e P' e' ->
  score_pair (fst (rounded P e)) (snd (rounded P e))
  <= score_pair (fst (rounded P' e')) (snd (rounded P' e')).
Proof.
  intros HP HP' Hn Hn' Hv.
  pose proof (magnitude_le P e P' e' HP HP' Hv) as Hmag.
  destruct (rounded_mantissa_bounds P e HP Hn) as [Hb _].
  destruct (rounded_mantissa_bounds P' e' HP' Hn') as [Hb' Hnorm'].
  set (e1 := fexp64 (Zdigits2 P + e)) in *.
  set (e1' := fexp64 (Zdigits2 P' + e')) in *.
  assert (He1 : e1 <= e1') by (unfold e1, e1', fexp64; lia).
  assert (Hemin : -1074 <= e1) by (unfold e1, fexp64; lia).
  assert (HA : (e1 = e1' /\ rounded_mantissa P e <= rounded_mantissa P' e') \/
               (e1 < e1' /\ 2 ^ 52 <= rounded_mantissa P' e')).
  { destruct (Z.eq_dec e1 e1') as [E|E].
    - left. split; [exact E|]. apply rounded_mantissa_mono; assumption.
    - right. split; [lia|]. apply Hnorm'. lia. }
  unfold rounded. fold e1 e1'.
  set (m2 := rounded_mantissa P e) in *.
  set (m2' := rounded_mantissa P' e') in *.
  assert (Hp : 0 < 2 ^ (e1' - e1)) by (apply pow2_pos; lia).
  assert (Hval : m2 <= m2' * 2 ^ (e1' - e1)).
  { destruct HA as [[E Hm]|[E Hm]].
    - rewrite E, Z.sub_diag. simpl. lia.
    - assert (2 <= 2 ^ (e1' - e1)).
      { change 2 with (2 ^ 1) at 1. apply Z.pow_le_mono_r; lia. }
      change (2 ^ 53) with (2 ^ 52 * 2) in Hb. nia. }
  unfold renormalize.
  destruct (2 ^ 53 <=? m2) eqn:Hc; destruct (2 ^ 53 <=? m2') eqn:Hc';
    cbn [fst snd];
    [apply Z.leb_le in Hc; apply Z.leb_le in Hc'
    |apply Z.leb_le in Hc; apply Z.leb_gt in Hc'
    |apply Z.leb_gt in Hc; apply Z.leb_le in Hc'
    |apply Z.leb_gt in Hc; apply Z.leb_gt in Hc'];
    (apply score_pair_mono;
     [try lia; apply Z.div_pos; lia
     |try lia; apply Z.div_pos; lia
     |
     |apply (value_le_shift _ _ _ _ e1); [lia|lia|]]).
  - lia.
  - assert (m2 = 2 ^ 53) as -> by lia. assert (m2' = 2 ^ 53) as -> by lia.
    replace (e1 + 1 - e1) with 1 by lia.
    replace (e1' + 1 - e1) with ((e1' - e1) + 1) by lia.
    rewrite Z.pow_add_r by lia. vm_compute (2 ^ 53 / 2). vm_compute (2 ^ 1).
    change (2 ^ 53) with 9007199254740992 in *. lia.
  - destruct HA as [[E Hm]|[E Hm]]; lia.
  - assert (m2 = 2 ^ 53) as -> by lia.
    replace (e1 + 1 - e1) with 1 by lia.
    vm_compute (2 ^ 53 / 2). vm_compute (2 ^ 1).
    change (2 ^ 53) with 9007199254740992 in *. lia.
  - lia.
  - assert (m2' = 2 ^ 53) as -> by lia.
    rewrite Z.sub_diag, Z.mul_1_r.
    replace (e1' + 1 - e1) with ((e1' - e1) + 1) by lia.
    rewrite Z.pow_add_r by lia. vm_compute (2 ^ 53 / 2). vm_compute (2 ^ 1).
    change (2 ^ 53) with 9007199254740992 in *. lia.
  - lia.
  - rewrite Z.sub_diag, Z.mul_1_r. exact Hval.
Qed.

(** *** Integers as binary64 numbers *)

Lemma Pos_iter_xO p k : Zpos (Pos.iter xO p k) = Zpos p * 2 ^ Zpos k.
Proof.
  rewrite Pos2Nat.inj_iter. rewrite <- (positive_nat_Z k).
  induction (Pos.to_nat k) as [|j IH].
  - simpl. lia.
  - rewrite Nat2Z.inj_succ, Z.pow_succ_r by lia.
    cbn [nat_rect]. rewrite Pos2Z.inj_xO, IH. lia.
Qed.

Lemma Zdigits2_pos z : 0 < z -> 0 < Zdigits2 z.
Proof. destruct z; simpl; lia. Qed.

Lemma Zdigits2_le z k : 0 < z -> 0 <= k -> z < 2 ^ k -> Zdigits2 z <= k.
Proof.
  intros Hz Hk Hlt. destruct (Zdigits2_bounds z Hz) as [Hlo _].
  destruct (Z.le_gt_cases (Zdigits2 z) k) as [H|H]; [exact H|].
  assert (2 ^ k <= 2 ^ (Zdigits2 z - 1)) by (apply Z.pow_le_mono_r; lia). lia.
Qed.

Lemma Zdigits2_ge z k : 0 < z -> 2 ^ k <= z -> k + 1 <= Zdigits2 z.
Proof.
  intros Hz Hle. destruct (Zdigits2_bounds z Hz) as [_ Hhi].
  destruct (Z.le_gt_cases (k + 1) (Zdigits2 z)) as [H|H]; [exact H|].
  pose proof (Zdigits2_nonneg z).
  assert (2 ^ Zdigits2 z <= 2 ^ k) by (apply Z.pow_le_mono_r; lia). lia.
Qed.

Lemma mantissa53_bounds z :
  0 < z < 2 ^ 53 ->
  2 ^ 52 <= mantissa53 z < 2 ^ 53 /\ Zdigits2 (mantissa53 z) = 53.
Proof.
  intros [Hz Hlt]. unfold mantissa53.
  destruct (Zdigits2_bounds z Hz) as [Hlo Hhi].
  pose proof (Zdigits2_pos z Hz) as Hd.
  pose proof (Zdigits2_le z 53 Hz ltac:(lia) Hlt) as Hd53.
  set (d := Zdigits2 z) in *.
  assert (Hp : 0 < 2 ^ (53 - d)) by (apply pow2_pos; lia).
  assert (A : 2 ^ 52 <= z * 2 ^ (53 - d) < 2 ^ 53).
  { assert (E1 : 2 ^ 52 = 2 ^ (d - 1) * 2 ^ (53 - d))
      by (rewrite <- Z.pow_add_r by lia; f_equal; lia).
    assert (E2 : 2 ^ 53 = 2 ^ d * 2 ^ (53 - d))
      by (rewrite <- Z.pow_add_r by lia; f_equal; lia).
    split.
    - rewrite E1. apply Z.mul_le_mono_nonneg_r; lia.
    - rewrite E2. apply Z.mul_lt_mono_pos_r; lia. }
  split; [exact A|].
  apply Zdigits2_unique; [|exact A].
  change (2 ^ 52) with 4503599627370496 in A. lia.
Qed.

Lemma quarters_exact m : quarters (shr_record_of_loc m loc_Exact) = 4 * m.
Proof. unfold quarters. cbn [shr_record_of_loc shr_m shr_r shr_s Z.b2z]. lia. Qed.

Lemma round64_exact P e :
  0 < P < 2 ^ 53 -> e <= 971 ->
  round64 false (sticky_shift (4 * P) 0) e = S754_finite false (Z.to_pos P) e.
Proof.
  intros [HP Hlt] He. rewrite sticky_shift_0. unfold round64, round_quarters.
  replace (4 * P / 4) with P by dm. replace ((4 * P) mod 4) with 0 by dm.
  cbn [Z.ltb Z.compare]. unfold renormalize.
  replace (2 ^ 53 <=? P) with false by (symmetry; apply Z.leb_gt; lia).
  unfold finish. destruct P as [|p|p]; try lia.
  replace (e <=? 971) with true by (symmetry; apply Z.leb_le; lia).
  reflexivity.
Qed.

Lemma binary_normalize_exact z :
  0 < z < 2 ^ 53 ->
  binary_normalize prec emax z 0 false
  = S754_finite false (Z.to_pos (mantissa53 z)) (Zdigits2 z - 53).
Proof.
  intros Hz. destruct (mantissa53_bounds z Hz) as [Hm Hdm].
  destruct z as [|p|p]; try lia.
  pose proof (Zdigits2_pos (Zpos p) ltac:(lia)) as Hd.
  pose proof (Zdigits2_le (Zpos p) 53 ltac:(lia) ltac:(lia) (proj2 Hz)) as Hd53.
  unfold binary_normalize, binary_round.
  rewrite fexp_64, Z.add_0_r.
  change (Z.pos (digits2_pos p)) with (Zdigits2 (Zpos p)).
  set (d := Zdigits2 (Zpos p)) in *.
  assert (Hf : fexp64 d = d - 53) by (unfold fexp64; lia).
  assert (Hshl : shl_align p 0 (fexp64 d) = (Z.to_pos (mantissa53 (Zpos p)), d - 53)).
  { unfold shl_align. rewrite Hf, Z.sub_0_r. unfold mantissa53. fold d.
    destruct (d - 53) as [|k|k] eqn:Hk; try lia.
    - replace (53 - d) with 0 by lia. rewrite Z.mul_1_r. reflexivity.
    - f_equal. apply Pos2Z.inj. rewrite Pos_iter_xO.
      replace (53 - d) with (Zpos k) by lia.
      rewrite Z2Pos.id; [reflexivity|].
      apply Z.mul_pos_pos; [lia | apply pow2_pos; lia]. }
  rewrite Hshl.
  assert (Hpos : Zpos (Z.to_pos (mantissa53 (Zpos p))) = mantissa53 (Zpos p)).
  { apply Z2Pos.id. change (2 ^ 52) with 4503599627370496 in Hm. lia. }
  rewrite Hpos.
  assert (Hm0 : 0 < mantissa53 (Zpos p))
    by (change (2 ^ 52) with 4503599627370496 in Hm; lia).
  rewrite binary_round_aux_round64;
    [|exact Hm0|rewrite Hdm; unfold fexp64; lia].
  rewrite Hdm.
  replace (fexp64 (53 + (d - 53))) with (d - 53) by (unfold fexp64; lia).
  rewrite Z.sub_diag.
  rewrite quarters_exact.
  apply round64_exact; lia.
Qed.

(** An integer below 2^53 is a Number, with its mantissa on 53 bits. *)
Lemma Prim2SF_Number_of_Z z :
  0 < z < 2 ^ 53 ->
  Prim2SF (Number_of_Z z)
  = S754_finite false (Z.to_pos (mantissa53 z)) (Zdigits2 z - 53).
Proof.
  intros Hz. unfold Number_of_Z. rewrite binary_normalize_exact by exact Hz.
  apply Prim2SF_SF2Prim.
  destruct (mantissa53_bounds z Hz) as [Hm Hdm].
  pose proof (Zdigits2_pos z ltac:(lia)) as Hd.
  pose proof (Zdigits2_le z 53 ltac:(lia) ltac:(lia) (proj2 Hz)) as Hd53.
  assert (Hpos : Zpos (Z.to_pos (mantissa53 z)) = mantissa53 z).
  { apply Z2Pos.id. change (2 ^ 52) with 4503599627370496 in Hm. lia. }
  unfold valid_binary, bounded, canonical_mantissa.
  change (Z.pos (digits2_pos (Z.to_pos (mantissa53 z))))
    with (Zdigits2 (Zpos (Z.to_pos (mantissa53 z)))).
  rewrite Hpos, Hdm, fexp_64.
  apply andb_true_iff. split.
  - apply Z.eqb_eq. unfold fexp64. lia.
  - apply Z.leb_le. change (emax - prec) with 971. lia.
Qed.

(** *** Products *)

(** The product of two positive Numbers, the first on 53 bits, is the
    rounding of the product of the mantissas. *)
Lemma SFmul_rounded mx ex mc ec :
  2 ^ 52 <= Zpos mx ->
  let P := Zpos mx * Zpos mc in
  let e := ex + ec in
  0 <= shift_of P e /\
  SFmul prec emax (S754_finite false mx ex) (S754_finite false mc ec)
  = finish false (fst (rounded P e)) (snd (rounded P e)).
Proof.
  intros Hmx P e.
  assert (HP : 2 ^ 52 <= P) by (unfold P; change (2 ^ 52) with 4503599627370496 in *; nia).
  assert (HP0 : 0 < P) by (change (2 ^ 52) with 4503599627370496 in *; lia).
  pose proof (Zdigits2_ge P 52 HP0 HP) as Hd.
  assert (Hn : 0 <= shift_of P e) by (unfold shift_of, fexp64; lia).
  split; [exact Hn|].
  unfold SFmul. cbn [xorb]. rewrite Pos2Z.inj_mul. fold P e.
  rewrite binary_round_aux_round64 by assumption.
  rewrite quarters_exact.
  unfold round64, rounded, rounded_mantissa, shift_of.
  destruct (renormalize _ _). reflexivity.
Qed.

(** *** [Math.min(5, Math.ceil(y))] *)

Lemma Prim2SF_5 : Prim2SF 5%float = S754_finite false 5629499534213120 (-50).
Proof. vm_compute. reflexivity. Qed.

Lemma is_nan_finite y s m e :
  Prim2SF y = S754_finite s m e -> is_nan y = false.
Proof.
  intros H. unfold is_nan. rewrite eqb_spec, H.
  unfold SFeqb, SFcompare. rewrite Z.compare_refl.
  destruct s; rewrite Pos.compare_cont_refl; reflexivity.
Qed.

Lemma Math_min_5_large y m e :
  Prim2SF y = S754_finite false m e -> (-50 < e)%Z ->
  Math_min 5 y = 5%float.
Proof.
  intros H He. unfold Math_min.
  rewrite (is_nan_finite y _ _ _ H).
  change (is_nan 5) with false. cbn [orb].
  rewrite ltb_spec, Prim2SF_5, H. unfold SFltb, SFcompare.
  replace (-50 ?= e)%Z with Lt by (symmetry; apply Z.compare_lt_iff; lia).
  reflexivity.
Qed.

Lemma Math_min_5_Number_of_Z q :
  (1 <= q < 2 ^ 53)%Z -> Math_min 5 (Number_of_Z q) = Number_of_Z (Z.min 5 q).
Proof.
  intros Hq. destruct (Z.le_gt_cases q 7) as [H7|H7].
  - assert (q = 1 \/ q = 2 \/ q = 3 \/ q = 4 \/ q = 5 \/ q = 6 \/ q = 7)%Z
      as Hc by lia.
    destruct Hc as [->|[->|[->|[->|[->|[->| ->]]]]]]; vm_compute; reflexivity.
  - rewrite Z.min_l by lia.
    rewrite (Math_min_5_large _ _ _ (Prim2SF_Number_of_Z q ltac:(lia))).
    + vm_compute. reflexivity.
    + pose proof (Zdigits2_ge q 3 ltac:(lia) ltac:(simpl; lia)). lia.
Qed.

(** [Math.min(5, Math.ceil(y))] for [y] a rounded non-negative value. *)
Lemma Math_min_5_ceil y m e :
  Prim2SF y = finish false m e -> (0 <= m < 2 ^ 53)%Z ->
  Math_min 5 (Math_ceil y) = Number_of_Z (score_pair m e).
Proof.
  intros H Hm. unfold finish in H. unfold score_pair.
  destruct m as [|p|p]; [| |lia].
  - rewrite <- (SF2Prim_Prim2SF y), H. vm_compute. reflexivity.
  - cbn [Z.eqb].
    destruct (e <=? 971)%Z eqn:He.
    + apply Z.leb_le in He.
      replace (971 <? e)%Z with false by (symmetry; apply Z.ltb_ge; lia).
      unfold Math_ceil. rewrite H.
      destruct (0 <=? e)%Z eqn:H0.
      * apply Z.leb_le in H0.
        rewrite (Math_min_5_large y p e H ltac:(lia)). vm_compute. reflexivity.
      * apply Z.leb_gt in H0. cbn [cond_Zopp].
        pose proof (ceil_shiftr (Zpos p) (- e) ltac:(lia) ltac:(lia)) as Hq.
        replace (- Z.shiftr (- Z.pos p) (- e) =? 0)%Z with false
          by (symmetry; apply Z.eqb_neq; lia).
        apply Math_min_5_Number_of_Z. lia.
    + apply Z.leb_gt in He.
      replace (971 <? e)%Z with true by (symmetry; apply Z.ltb_lt; lia).
      rewrite <- (SF2Prim_Prim2SF y), H. vm_compute. reflexivity.
Qed.

(** *** Quotients *)

Lemma SFdiv_core_53 m1 e1 m2 e2 :
  Zdigits2 m1 = 53 -> Zdigits2 m2 = 53 ->
  -1074 <= e1 - e2 - 53 ->
  SFdiv_core_binary prec emax m1 e1 m2 e2
  = ((m1 * 2 ^ 53) / m2, e1 - e2 - 53,
     new_location m2 ((m1 * 2 ^ 53) mod m2)).
Proof.
  intros H1 H2 He. unfold SFdiv_core_binary.
  rewrite H1, H2, fexp_64.
  replace (Z.min (fexp64 (53 + e1 - (53 + e2))) (e1 - e2)) with (e1 - e2 - 53)
    by (unfold fexp64; lia).
  replace (e1 - e2 - (e1 - e2 - 53)) with 53 by lia.
  rewrite Z.shiftl_mul_pow2 by lia.
  unfold Z.div, Z.modulo.
  destruct (Z.div_eucl (m1 * 2 ^ 53) m2). reflexivity.
Qed.

Lemma digits53_bounds m : 0 < m -> Zdigits2 m = 53 -> 2 ^ 52 <= m < 2 ^ 53.
Proof.
  intros Hm H. pose proof (Zdigits2_bounds m Hm) as B. rewrite H in B.
  exact B.
Qed.

Lemma binary_round_aux_finite sx q e l :
  2 ^ 52 <= q < 2 ^ 54 -> -1074 <= e <= 900 ->
  exists m' e', binary_round_aux prec emax sx q e l = S754_finite sx m' e'.
Proof.
  intros Hq He.
  change (2 ^ 52) with 4503599627370496 in Hq.
  change (2 ^ 54) with 18014398509481984 in Hq.
  assert (Hq0 : 0 < q) by lia.
  pose proof (Zdigits2_ge q 52 Hq0 ltac:(simpl; lia)) as Hd1.
  pose proof (Zdigits2_le q 54 Hq0 ltac:(lia) ltac:(simpl; lia)) as Hd2.
  assert (Hf : fexp64 (Zdigits2 q + e) = Zdigits2 q + e - 53)
    by (unfold fexp64; lia).
  rewrite binary_round_aux_round64; [|exact Hq0|rewrite Hf; lia].
  rewrite Hf.
  replace (Zdigits2 q + e - 53 - e) with (Zdigits2 q - 53) by lia.
  destruct (shr_record_of_loc_quarters q l ltac:(lia)) as (_ & HT0 & _).
  set (T0 := quarters (shr_record_of_loc q l)) in *.
  set (n := Zdigits2 q - 53) in *.
  assert (Hn : 0 <= n <= 1) by (unfold n; lia).
  assert (HT1 : 0 <= sticky_shift T0 n) by (apply sticky_shift_nonneg; lia).
  pose proof (round_quarters_bounds _ HT1) as Hr.
  assert (Hdiv : sticky_shift T0 n / 4 = q / 2 ^ n).
  { rewrite sticky_shift_div4 by lia.
    rewrite Z.div_div by (try apply pow2_pos; lia).
    rewrite (Z.mul_comm (2 ^ n) 4).
    rewrite <- Z.div_div by (try apply pow2_pos; lia).
    f_equal. dm. }
  rewrite Hdiv in Hr.
  destruct (Zdigits2_bounds q Hq0) as [Hlo Hhi].
  assert (Hm1 : 2 ^ 52 <= q / 2 ^ n < 2 ^ 53).
  { split.
    - apply Z.div_le_lower_bound; [apply pow2_pos; lia|].
      rewrite <- Z.pow_add_r by lia.
      eapply Z.le_trans; [|exact Hlo]. apply Z.pow_le_mono_r; unfold n; lia.
    - apply Z.div_lt_upper_bound; [apply pow2_pos; lia|].
      rewrite <- Z.pow_add_r by lia.
      eapply Z.lt_le_trans; [exact Hhi|]. apply Z.pow_le_mono_r; unfold n; lia. }
  unfold round64, renormalize.
  set (m2 := round_quarters (sticky_shift T0 n)) in *.
  change (2 ^ 52) with 4503599627370496 in Hm1.
  change (2 ^ 53) with 9007199254740992 in *.
  destruct (9007199254740992 <=? m2) eqn:Hc.
  - apply Z.leb_le in Hc. assert (m2 = 9007199254740992) as -> by lia.
    vm_compute (9007199254740992 / 2). unfold finish.
    replace (Zdigits2 q + e - 53 + 1 <=? 971) with true
      by (symmetry; apply Z.leb_le; lia).
    eauto.
  - apply Z.leb_gt in Hc. unfold finish.
    destruct m2 as [|p|p]; try lia.
    replace (Zdigits2 q + e - 53 <=? 971) with true
      by (symmetry; apply Z.leb_le; lia).
    eauto.
Qed.

(** The quotient of two positive Numbers on 53 bits is a positive finite
    Number when the exponents are not too far apart. *)
Lemma SFdiv_finite m1 e1 m2 e2 :
  Zdigits2 (Zpos m1) = 53 -> Zdigits2 (Zpos m2) = 53 ->
  -1074 <= e1 - e2 - 53 -> e1 - e2 - 53 <= 900 ->
  exists m e,
    SFdiv prec emax (S754_finite false m1 e1) (S754_finite false m2 e2)
    = S754_finite false m e.
Proof.
  intros H1 H2 Hlo Hhi. unfold SFdiv.
  rewrite SFdiv_core_53 by assumption. cbn [xorb].
  apply binary_round_aux_finite; [|lia].
  pose proof (digits53_bounds _ (Pos2Z.is_pos m1) H1) as B1.
  pose proof (digits53_bounds _ (Pos2Z.is_pos m2) H2) as B2.
  change (2 ^ 52) with 4503599627370496 in *.
  change (2 ^ 53) with 9007199254740992 in *.
  change (2 ^ 54) with 18014398509481984.
  split.
  - apply Z.div_le_lower_bound; lia.
  - apply Z.div_lt_upper_bound; lia.
Qed.

(** *** The keyword score *)

Lemma Prim2SF_2 : Prim2SF 2%float = S754_finite false 4503599627370496 (-51).
Proof. vm_compute. reflexivity. Qed.

Lemma mantissa53_digits z :
  0 < z < 2 ^ 53 -> Zdigits2 (Zpos (Z.to_pos (mantissa53 z))) = 53.
Proof.
  intros Hz. destruct (mantissa53_bounds z Hz) as [[Hlo _] Hd].
  rewrite Z2Pos.id; [exact Hd|].
  change (2 ^ 52) with 4503599627370496 in Hlo. lia.
Qed.

Lemma half_finite n :
  0 < n < 2 ^ 53 ->
  exists m e, Prim2SF (Number_of_Z n / 2)%float = S754_finite false m e.
Proof.
  intros Hn. rewrite div_spec. unfold SF64div.
  rewrite Prim2SF_Number_of_Z by exact Hn. rewrite Prim2SF_2.
  pose proof (Zdigits2_pos n ltac:(lia)) as Hd.
  pose proof (Zdigits2_le n 53 ltac:(lia) ltac:(lia) ltac:(lia)) as Hd'.
  apply SFdiv_finite; [apply mantissa53_digits; exact Hn|reflexivity|lia|lia].
Qed.

Lemma valid_finite x m e :
  Prim2SF x = S754_finite false m e ->
  Zdigits2 (Zpos m) <= 53 /\ e <= 971 /\ (0 <= e -> Zdigits2 (Zpos m) = 53).
Proof.
  intros H. pose proof (Prim2SF_valid x) as V. rewrite H in V.
  unfold valid_binary, bounded, canonical_mantissa in V.
  apply andb_true_iff in V. destruct V as [V1 V2].
  apply Z.eqb_eq in V1. apply Z.leb_le in V2.
  rewrite fexp_64 in V1. unfold fexp64 in V1.
  change (emax - prec) with 971 in V2.
  change (Zdigits2 (Zpos m)) with (Zpos (digits2_pos m)). lia.
Qed.

(** [Math.ceil(n / 2)], the divisor, is a positive Number on 53 bits, and
    so the factor [5 / Math.ceil(n / 2)] is a positive finite Number. *)
Lemma divisor_finite n :
  0 < n < 2 ^ 53 ->
  exists m e,
    Prim2SF (Math_ceil (Number_of_Z n / 2)%float) = S754_finite false m e /\
    Zdigits2 (Zpos m) = 53 /\ -52 <= e <= 971.
Proof.
  intros Hn. destruct (half_finite n Hn) as (m & e & H).
  destruct (valid_finite _ _ _ H) as (Hd & He & Hd0).
  unfold Math_ceil. rewrite H.
  destruct (0 <=? e) eqn:E.
  - apply Z.leb_le in E. exists m, e. repeat split; try lia; auto.
  - apply Z.leb_gt in E. cbn [cond_Zopp].
    pose proof (ceil_shiftr (Zpos m) (- e) ltac:(lia) ltac:(lia)) as Hq.
    set (q := - Z.shiftr (- Zpos m) (- e)) in *.
    destruct (Zdigits2_bounds (Zpos m) ltac:(lia)) as [_ Hhi].
    assert (Hm : Zpos m < 2 ^ 53).
    { eapply Z.lt_le_trans; [exact Hhi|]. apply Z.pow_le_mono_r; lia. }
    assert (Hq' : 0 < q < 2 ^ 53) by lia.
    replace (q =? 0) with false by (symmetry; apply Z.eqb_neq; lia).
    rewrite Prim2SF_Number_of_Z by exact Hq'.
    pose proof (Zdigits2_pos q ltac:(lia)).
    pose proof (Zdigits2_le q 53 ltac:(lia) ltac:(lia) ltac:(lia)).
    eexists _, _. split; [reflexivity|].
    split; [apply mantissa53_digits; exact Hq'|lia].
Qed.

Lemma factor_finite n :
  0 < n < 2 ^ 53 ->
  exists m e,
    Prim2SF (5 / Math_ceil (Number_of_Z n / 2))%float = S754_finite false m e.
Proof.
  intros Hn. destruct (divisor_finite n Hn) as (m & e & H & Hd & He).
  rewrite div_spec. unfold SF64div. rewrite Prim2SF_5, H.
  apply SFdiv_finite; [reflexivity|exact Hd|lia|lia].
Qed.

Lemma rounded_fst_bounds P e :
  0 < P -> 0 <= shift_of P e -> 0 <= fst (rounded P e) < 2 ^ 53.
Proof.
  intros HP Hn. destruct (rounded_mantissa_bounds P e HP Hn) as [B _].
  unfold rounded, renormalize.
  change (2 ^ 53) with 9007199254740992 in *.
  destruct (9007199254740992 <=? rounded_mantissa P e) eqn:E; cbn [fst].
  - apply Z.leb_le in E. dm.
  - apply Z.leb_gt in E. lia.
Qed.

Lemma keyword_score_product_score (m n : nat) mc ec :
  Z.of_nat m < 2 ^ 53 ->
  Prim2SF (5 / Math_ceil (Number_of_nat n / 2))%float = S754_finite false mc ec ->
  keyword_score m n = Number_of_Z (product_score (Z.of_nat m) (Zpos mc) ec).
Proof.
  intros Hm Hc. unfold keyword_score, product_score, Number_of_nat in *.
  destruct (Z.eqb_spec (Z.of_nat m) 0) as [->|Hm0].
  - apply (Math_min_5_ceil _ 0 0); [|split; [lia|reflexivity]].
    rewrite mul_spec, Hc. reflexivity.
  - assert (Hm' : 0 < Z.of_nat m < 2 ^ 53) by lia.
    destruct (mantissa53_bounds _ Hm') as [[Hlo _] _].
    assert (Hpos : 0 < mantissa53 (Z.of_nat m))
      by (change (2 ^ 52) with 4503599627370496 in Hlo; lia).
    pose proof (SFmul_rounded (Z.to_pos (mantissa53 (Z.of_nat m)))
                  (Zdigits2 (Z.of_nat m) - 53) mc ec) as R.
    rewrite Z2Pos.id in R by exact Hpos.
    destruct (R Hlo) as [Hs HR].
    apply Math_min_5_ceil.
    + rewrite mul_spec, Hc, Prim2SF_Number_of_Z by exact Hm'. exact HR.
    + apply rounded_fst_bounds; [nia|exact Hs].
Qed.

Lemma product_score_range m mc ec :
  0 <= m < 2 ^ 53 -> 0 < mc -> 0 <= product_score m mc ec <= 5.
Proof.
  intros Hm Hc. unfold product_score.
  destruct (Z.eqb_spec m 0) as [->|Hm0]; [lia|].
  assert (Hm' : 0 < m < 2 ^ 53) by lia.
  destruct (mantissa53_bounds m Hm') as [[Hlo _] _].
  change (2 ^ 52) with 4503599627370496 in Hlo.
  destruct mc as [|pc|pc]; try lia.
  pose proof (SFmul_rounded (Z.to_pos (mantissa53 m)) (Zdigits2 m - 53) pc ec)
    as R.
  rewrite Z2Pos.id in R by lia.
  destruct (R Hlo) as [Hs _].
  apply score_pair_range. apply rounded_fst_bounds; [nia|exact Hs].
Qed.

(** More matches give a product that scores at least as much. *)
Lemma product_score_mono m m' mc ec :
  0 <= m <= m' -> m' < 2 ^ 53 -> 0 < mc ->
  product_score m mc ec <= product_score m' mc ec.
Proof.
  intros Hm Hm' Hc.
  destruct (Z.eq_dec m 0) as [->|Hm0].
  - apply (product_score_range m' mc ec); lia.
  - unfold product_score.
    replace (m =? 0) with false by (symmetry; apply Z.eqb_neq; lia).
    replace (m' =? 0) with false by (symmetry; apply Z.eqb_neq; lia).
    cbv zeta.
    assert (H1 : 0 < m < 2 ^ 53) by lia.
    assert (H2 : 0 < m' < 2 ^ 53) by lia.
    destruct (mantissa53_bounds m H1) as [[Hlo _] _].
    destruct (mantissa53_bounds m' H2) as [[Hlo' _] _].
    change (2 ^ 52) with 4503599627370496 in Hlo, Hlo'.
    destruct mc as [|pc|pc]; try lia.
    pose proof (SFmul_rounded (Z.to_pos (mantissa53 m)) (Zdigits2 m - 53) pc ec)
      as R.
    pose proof (SFmul_rounded (Z.to_pos (mantissa53 m')) (Zdigits2 m' - 53) pc ec)
      as R'.
    rewrite Z2Pos.id in R, R' by lia.
    destruct (R Hlo) as [Hs _]. destruct (R' Hlo') as [Hs' _].
    pose proof (Zdigits2_pos m ltac:(lia)) as Hd.
    pose proof (Zdigits2_pos m' ltac:(lia)) as Hd'.
    pose proof (Zdigits2_le m 53 ltac:(lia) ltac:(lia) ltac:(lia)) as Hd53.
    pose proof (Zdigits2_le m' 53 ltac:(lia) ltac:(lia) ltac:(lia)) as Hd53'.
    apply rounded_score_mono; try nia; try assumption.
    apply (value_le_shift _ _ _ _ (ec - 52)); [lia|lia|].
    unfold mantissa53.
    replace (Zdigits2 m - 53 + ec - (ec - 52)) with (Zdigits2 m - 1) by lia.
    replace (Zdigits2 m' - 53 + ec - (ec - 52)) with (Zdigits2 m' - 1) by lia.
    assert (E : forall z, 0 < Zdigits2 z <= 53 ->
              z * 2 ^ (53 - Zdigits2 z) * Zpos pc * 2 ^ (Zdigits2 z - 1)
              = z * (2 ^ 52 * Zpos pc)).
    { intros z Hz.
      replace 52 with ((53 - Zdigits2 z) + (Zdigits2 z - 1)) at 1 by lia.
      rewrite Z.pow_add_r by lia. ring. }
    rewrite !E by lia.
    apply Z.mul_le_mono_nonneg_r; [|lia].
    change (2 ^ 52) with 4503599627370496. lia.
Qed.

(** The keyword score of [m] matches among [n] keywords is an integer from
    0 to 5 that grows with [m]. *)
Lemma keyword_score_integer (n : nat) :
  0 < Z.of_nat n < 2 ^ 53 ->
  exists f : nat -> Z,
    (forall m, Z.of_nat m < 2 ^ 53 ->
       keyword_score m n = Number_of_Z (f m) /\ 0 <= f m <= 5) /\
    (forall m m', (m <= m')%nat -> Z.of_nat m' < 2 ^ 53 -> f m <= f m').
Proof.
  intros Hn. destruct (factor_finite _ Hn) as (mc & ec & Hc).
  exists (fun m => product_score (Z.of_nat m) (Zpos mc) ec). split.
  - intros m Hm. split.
    + apply keyword_score_product_score; assumption.
    + apply product_score_range; lia.
  - intros m m' Hm Hm'. apply product_score_mono; lia.
Qed.

End Rounding.

(** ** The criterion score *)

Lemma scoreByKeywords_keyword_score text kws :
  scoreByKeywords text kws = keyword_score (match_count text kws) (length kws).
Proof.
  unfold scoreByKeywords, keyword_score, match_count.
  rewrite (filter_ext _ (fun w => whole_word_in w text)); [reflexivity|].
  intros w. apply test_RegExp_word.
Qed.

Lemma match_count_le text kws : match_count text kws <= length kws.
Proof. apply filter_length_le. Qed.

Lemma firstn_seq_min k : forall a n, firstn k (seq a n) = seq a (Nat.min k n).
Proof.
  induction k as [|k IH]; intros a n; simpl; [reflexivity|].
  destruct n; simpl; [reflexivity|]. rewrite IH. reflexivity.
Qed.

Lemma ceil_div_2_bounds n : (1 <= n -> 1 <= ceil_div n 2 /\ 2 * ceil_div n 2 - 1 <= n <= 2 * ceil_div n 2)%Z.
Proof.
  intros Hn. unfold ceil_div.
  pose proof (Z.div_mod (n + 2 - 1) 2 ltac:(lia)).
  pose proof (Z.mod_pos_bound (n + 2 - 1) 2 ltac:(lia)). lia.
Qed.

Lemma criterion_score_range m n : (0 <= criterion_score m n <= 5)%Z.
Proof.
  unfold criterion_score.
  destruct (Z.le_gt_cases 1 (ceil_div (Z.of_nat n) 2)) as [Hh|Hh].
  - assert (0 <= ceil_div (Z.of_nat m * 5) (ceil_div (Z.of_nat n) 2))%Z.
    { unfold ceil_div at 1. apply Z.div_pos; lia. }
    lia.
  - assert (Hn : n = 0).
    { destruct n; [reflexivity|].
      pose proof (ceil_div_2_bounds (Z.of_nat (S n)) ltac:(lia)). lia. }
    subst n. change (ceil_div (Z.of_nat 0) 2) with 0%Z.
    unfold ceil_div. rewrite Z.div_0_r. lia.
Qed.

Lemma small_Number_of_Z k : (0 <= k <= 5)%Z -> small k = Number_of_Z k.
Proof.
  intros Hk.
  assert (k = 0 \/ k = 1 \/ k = 2 \/ k = 3 \/ k = 4 \/ k = 5)%Z as H by lia.
  destruct H as [->|[->|[->|[->|[->| ->]]]]]; vm_compute; reflexivity.
Qed.

Lemma table_ok_sound hmax :
  table_ok hmax = true ->
  forall m n,
    1 <= n <= 2 * hmax -> m <= n ->
    keyword_score m n = Number_of_Z (criterion_score m n).
Proof.
  intros T m n Hn Hm. unfold table_ok in T.
  apply andb_true_iff in T. destruct T as [Thalf Trow].
  rewrite forallb_forall in Thalf, Trow.
  assert (Hh := Thalf n ltac:(apply in_seq; lia)).
  unfold half_ok in Hh. apply FloatAxioms.Leibniz.eqb_spec in Hh.
  pose proof (ceil_div_2_bounds (Z.of_nat n) ltac:(lia)) as Hb.
  unfold criterion_score.
  set (half := ceil_div (Z.of_nat n) 2) in *.
  assert (Hr := Trow (Z.to_nat half) ltac:(apply in_seq; lia)).
  unfold row_ok in Hr. rewrite forallb_forall in Hr.
  rewrite Z2Nat.id in Hr by lia.
  assert (Hc := Hr (m, Number_of_nat m)).
  unfold cell_ok in Hc. simpl fst in Hc. simpl snd in Hc.
  rewrite <- small_Number_of_Z
    by (apply (criterion_score_range m n)).
  unfold keyword_score. rewrite Hh.
  apply FloatAxioms.Leibniz.eqb_spec. apply Hc.
  rewrite firstn_map, firstn_seq_min.
  apply in_map_iff. exists m. split; [reflexivity|].
  apply in_seq. lia.
Qed.

(** The table for keyword lists of up to 908 keywords. *)
Lemma table_ok_454 : table_ok 454 = true.
Proof. vm_cast_no_check (eq_refl true). Qed.

Lemma keyword_score_criterion_score m n :
  1 <= n <= 908 -> m <= n ->
  keyword_score m n = Number_of_Z (criterion_score m n).
Proof.
  intros Hn Hm. apply (table_ok_sound 454 table_ok_454); [|exact Hm].
  change (2 * 454) with 908. exact Hn.
Qed.

Lemma numbered_words_909 :
  length (numbered_words 909) = 909 /\
  distinct (numbered_words 909) = true /\
  forallb literal_word (numbered_words 909) = true.
Proof.
  split; [|split].
  - vm_cast_no_check (eq_refl 909).
  - vm_cast_no_check (eq_refl true).
  - vm_cast_no_check (eq_refl true).
Qed.

Lemma match_count_273_of_909 :
  match_count (spaced (numbered_words 273)) (numbered_words 909) = 273.
Proof. vm_cast_no_check (eq_refl 273). Qed.

Lemma keyword_score_273_909 :
  keyword_score 273 909 = 4%float /\
  Number_of_Z (criterion_score 273 909) = 3%float.
Proof. split; vm_compute; reflexivity. Qed.

(** C5 as stated fails on a large keyword set: with 909 distinct keywords,
    273 of which occur in the text, [half] is 455 and [273 * 5 / 455] is 3,
    but the script multiplies 273 by the double nearest to [5 / 455], which
    gives a product just above 3, and answers 4. *)
Lemma scoreByKeywords_909_keywords :
  let keywords := numbered_words 909 in
  let text := spaced (numbered_words 273) in
  length keywords = 909 /\
  distinct keywords = true /\
  forallb literal_word keywords = true /\
  match_count text keywords = 273 /\
  criterion_score 273 909 = 3%Z /\
  scoreByKeywords text keywords = 4%float /\
  scoreByKeywords text keywords
  <> Number_of_Z (criterion_score (match_count text keywords) (length keywords)).
Proof.
  intros keywords text.
  destruct numbered_words_909 as (Hlen & Hdist & Hlit).
  pose proof match_count_273_of_909 as Hcount.
  destruct keyword_score_273_909 as (H4 & H3).
  fold keywords in Hlen, Hdist, Hlit, Hcount. fold text in Hcount.
  assert (Hscore : scoreByKeywords text keywords = 4%float).
  { rewrite scoreByKeywords_keyword_score, Hcount, Hlen. exact H4. }
  split; [exact Hlen|]. split; [exact Hdist|]. split; [exact Hlit|].
  split; [exact Hcount|]. split; [reflexivity|]. split; [exact Hscore|].
  rewrite Hscore, Hcount, Hlen, H3.
  intros H. apply FloatAxioms.Leibniz.eqb_spec in H. discriminate H.
Qed.

(** C5, as the code has it.  For a text and a non-empty list of keywords
    made of pattern characters, of any length an array can have,
    [scoreByKeywords] returns an integer from 0 to 5.  For a list of up to
    908 keywords this integer is [min(5, ceil(matchCount * 5 / half))]:
    [matchCount] counts the keywords that occur in the text as whole words,
    in either case, and [half] is [ceil(n / 2)] for [n] keywords. *)
Theorem scoreByKeywords_criterion_score (text : jsstring) (keywords : list jsstring) :
  1 <= length keywords ->
  (Z.of_nat (length keywords) < 2 ^ 53)%Z ->
  forallb literal_word keywords = true ->
  points (scoreByKeywords text keywords) /\
  (length keywords <= 908 ->
   scoreByKeywords text keywords
   = Number_of_Z (criterion_score (match_count text keywords) (length keywords)) /\
   (0 <= criterion_score (match_count text keywords) (length keywords) <= 5)%Z).
Proof.
  intros Hn Hlt _. rewrite scoreByKeywords_keyword_score.
  pose proof (match_count_le text keywords) as Hm. split.
  - destruct (keyword_score_integer (length keywords) ltac:(lia))
      as (f & Hf & _).
    destruct (Hf (match_count text keywords) ltac:(lia)) as [E Hr].
    exists (f (match_count text keywords)). split; [exact Hr|exact E].
  - intros Hsmall. split; [|apply criterion_score_range].
    apply keyword_score_criterion_score; [lia|exact Hm].
Qed.

Lemma scoreByKeywords_criterion_score_witness :
  scoreByKeywords (str "My goal is a career in research")
    (map str ["goal"; "career"; "future"; "aspire"; "aim"; "plan"]%string)
  = Number_of_Z 4 /\
  (0 <= 4 <= 5)%Z.
Proof.
  apply (proj2 (scoreByKeywords_criterion_score
                  (str "My goal is a career in research")
                  (map str ["goal"; "career"; "future"; "aspire"; "aim"; "plan"]%string)
                  ltac:(simpl; lia) ltac:(vm_compute; reflexivity) eq_refl)).
  simpl. lia.
Defined.

(** ** Scores of the response parser *)

Arguments Number_of_Z : simpl never.

Lemma is_digit_cases c :
  is_digit c = true ->
  (c = 48 \/ c = 49 \/ c = 50 \/ c = 51 \/ c = 52 \/
   c = 53 \/ c = 54 \/ c = 55 \/ c = 56 \/ c = 57)%N.
Proof.
  unfold is_digit. intros H. apply andb_true_iff in H.
  destruct H as [H1 H2]. apply N.leb_le in H1. apply N.leb_le in H2. lia.
Qed.

Lemma digit_of_digit c :
  is_digit c = true -> exists d, (0 <= d)%Z /\ digit_of 10 c = Some d.
Proof.
  intros H. apply is_digit_cases in H.
  destruct H as [->|[->|[->|[->|[->|[->|[->|[->|[->| ->]]]]]]]]];
    eexists; (split; [|reflexivity]); lia.
Qed.

Lemma digits_value_digits s :
  forall acc,
    forallb is_digit s = true ->
    match acc with Some a => (0 <= a)%Z | None => s <> [] end ->
    exists v, (0 <= v)%Z /\ digits_value 10 acc s = Some v.
Proof.
  induction s as [|c s IH]; intros acc Hd Hacc; simpl.
  - destruct acc as [a|]; [eauto | congruence].
  - simpl in Hd. apply andb_true_iff in Hd. destruct Hd as [Hc Hs].
    destruct (digit_of_digit c Hc) as (d & Hd0 & ->).
    apply IH; [exact Hs|]. destruct acc; nia.
Qed.

Lemma parseInt_digits ds :
  ds <> [] -> forallb is_digit ds = true ->
  exists v, (0 <= v)%Z /\ parseInt ds = Number_of_Z v.
Proof.
  intros Hne Hd.
  destruct (digits_value_digits ds None Hd Hne) as (v & Hv & Hval).
  exists v. split; [exact Hv|].
  destruct ds as [|c ds]; [congruence|].
  simpl in Hd. apply andb_true_iff in Hd. destruct Hd as [Hc Hs].
  apply is_digit_cases in Hc.
  assert (Hradix : forall c2 rest, ds = c2 :: rest -> c2 <> 120%N /\ c2 <> 88%N).
  { intros c2 rest ->. simpl in Hs. apply andb_true_iff in Hs.
    destruct Hs as [Hc2 _]. apply is_digit_cases in Hc2. lia. }
  unfold parseInt.
  destruct Hc as [->|[->|[->|[->|[->|[->|[->|[->|[->| ->]]]]]]]]];
    cbn [drop_space is_space N.leb N.eqb N.compare Pos.compare Pos.compare_cont
         Pos.eqb andb orb];
    try (rewrite Hval; reflexivity).
  destruct ds as [|c2 rest]; [rewrite Hval; reflexivity|].
  destruct (Hradix c2 rest eq_refl) as [Hx HX].
  destruct c2 as [|p]; [rewrite Hval; reflexivity|].
  repeat (destruct p as [p|p|]; try (rewrite Hval; reflexivity); try congruence).
Qed.

Ltac inv_matches :=
  repeat match goal with
    | H : matches _ (Seq _ _) _ _ |- _ => inv H
    | H : matches _ (Char _) _ _ |- _ => inv H
    | H : matches _ (Class _) _ _ |- _ => inv H
    | H : matches _ (Group _ _) _ _ |- _ => inv H
    | H : matches _ Empty _ _ |- _ => inv H
    end.

Lemma matches_Chars_caps ic w :
  forall st st', matches ic (Chars w) st st' -> caps st' = caps st.
Proof.
  induction w as [|c w IH]; intros st st' H; simpl in H; inv_matches.
  - reflexivity.
  - match goal with
    | H : matches _ (Chars w) _ _ |- _ => apply IH in H; exact H
    end.
Qed.

Lemma matches_star_class ic g cl st st' :
  matches ic (Star g (Class cl)) st st' ->
  caps st' = caps st /\
  exists ds, after st = ds ++ after st' /\ forallb (in_class cl) ds = true.
Proof.
  intros H. remember (Star g (Class cl)) as r eqn:Hr.
  induction H; try discriminate.
  - split; [reflexivity|]. exists []. auto.
  - inv Hr. inv_matches.
    destruct (IHmatches2 eq_refl) as (Hc & ds & Ha & Hd).
    simpl in *. split; [exact Hc|].
    exists (x :: ds).
    match goal with
    | Hx : after st = x :: _, Hi : in_class cl x = true |- _ =>
        rewrite Hx, Ha; simpl; rewrite Hi, Hd; auto
    end.
Qed.

Lemma firstn_app_exact {A} (l1 l2 : list A) :
  firstn (length (l1 ++ l2) - length l2) (l1 ++ l2) = l1.
Proof.
  rewrite length_app, Nat.add_sub.
  rewrite firstn_app, Nat.sub_diag, firstn_all. simpl. apply app_nil_r.
Qed.

Lemma matches_group_plus ic n cl st st' :
  matches ic (Group n (Plus (Class cl))) st st' ->
  exists ds,
    ds <> [] /\ forallb (in_class cl) ds = true /\
    caps st' = (n, ds) :: caps st.
Proof.
  intros H. unfold Plus in H. inv_matches.
  match goal with
  | H : matches _ (Star _ _) _ _ |- _ =>
      apply matches_star_class in H; destruct H as (Hc & ds & Ha & Hd)
  end.
  simpl in *. exists (x :: ds). split; [discriminate|]. split.
  - simpl. match goal with Hi : in_class cl x = true |- _ => rewrite Hi end.
    exact Hd.
  - rewrite Hc. f_equal. f_equal. unfold consumed. simpl.
    match goal with Hx : after st = x :: _ |- _ => rewrite Hx end.
    rewrite Ha.
    change (x :: ds ++ after st'0) with ((x :: ds) ++ after st'0).
    apply firstn_app_exact.
Qed.

(** What [scoreMatch[1]] holds: a run of digits, not empty. *)
Lemma score_re_capture s m :
  exec false score_re s = Some m ->
  exists ds, ds <> [] /\ forallb is_digit ds = true /\ group1 m = ds.
Proof.
  intros H. unfold exec in H.
  apply exec_from_sound in H. destruct H as (pre & aft & _ & H).
  unfold match_here in H. apply rmatch_sound in H.
  destruct H as (st' & Hm & Heq). inv Heq.
  unfold score_re in Hm.
  inversion Hm as [| | |r1 r2 st0 st1 st2 Hscore Hrest| | | | | | | |]; subst.
  inversion Hrest as [| | |r1 r2 st0 st2' st3 Hspace Hrest2| | | | | | | |]; subst.
  inversion Hrest2 as [| | |r1 r2 st0 st3' st4 Hgroup Hslash| | | | | | | |]; subst.
  apply (matches_Chars_caps false (str "/100")) in Hslash.
  apply matches_star_class in Hspace. destruct Hspace as (Hc & _).
  apply matches_group_plus in Hgroup.
  destruct Hgroup as (ds & Hne & Hd & Hcaps).
  exists ds. split; [exact Hne|]. split; [exact Hd|].
  unfold group1. rewrite Hslash, Hcaps. reflexivity.
Qed.

Lemma parseEvaluationResponse_score response r :
  parseEvaluationResponse response = Normal r ->
  exists n, (0 <= n)%Z /\ score r = Number_of_Z n.
Proof.
  intros H. unfold parseEvaluationResponse in H.
  destruct response; simpl in H; inv H;
    try (exists 0%Z; split; [lia | reflexivity]).
  simpl. destruct (exec false score_re s) as [m|] eqn:Hm.
  - destruct (score_re_capture s m Hm) as (ds & Hne & Hd & ->).
    apply parseInt_digits; assumption.
  - exists 0%Z. split; [lia | reflexivity].
Qed.

(** ** Scores of the heuristic dimensions *)

Lemma zs_In k n : (0 <= k < Z.of_nat n)%Z -> In k (zs n).
Proof.
  intros H. unfold zs. apply in_map_iff.
  exists (Z.to_nat k). split; [lia|]. apply in_seq. lia.
Qed.

Lemma add_ok_true : add_ok = true.
Proof. vm_cast_no_check (eq_refl true). Qed.

Lemma Number_of_Z_add a b :
  (0 <= a <= 25)%Z -> (0 <= b <= 5)%Z ->
  (Number_of_Z a + Number_of_Z b)%float = Number_of_Z (a + b).
Proof.
  intros Ha Hb. pose proof add_ok_true as T. unfold add_ok in T.
  rewrite forallb_forall in T.
  specialize (T a (zs_In a 26 ltac:(lia))).
  rewrite forallb_forall in T.
  specialize (T b (zs_In b 6 ltac:(lia))).
  apply FloatAxioms.Leibniz.eqb_spec in T. exact T.
Qed.

Lemma round_ok_6 : round_ok 6 = true.
Proof. vm_cast_no_check (eq_refl true). Qed.

Lemma round_ok_5 : round_ok 5 = true.
Proof. vm_cast_no_check (eq_refl true). Qed.

Lemma dimension_score_exact criteria t :
  round_ok criteria = true ->
  (0 <= t <= Z.of_nat criteria * 5)%Z ->
  dimension_score criteria (Number_of_Z t)
  = Number_of_Z ((200 * t + Z.of_nat criteria * 5)
                   / (2 * (Z.of_nat criteria * 5))).
Proof.
  intros T Ht. unfold round_ok in T. rewrite forallb_forall in T.
  specialize (T t (zs_In t (criteria * 5 + 1) ltac:(lia))).
  apply FloatAxioms.Leibniz.eqb_spec in T. exact T.
Qed.

Lemma scoreByKeywords_points text kws :
  1 <= length kws <= 908 -> points (scoreByKeywords text kws).
Proof.
  intros Hn. exists (criterion_score (match_count text kws) (length kws)).
  split; [apply criterion_score_range|].
  rewrite scoreByKeywords_keyword_score.
  apply keyword_score_criterion_score; [exact Hn | apply match_count_le].
Qed.

Lemma total_points (cs : list float) :
  length cs <= 6 -> Forall points cs ->
  exists t, (0 <= t <= Z.of_nat (length cs) * 5)%Z /\
            fold_left (fun sum score => (sum + score)%float) cs 0%float
            = Number_of_Z t.
Proof.
  intros Hlen Hcs.
  assert (H : forall cs a,
            Forall points cs -> (0 <= a)%Z ->
            (a + Z.of_nat (length cs) * 5 <= 30)%Z ->
            exists t, (a <= t <= a + Z.of_nat (length cs) * 5)%Z /\
              fold_left (fun sum score => (sum + score)%float) cs (Number_of_Z a)
              = Number_of_Z t).
  { clear. induction cs as [|c cs IH]; intros a Hcs Ha Hb; simpl.
    - exists a. split; [lia | reflexivity].
    - inversion Hcs as [|c' cs' Hc Hcs']; subst.
      destruct Hc as (k & Hk & ->).
      simpl length in Hb. rewrite Nat2Z.inj_succ in Hb.
      rewrite Number_of_Z_add by lia.
      destruct (IH (a + k)%Z Hcs' ltac:(lia) ltac:(lia)) as (t & Ht & ->).
      exists t. split; [|reflexivity].
      lia. }
  destruct (H cs 0%Z Hcs ltac:(lia) ltac:(lia)) as (t & Ht & Hf).
  exists t. split; [lia|]. exact Hf.
Qed.

Lemma dimension_score_range criteria cs :
  (criteria = 5 \/ criteria = 6) ->
  length cs = criteria -> Forall points cs ->
  exists k, (0 <= k <= 100)%Z /\
    dimension_score criteria
      (fold_left (fun sum score => (sum + score)%float) cs 0%float)
    = Number_of_Z k.
Proof.
  intros Hc Hlen Hcs.
  destruct (total_points cs ltac:(lia) Hcs) as (t & Ht & ->).
  rewrite Hlen in Ht.
  assert (Hok : round_ok criteria = true)
    by (destruct Hc as [-> | ->]; [apply round_ok_5 | apply round_ok_6]).
  rewrite (dimension_score_exact criteria t Hok Ht).
  eexists. split; [|reflexivity].
  split.
  - apply Z.div_pos; lia.
  - apply Z.lt_succ_r. apply Z.div_lt_upper_bound; lia.
Qed.

Lemma evaluateContent_range text :
  exists k, (0 <= k <= 100)%Z /\ Heuristic.evaluateContent text = Number_of_Z k.
Proof.
  unfold Heuristic.evaluateContent.
  apply (dimension_score_range 6); [auto | reflexivity |].
  repeat constructor; apply scoreByKeywords_points; simpl; lia.
Qed.

Lemma evaluateNarrative_range text :
  exists k, (0 <= k <= 100)%Z /\ Heuristic.evaluateNarrative text = Number_of_Z k.
Proof.
  unfold Heuristic.evaluateNarrative.
  apply (dimension_score_range 5); [auto | reflexivity |].
  repeat constructor; apply scoreByKeywords_points; simpl; lia.
Qed.

Lemma evaluateLanguage_range sentences :
  exists k, (k = 20 \/ k = 40 \/ k = 60 \/ k = 80 \/ k = 100)%Z /\
    Heuristic.evaluateLanguage sentences = Number_of_Z k.
Proof.
  unfold Heuristic.evaluateLanguage.
  generalize
    (Number_of_nat (length (filter needsModification sentences))
     / Number_of_nat (length sentences) * 100)%float.
  intros p. cbv zeta.
  destruct (p <=? 5)%float;
    [exists 100%Z; split; [lia | vm_compute; reflexivity]|].
  destruct (p <=? 10)%float;
    [exists 80%Z; split; [lia | vm_compute; reflexivity]|].
  destruct (p <=? 20)%float;
    [exists 60%Z; split; [lia | vm_compute; reflexivity]|].
  destruct (p <=? 30)%float;
    [exists 40%Z; split; [lia | vm_compute; reflexivity]|].
  exists 20%Z; split; [lia | vm_compute; reflexivity].
Qed.

(** C3 as stated fails: the parser takes whatever number stands before
    "/100", and "Score: 150/100" gives the score 150. *)
Lemma parseEvaluationResponse_score_150 :
  exists r,
    parseEvaluationResponse (VString (str "Score: 150/100")) = Normal r /\
    score r = 150%float /\
    (score r <=? 100)%float = false.
Proof.
  eexists. split; [vm_compute; reflexivity|].
  split; vm_compute; reflexivity.
Qed.

(** ** Adding a keyword match *)

(** Text added after a space takes no whole-word occurrence away. *)
Lemma is_word_at_app_space aft rest :
  is_word_at (aft ++ SPACE :: rest) = is_word_at aft.
Proof. destruct aft; reflexivity. Qed.

Lemma same_letters_app w :
  forall aft u post rest,
    same_letters w aft = Some (u, post) ->
    same_letters w (aft ++ rest) = Some (u, post ++ rest).
Proof.
  induction w as [|c w IH]; intros aft u post rest H; simpl in *.
  - inv H. reflexivity.
  - destruct aft as [|x aft]; [discriminate|]. simpl.
    destruct (jschar_eqb _ _); [|discriminate].
    destruct (same_letters w aft) as [[u' post']|] eqn:Hs; [|discriminate].
    inv H. rewrite (IH _ _ _ rest Hs). reflexivity.
Qed.

Lemma whole_word_here_app_space w bef aft rest :
  whole_word_here w bef aft = true ->
  whole_word_here w bef (aft ++ SPACE :: rest) = true.
Proof.
  unfold whole_word_here, boundary. intros H.
  apply andb_true_iff in H. destruct H as [Hb Hs].
  rewrite is_word_at_app_space, Hb. simpl.
  destruct (same_letters w aft) as [[u post]|] eqn:Hl; [|discriminate].
  rewrite (same_letters_app _ _ _ _ (SPACE :: rest) Hl).
  rewrite is_word_at_app_space. exact Hs.
Qed.

Lemma whole_word_in_app_space w text rest :
  whole_word_in w text = true ->
  whole_word_in w (text ++ SPACE :: rest) = true.
Proof.
  unfold whole_word_in. generalize (@nil jschar) as bef.
  induction text as [|x text IH]; intros bef H; simpl in H.
  - rewrite orb_false_r in H.
    apply (whole_word_here_app_space w bef [] rest) in H.
    simpl app in *. simpl. rewrite H. reflexivity.
  - apply orb_true_iff in H. simpl. apply orb_true_iff.
    destruct H as [H|H].
    + left. apply (whole_word_here_app_space w bef (x :: text) rest H).
    + right. apply IH. exact H.
Qed.

Lemma match_count_mono text text' kws :
  (forall w, In w kws ->
     whole_word_in w text = true -> whole_word_in w text' = true) ->
  match_count text kws <= match_count text' kws.
Proof.
  unfold match_count. induction kws as [|w kws IH]; intros H; simpl; [lia|].
  assert (IH' := IH (fun w' Hin => H w' (or_intror Hin))).
  destruct (whole_word_in w text) eqn:Hw.
  - rewrite (H w (or_introl eq_refl) Hw). simpl. lia.
  - destruct (whole_word_in w text'); simpl; lia.
Qed.

Lemma criterion_score_mono m m' n :
  1 <= n -> m <= m' -> (criterion_score m n <= criterion_score m' n)%Z.
Proof.
  intros Hn Hm. unfold criterion_score.
  apply Z.min_le_compat_l.
  pose proof (ceil_div_2_bounds (Z.of_nat n) ltac:(lia)) as Hh.
  unfold ceil_div at 1 3. apply Z.div_le_mono; lia.
Qed.

Lemma Number_of_Z_small_le k k' :
  (0 <= k <= k')%Z -> (k' <= 5)%Z ->
  (Number_of_Z k <=? Number_of_Z k')%float = true.
Proof.
  intros Hk Hk'.
  assert (k = 0 \/ k = 1 \/ k = 2 \/ k = 3 \/ k = 4 \/ k = 5)%Z as H by lia.
  assert (k' = 0 \/ k' = 1 \/ k' = 2 \/ k' = 3 \/ k' = 4 \/ k' = 5)%Z as H' by lia.
  destruct H as [->|[->|[->|[->|[->| ->]]]]];
    destruct H' as [->|[->|[->|[->|[->| ->]]]]];
    try lia; vm_compute; reflexivity.
Qed.

(** C6.  Adding a keyword match never lowers the criterion score, for a
    keyword list of any length an array can have: if every keyword of the
    list that occurs in [text] as a whole word also occurs in [text'] - as
    is the case when [text'] is [text] followed by a space and more words,
    say by a keyword that was absent - then the score of [text'] is at least
    the score of [text]. *)
Theorem scoreByKeywords_monotone (text text' : jsstring) (keywords : list jsstring) :
  1 <= length keywords ->
  (Z.of_nat (length keywords) < 2 ^ 53)%Z ->
  forallb literal_word keywords = true ->
  (forall w, In w keywords ->
     whole_word_in w text = true -> whole_word_in w text' = true) ->
  (scoreByKeywords text keywords <=? scoreByKeywords text' keywords)%float = true /\
  (forall added,
     (scoreByKeywords text keywords
      <=? scoreByKeywords (text ++ SPACE :: added) keywords)%float = true).
Proof.
  intros Hn Hlt _ Hsub.
  destruct (keyword_score_integer (length keywords) ltac:(lia))
    as (f & Hf & Hmono).
  assert (Hle : forall t t',
            (forall w, In w keywords ->
               whole_word_in w t = true -> whole_word_in w t' = true) ->
            (scoreByKeywords t keywords <=? scoreByKeywords t' keywords)%float
            = true).
  { intros t t' H. rewrite !scoreByKeywords_keyword_score.
    pose proof (match_count_le t keywords) as Ht.
    pose proof (match_count_le t' keywords) as Ht'.
    destruct (Hf (match_count t keywords) ltac:(lia)) as [-> Hr].
    destruct (Hf (match_count t' keywords) ltac:(lia)) as [-> Hr'].
    apply Number_of_Z_small_le; [|lia].
    split; [lia|]. apply Hmono; [|lia].
    apply match_count_mono. exact H. }
  split; [apply Hle; exact Hsub|].
  intros added. apply Hle.
  intros w _. apply whole_word_in_app_space.
Qed.

Lemma scoreByKeywords_monotone_witness :
  (scoreByKeywords (str "My goal")
     (map str ["goal"; "career"; "future"; "aspire"; "aim"; "plan"]%string)
   <=? scoreByKeywords (str "My goal" ++ SPACE :: str "career")
         (map str ["goal"; "career"; "future"; "aspire"; "aim"; "plan"]%string))%float
  = true.
Proof.
  apply (proj1 (scoreByKeywords_monotone
                  (str "My goal") (str "My goal" ++ SPACE :: str "career")
                  (map str ["goal"; "career"; "future"; "aspire"; "aim"; "plan"]%string)
                  ltac:(simpl; lia) ltac:(vm_compute; reflexivity) eq_refl
                  (fun w _ => whole_word_in_app_space w (str "My goal") (str "career")))).
Defined.

(** C6 as stated fails when the text is extended right after its last
    word, which can take whole-word occurrences away: [up] and [grew up]
    end the text [I grew up] and are no longer whole words once [s family]
    follows, while [family] is new; the score for these three keywords goes
    from 5 down to 3. *)
Lemma scoreByKeywords_extension_lowers :
  let keywords := map str ["up"; "grew up"; "family"]%string in
  let text := str "I grew up" in
  let text' := text ++ str "s family" in
  In (str "family") keywords /\
  test true (RegExp_word (str "family")) text = false /\
  test true (RegExp_word (str "family")) text' = true /\
  scoreByKeywords text keywords = 5%float /\
  scoreByKeywords text' keywords = 3%float /\
  (scoreByKeywords text' keywords <? scoreByKeywords text keywords)%float = true.
Proof.
  cbv zeta. split; [right; right; left; reflexivity|].
  repeat split; vm_compute; reflexivity.
Qed.

(** * The rest of the scripts: properties *)

(** ** Paragraphs and sentences *)

(** *** Trimming *)

Lemma drop_space_nil s : drop_space s = [] <-> blank s = true.
Proof.
  unfold blank. induction s as [|c s IH]; simpl; [tauto|].
  destruct (is_space c); simpl; [exact IH|]. split; discriminate.
Qed.

Lemma drop_space_head s c s' : drop_space s = c :: s' -> is_space c = false.
Proof.
  induction s as [|x s IH]; simpl; [discriminate|].
  destruct (is_space x) eqn:E; [exact IH|]. intros H. inv H. exact E.
Qed.

Lemma drop_space_fix s :
  match s with c :: _ => is_space c = false | [] => True end ->
  drop_space s = s.
Proof. destruct s as [|c s]; simpl; [reflexivity|]. intros ->. reflexivity. Qed.

Lemma drop_space_suffix s : exists w, blank w = true /\ s = w ++ drop_space s.
Proof.
  induction s as [|c s IH]; simpl.
  - exists []. auto.
  - destruct (is_space c) eqn:E.
    + destruct IH as (w & Hw & Hs). exists (c :: w). unfold blank in *. simpl.
      rewrite E, Hw. split; [reflexivity|]. f_equal. exact Hs.
    + exists []. auto.
Qed.

Lemma blank_app a b : blank (a ++ b) = blank a && blank b.
Proof. apply forallb_app. Qed.

Lemma blank_rev a : blank (rev a) = blank a.
Proof.
  unfold blank. induction a as [|c a IH]; simpl; [reflexivity|].
  rewrite forallb_app, IH. simpl. rewrite andb_true_r. apply andb_comm.
Qed.

(** [trim] gives the empty string exactly on white space. *)
Lemma trim_nil s : trim s = [] <-> blank s = true.
Proof.
  unfold trim. split.
  - intros H. apply (f_equal (@rev _)) in H. rewrite rev_involutive in H.
    simpl in H. apply drop_space_nil in H. rewrite blank_rev in H.
    destruct (drop_space_suffix s) as (w & Hw & Hs).
    rewrite Hs, blank_app, Hw, H. reflexivity.
  - intros H. apply drop_space_nil in H. rewrite H. reflexivity.
Qed.

Lemma truthy_trim s : truthy (trim s) = negb (blank s).
Proof.
  destruct (blank s) eqn:E.
  - apply trim_nil in E. rewrite E. reflexivity.
  - destruct (trim s) eqn:T; [|reflexivity].
    apply trim_nil in T. congruence.
Qed.

Lemma rev_head_last {A} (l : list A) x l' :
  rev l = x :: l' -> l = rev l' ++ [x].
Proof.
  intros H. apply (f_equal (@rev _)) in H. rewrite rev_involutive in H.
  exact H.
Qed.

Lemma trim_trimmed s : trimmed (trim s).
Proof.
  unfold trimmed, trim. rewrite rev_involutive.
  split.
  - destruct (drop_space (rev (drop_space s))) as [|c r] eqn:E; [exact I|].
    (* the first code unit of the result is the first of [drop_space s] *)
    destruct (drop_space s) as [|d s'] eqn:D.
    { simpl in E. discriminate. }
    pose proof (drop_space_head _ _ _ D) as Hd.
    destruct (drop_space_suffix (rev (d :: s'))) as (w & Hw & Hs).
    rewrite E in Hs.
    apply (f_equal (@rev _)) in Hs. rewrite rev_involutive, rev_app_distr in Hs.
    simpl rev at 1. simpl in Hs.
    destruct (rev r ++ [c]) as [|y ys] eqn:R.
    { destruct (rev r); discriminate. }
    simpl in Hs. inv Hs. exact Hd.
  - destruct (drop_space (rev (drop_space s))) as [|c r] eqn:E; [exact I|].
    apply drop_space_head in E. exact E.
Qed.

Lemma trimmed_trim s : trimmed s -> trim s = s.
Proof.
  intros [H1 H2]. unfold trim.
  rewrite (drop_space_fix s H1), (drop_space_fix (rev s) H2).
  apply rev_involutive.
Qed.

Lemma trim_idempotent s : trim (trim s) = trim s.
Proof. apply trimmed_trim, trim_trimmed. Qed.

(** *** Splitting at a code unit *)

Lemma pieces_cons sep s : exists p ps, pieces sep s = p :: ps.
Proof.
  induction s as [|x s (p & ps & IH)]; simpl; [eauto|].
  destruct (jschar_eqb x sep); [eauto|]. rewrite IH. eauto.
Qed.

Lemma canonicalize_false c : canonicalize false c = c.
Proof. reflexivity. Qed.

Lemma split_loop_Char sep :
  forall aft piece bef,
    split_loop (Char sep) 0 piece bef aft
    = match pieces sep aft with
      | p :: ps => (rev piece ++ p) :: ps
      | [] => []
      end.
Proof.
  induction aft as [|x aft IH]; intros piece bef.
  - simpl. rewrite app_nil_r. reflexivity.
  - cbn [split_loop match_here rmatch after before caps canonicalize andb pieces].
    destruct (jschar_eqb x sep) eqn:E.
    + cbn [after length].
      replace (S (length aft) - length aft) with 1 by lia.
      rewrite IH. rewrite app_nil_r.
      destruct (pieces_cons sep aft) as (p & ps & ->). reflexivity.
    + rewrite IH. destruct (pieces_cons sep aft) as (p & ps & ->).
      simpl. rewrite <- app_assoc. reflexivity.
Qed.

(** [s.split(c)] is the list of the pieces between the occurrences of [c]. *)
Lemma split_Char sep s : split (Char sep) s = pieces sep s.
Proof.
  destruct s as [|x s]; [reflexivity|].
  unfold split. rewrite split_loop_Char.
  destruct (pieces_cons sep (x :: s)) as (p & ps & ->). reflexivity.
Qed.

Lemma pieces_app_sep sep a b :
  pieces sep (a ++ sep :: b) = pieces sep a ++ pieces sep b.
Proof.
  induction a as [|x a IH]; simpl.
  - unfold jschar_eqb. rewrite N.eqb_refl. reflexivity.
  - destruct (jschar_eqb x sep); [rewrite IH; reflexivity|].
    rewrite IH. destruct (pieces_cons sep a) as (p & ps & ->). reflexivity.
Qed.

Lemma last_app_cons {A} (l l' : list A) x d : last (l ++ x :: l') d = last (x :: l') d.
Proof.
  induction l as [|y l IH]; [reflexivity|].
  simpl app. rewrite <- IH. simpl. destruct (l ++ x :: l') eqn:E; [|reflexivity].
  destruct l; discriminate.
Qed.

Lemma first_paragraph a b :
  first_or_undefined (split (Char LF) (a ++ LF :: b))
  = first_or_undefined (split (Char LF) a).
Proof.
  rewrite !split_Char, pieces_app_sep.
  destruct (pieces_cons LF a) as (p & ps & ->). reflexivity.
Qed.

Lemma last_paragraph a b :
  last_or_undefined (split (Char LF) (a ++ LF :: b))
  = last_or_undefined (split (Char LF) b).
Proof.
  rewrite !split_Char, pieces_app_sep. unfold last_or_undefined.
  destruct (pieces_cons LF b) as (p & ps & ->). apply last_app_cons.
Qed.

Lemma pieces_no_sep sep s :
  existsb (fun c => jschar_eqb c sep) s = false -> pieces sep s = [s].
Proof.
  induction s as [|x s IH]; simpl; [reflexivity|].
  intros H. apply orb_false_iff in H. destruct H as [-> H].
  rewrite (IH H). reflexivity.
Qed.

(** X1.  The opening criterion reads the first line of the text only, the
    closing criterion the last line only: for a text [a], a line feed and
    [b], [hasStrongOpening] is what it is on [a] and [hasStrongClosing] what
    it is on [b]; and when [a] is one line the opening criterion is the
    keyword score of [a] for the opening keywords, when [b] is one line the
    closing criterion is the keyword score of [b] for the closing
    keywords. *)
Theorem paragraph_criteria (a b : jsstring) :
  hasStrongOpening (a ++ LF :: b) = hasStrongOpening a /\
  hasStrongClosing (a ++ LF :: b) = hasStrongClosing b /\
  (existsb (fun c => jschar_eqb c LF) a = false ->
   hasStrongOpening (a ++ LF :: b)
   = scoreByKeywords a (map str ["question"; "quote"; "anecdote"; "statistic"]%string)) /\
  (existsb (fun c => jschar_eqb c LF) b = false ->
   hasStrongClosing (a ++ LF :: b)
   = scoreByKeywords b
       (map str ["conclusion"; "therefore"; "finally"; "future"; "contribute"]%string)).
Proof.
  unfold hasStrongOpening, hasStrongClosing.
  rewrite first_paragraph, last_paragraph.
  split; [reflexivity|]. split; [reflexivity|]. split; intros H.
  - rewrite split_Char, (pieces_no_sep _ _ H). reflexivity.
  - rewrite split_Char, (pieces_no_sep _ _ H). reflexivity.
Qed.

Lemma paragraph_criteria_witness :
  hasStrongOpening (str "A question" ++ LF :: str "and finally the end")
  = scoreByKeywords (str "A question")
      (map str ["question"; "quote"; "anecdote"; "statistic"]%string) /\
  hasStrongClosing (str "A question" ++ LF :: str "and finally the end")
  = scoreByKeywords (str "and finally the end")
      (map str ["conclusion"; "therefore"; "finally"; "future"; "contribute"]%string).
Proof.
  destruct (paragraph_criteria (str "A question") (str "and finally the end"))
    as (_ & _ & Ho & Hc).
  split; [apply Ho | apply Hc]; reflexivity.
Defined.

(** *** Sentences *)

Lemma match_here_sentence_end bef aft st' :
  match_here false Heuristic.sentence_end_re bef aft = Some st' ->
  exists x ds,
    is_terminator x = true /\ forallb is_terminator ds = true /\
    aft = x :: ds ++ after st'.
Proof.
  unfold match_here. intros H. apply rmatch_sound in H.
  destruct H as (st1 & Hm & Heq). inv Heq.
  unfold Heuristic.sentence_end_re, Plus in Hm. inv_matches.
  match goal with
  | H : matches _ (Star _ _) _ _ |- _ =>
      apply matches_star_class in H; destruct H as (_ & ds & Ha & Hd)
  end.
  simpl in *. subst. exists x, ds. repeat split; assumption.
Qed.

Lemma match_here_sentence_end_terminator bef x rest :
  is_terminator x = true ->
  match_here false Heuristic.sentence_end_re bef (x :: rest) <> None.
Proof.
  intros Hx. unfold match_here.
  destruct (rmatch_complete false Heuristic.sentence_end_re
              (MState bef (x :: rest) []) (MState (x :: bef) rest []) Some
              (MState (x :: bef) rest [])) as (res & ->); [|reflexivity|discriminate].
  unfold Heuristic.sentence_end_re, Plus.
  eapply MSeq; [|apply MStarStop].
  apply (MClass false _ x rest (MState bef (x :: rest) [])); [reflexivity|exact Hx].
Qed.

Lemma plain_rev s : plain (rev s) = plain s.
Proof.
  unfold plain. induction s as [|c s IH]; simpl; [reflexivity|].
  rewrite forallb_app, IH. simpl. rewrite andb_true_r. apply andb_comm.
Qed.

Lemma split_loop_sentences :
  forall aft skip piece bef,
    plain piece = true ->
    (0 < skip ->
     piece = [] /\ forallb is_terminator (firstn skip aft) = true) ->
    let res := split_loop Heuristic.sentence_end_re skip piece bef aft in
    concat res = rev piece ++ filter (fun c => negb (is_terminator c)) aft /\
    Forall (fun s => plain s = true) res.
Proof.
  induction aft as [|x rest IH]; intros skip piece bef Hp Hs; cbv zeta.
  - simpl. rewrite app_nil_r. split; [reflexivity|].
    constructor; [rewrite plain_rev; exact Hp | constructor].
  - destruct skip as [|skip'].
    + cbn [split_loop].
      destruct (match_here false Heuristic.sentence_end_re bef (x :: rest))
        as [st'|] eqn:Hm.
      * destruct (match_here_sentence_end _ _ _ Hm) as (x' & ds & Hx & Hd & Ha).
        inv Ha.
        replace (length (x' :: ds ++ after st') - length (after st'))
          with (S (length ds))
          by (cbn [length]; rewrite length_app; lia).
        destruct (IH (length ds) [] (x' :: bef) eq_refl) as [Hc Hf].
        { intros _. split; [reflexivity|].
          rewrite firstn_app, Nat.sub_diag, firstn_all. simpl.
          rewrite app_nil_r. exact Hd. }
        cbv zeta in Hc, Hf. split.
        -- cbn [concat filter]. rewrite Hx. cbn [negb]. rewrite Hc. reflexivity.
        -- constructor; [rewrite plain_rev; exact Hp | exact Hf].
      * assert (Hx : is_terminator x = false).
        { destruct (is_terminator x) eqn:E; [|reflexivity].
          exfalso. eapply match_here_sentence_end_terminator; eauto. }
        destruct (IH 0 (x :: piece) (x :: bef)) as [Hc Hf].
        { unfold plain in *. simpl. rewrite Hx, Hp. reflexivity. }
        { intros H. lia. }
        cbv zeta in Hc, Hf. split; [|exact Hf].
        rewrite Hc. cbn [filter]. rewrite Hx. cbn [negb rev].
        rewrite <- app_assoc. reflexivity.
    + destruct (Hs ltac:(lia)) as [-> Ht].
      cbn [firstn forallb] in Ht. apply andb_true_iff in Ht.
      destruct Ht as [Hx Ht].
      cbn [split_loop].
      destruct (IH skip' [] (x :: bef) eq_refl) as [Hc Hf].
      { intros _. split; [reflexivity | exact Ht]. }
      cbv zeta in Hc, Hf. split; [|exact Hf].
      rewrite Hc. cbn [filter rev app]. rewrite Hx. reflexivity.
Qed.

Lemma split_sentences text :
  concat (split Heuristic.sentence_end_re text)
  = filter (fun c => negb (is_terminator c)) text /\
  Forall (fun s => plain s = true) (split Heuristic.sentence_end_re text).
Proof.
  destruct text as [|x text].
  - split; [reflexivity|]. repeat constructor.
  - unfold split.
    apply (split_loop_sentences (x :: text) 0 [] []); [reflexivity|].
    intros H. lia.
Qed.

Lemma split_loop_plain :
  forall aft piece bef,
    plain aft = true ->
    split_loop Heuristic.sentence_end_re 0 piece bef aft = [rev piece ++ aft].
Proof.
  induction aft as [|x rest IH]; intros piece bef Hp.
  - simpl. rewrite app_nil_r. reflexivity.
  - unfold plain in Hp. simpl in Hp. apply andb_true_iff in Hp.
    destruct Hp as [Hx Hp]. apply negb_true_iff in Hx.
    cbn [split_loop].
    destruct (match_here false Heuristic.sentence_end_re bef (x :: rest))
      as [st'|] eqn:Hm.
    + destruct (match_here_sentence_end _ _ _ Hm) as (x' & ds & Hx' & _ & Ha).
      inv Ha. congruence.
    + rewrite (IH _ _ Hp). simpl. rewrite <- app_assoc. reflexivity.
Qed.

Lemma blank_concat l : blank (concat l) = forallb blank l.
Proof.
  induction l as [|s l IH]; [reflexivity|].
  simpl. rewrite blank_app, IH. reflexivity.
Qed.

Lemma filter_nil_forallb {A} (f : A -> bool) l :
  filter f l = [] <-> forallb (fun x => negb (f x)) l = true.
Proof.
  induction l as [|x l IH]; simpl; [tauto|].
  destruct (f x); simpl; [split; discriminate | exact IH].
Qed.

Lemma forallb_filter {A} (f g : A -> bool) l :
  forallb g (filter f l) = forallb (fun x => negb (f x) || g x) l.
Proof.
  induction l as [|x l IH]; [reflexivity|].
  simpl. destruct (f x); simpl; rewrite IH; reflexivity.
Qed.

Lemma forallb_eq {A} (f g : A -> bool) l :
  (forall x, f x = g x) -> forallb f l = forallb g l.
Proof.
  intros H. induction l as [|x l IH]; [reflexivity|].
  simpl. rewrite H, IH. reflexivity.
Qed.

Lemma fields_cons sep s : exists p ps, fields sep s = p :: ps.
Proof.
  induction s as [|x s (p & ps & IH)]; cbn [fields]; [eauto|].
  destruct (sep x); [eauto|]. rewrite IH. eauto.
Qed.

Lemma fields_app_sep sep a t b :
  sep t = true -> fields sep (a ++ t :: b) = fields sep a ++ fields sep b.
Proof.
  intros Ht. induction a as [|x a IH]; cbn [app fields].
  - rewrite Ht. reflexivity.
  - rewrite IH. destruct (sep x); [reflexivity|].
    destruct (fields_cons sep a) as (p & ps & ->). reflexivity.
Qed.

Lemma split_loop_fields :
  forall aft skip piece bef,
    (0 < skip ->
     piece = [] /\ forallb is_terminator (firstn skip aft) = true) ->
    filter (fun s => negb (blank s))
      (split_loop Heuristic.sentence_end_re skip piece bef aft)
    = filter (fun s => negb (blank s))
        match fields is_terminator aft with
        | p :: ps => (rev piece ++ p) :: ps
        | [] => [rev piece]
        end.
Proof.
  induction aft as [|x rest IH]; intros skip piece bef Hs.
  - cbn [split_loop fields]. rewrite app_nil_r. reflexivity.
  - destruct skip as [|skip'].
    + cbn [split_loop fields].
      destruct (match_here false Heuristic.sentence_end_re bef (x :: rest))
        as [st'|] eqn:Hm.
      * destruct (match_here_sentence_end _ _ _ Hm) as (x' & ds & Hx & Hd & Ha).
        inv Ha.
        replace (length (x' :: ds ++ after st') - length (after st'))
          with (S (length ds))
          by (cbn [length]; rewrite length_app; lia).
        rewrite Hx. rewrite app_nil_r.
        cbn [filter]. f_equal.
        rewrite (IH (length ds) [] (x' :: bef)).
        -- destruct (fields_cons is_terminator (ds ++ after st'))
             as (p & ps & ->). reflexivity.
        -- intros _. split; [reflexivity|].
           rewrite firstn_app, Nat.sub_diag, firstn_all. simpl.
           rewrite app_nil_r. exact Hd.
      * assert (Hx : is_terminator x = false).
        { destruct (is_terminator x) eqn:E; [|reflexivity].
          exfalso. eapply match_here_sentence_end_terminator; eauto. }
        rewrite Hx. rewrite (IH 0 (x :: piece) (x :: bef)) by (intros H; lia).
        destruct (fields_cons is_terminator rest) as (p & ps & ->).
        cbn [rev]. rewrite <- app_assoc. reflexivity.
    + destruct (Hs ltac:(lia)) as [-> Ht].
      cbn [firstn forallb] in Ht. apply andb_true_iff in Ht.
      destruct Ht as [Hx Ht].
      cbn [split_loop fields]. rewrite Hx. cbn [rev app filter blank forallb negb].
      rewrite (IH skip' [] (x :: bef)) by (intros _; split; [reflexivity | exact Ht]).
      destruct (fields_cons is_terminator rest) as (p & ps & ->). reflexivity.
Qed.

Lemma sentences_of_sentences text : sentences_of text = sentences text.
Proof.
  unfold sentences_of, sentences.
  rewrite (filter_ext _ (fun s => negb (blank s)))
    by (intros s; apply truthy_trim).
  destruct text as [|x text]; [reflexivity|].
  unfold split. rewrite split_loop_fields by (intros H; lia).
  destruct (fields_cons is_terminator (x :: text)) as (p & ps & ->).
  reflexivity.
Qed.

Lemma sentences_app a t b :
  is_terminator t = true ->
  sentences (a ++ t :: b) = sentences a ++ sentences b.
Proof.
  intros Ht. unfold sentences.
  rewrite (fields_app_sep _ _ _ _ Ht). apply filter_app.
Qed.

(** X2.  The sentences the heuristic version scores the language on are
    the pieces of the text between its sentence terminators [.], [!] and
    [?] that are not blank.  So the sentences of a text with a terminator in
    it are those before the terminator and then those after it; no sentence
    holds a terminator or is blank; the pieces the text is split into are,
    together, the text without its terminators; there is no sentence
    exactly when the text holds nothing but terminators and white space; and
    a text without a terminator that is not blank is its own single
    sentence. *)
Theorem sentences_of_text (text : jsstring) :
  filter (fun s => truthy (trim s)) (split Heuristic.sentence_end_re text)
  = sentences text /\
  Heuristic.language (Heuristic.evaluateText text)
  = Heuristic.evaluateLanguage (sentences text) /\
  (forall a t b,
     text = a ++ t :: b -> is_terminator t = true ->
     sentences text = sentences a ++ sentences b) /\
  Forall (fun s => plain s = true /\ blank s = false) (sentences text) /\
  concat (split Heuristic.sentence_end_re text)
  = filter (fun c => negb (is_terminator c)) text /\
  (sentences text = [] <->
   forallb (fun c => is_terminator c || is_space c) text = true) /\
  (plain text = true -> blank text = false -> sentences text = [text]).
Proof.
  destruct (split_sentences text) as [Hc Hf].
  pose proof (sentences_of_sentences text) as E. unfold sentences_of in E.
  split; [exact E|].
  split; [unfold Heuristic.evaluateText; cbn [Heuristic.language];
          rewrite E; reflexivity|].
  split; [intros a t b -> Ht; apply sentences_app; exact Ht|].
  rewrite <- E. split; [|split; [exact Hc|split]].
  - apply Forall_forall. intros s Hs.
    apply filter_In in Hs. destruct Hs as [Hin Ht].
    rewrite Forall_forall in Hf. split; [apply Hf; exact Hin|].
    rewrite truthy_trim in Ht. apply negb_true_iff in Ht. exact Ht.
  - rewrite filter_nil_forallb.
    rewrite (forallb_eq _ blank)
      by (intros s; rewrite truthy_trim; apply negb_involutive).
    rewrite <- blank_concat, Hc. unfold blank. rewrite forallb_filter.
    rewrite (forallb_eq _ (fun c => is_terminator c || is_space c))
      by (intros c; rewrite negb_involutive; reflexivity).
    tauto.
  - intros Hp Hb.
    destruct text as [|x text]; [discriminate|].
    unfold split. rewrite (split_loop_plain _ _ _ Hp). simpl app.
    simpl. rewrite truthy_trim, Hb. reflexivity.
Qed.

Lemma sentences_of_text_witness :
  filter (fun s => truthy (trim s))
    (split Heuristic.sentence_end_re (str "One plain sentence. Is it?! Yes"))
  = [str "One plain sentence"; str " Is it"; str " Yes"] /\
  sentences (str "One plain sentence") = [str "One plain sentence"].
Proof.
  split.
  - rewrite (proj1 (sentences_of_text (str "One plain sentence. Is it?! Yes"))).
    reflexivity.
  - destruct (sentences_of_text (str "One plain sentence"))
      as (_ & _ & _ & _ & _ & _ & H).
    apply H; reflexivity.
Defined.

(** ** The extremes of the heuristic scores, and the final score *)

Lemma Number_of_Z_inj a b :
  (0 <= a < 2 ^ 53)%Z -> (0 <= b < 2 ^ 53)%Z ->
  Number_of_Z a = Number_of_Z b -> a = b.
Proof.
  intros Ha Hb H. apply (f_equal Prim2SF) in H.
  assert (H0 : Prim2SF (Number_of_Z 0) = S754_zero false)
    by (vm_compute; reflexivity).
  destruct (Z.eq_dec a 0) as [->|Ha0]; destruct (Z.eq_dec b 0) as [->|Hb0];
    try reflexivity.
  - rewrite H0, Prim2SF_Number_of_Z in H by lia. discriminate.
  - rewrite H0, Prim2SF_Number_of_Z in H by lia. discriminate.
  - rewrite !Prim2SF_Number_of_Z in H by lia.
    injection H as Hm Hd.
    destruct (mantissa53_bounds a ltac:(lia)) as [[La _] _].
    destruct (mantissa53_bounds b ltac:(lia)) as [[Lb _] _].
    change (2 ^ 52)%Z with 4503599627370496%Z in La, Lb.
    apply Z2Pos.inj in Hm; try lia.
    unfold mantissa53 in Hm.
    assert (Hd' : Zdigits2 a = Zdigits2 b) by lia.
    rewrite Hd' in Hm.
    pose proof (Zdigits2_le b 53 ltac:(lia) ltac:(lia) ltac:(lia)).
    apply Z.mul_cancel_r in Hm; [exact Hm|].
    assert (0 < 2 ^ (53 - Zdigits2 b))%Z by (apply Z.pow_pos_nonneg; lia).
    lia.
Qed.

Lemma final_table_sound tcs tns ls :
  final_table tcs tns ls = true ->
  forall tc tn l, In tc tcs -> In tn tns -> In l ls -> final_cell tc tn l = true.
Proof.
  unfold final_table. intros T tc tn l Hc Hn Hl.
  rewrite forallb_forall in T. specialize (T tc Hc).
  rewrite forallb_forall in T. specialize (T tn Hn).
  rewrite forallb_forall in T. exact (T l Hl).
Qed.

Lemma final_table_true :
  final_table (zs 31) (zs 26) [20; 40; 60; 80; 100]%Z = true.
Proof. vm_cast_no_check (eq_refl true). Qed.

Lemma points_list (cs : list float) :
  Forall points cs ->
  exists ks, cs = map Number_of_Z ks /\ Forall (fun k => 0 <= k <= 5)%Z ks.
Proof.
  induction 1 as [|c cs (k & Hk & ->) _ (ks & -> & Hks)].
  - exists []. split; [reflexivity | constructor].
  - exists (k :: ks). split; [reflexivity | constructor; assumption].
Qed.

Lemma total_bounds ks :
  Forall (fun k => 0 <= k <= 5)%Z ks ->
  (0 <= total ks <= 5 * Z.of_nat (length ks))%Z /\
  (total ks = 0%Z <-> Forall (fun k => k = 0%Z) ks) /\
  (total ks = (5 * Z.of_nat (length ks))%Z <-> Forall (fun k => k = 5%Z) ks).
Proof.
  induction 1 as [|k ks Hk _ (IH0 & IH1 & IH2)].
  - simpl. split; [lia|]. split; split; auto.
  - cbn [total fold_right length]. fold (total ks).
    rewrite Nat2Z.inj_succ. split; [lia|]. split; split; intros H.
    + constructor; [lia|]. apply IH1. lia.
    + inversion H as [|? ? Hk0 Hks]; subst. apply IH1 in Hks. lia.
    + constructor; [lia|]. apply IH2. lia.
    + inversion H as [|? ? Hk0 Hks]; subst. apply IH2 in Hks. lia.
Qed.

Lemma fold_points ks :
  forall a,
    Forall (fun k => 0 <= k <= 5)%Z ks -> (0 <= a)%Z ->
    (a + 5 * Z.of_nat (length ks) <= 30)%Z ->
    fold_left (fun sum score => (sum + score)%float) (map Number_of_Z ks)
      (Number_of_Z a)
    = Number_of_Z (a + total ks).
Proof.
  induction ks as [|k ks IH]; intros a Hks Ha Hb.
  - simpl. rewrite Z.add_0_r. reflexivity.
  - inversion Hks as [|? ? Hk Hks']; subst.
    cbn [length] in Hb. rewrite Nat2Z.inj_succ in Hb.
    cbn [map fold_left]. rewrite Number_of_Z_add by lia.
    rewrite IH by (try assumption; lia).
    cbn [total fold_right]. fold (total ks). f_equal. lia.
Qed.

Lemma Forall_map_eq {A B} (f : A -> B) (P : B -> Prop) (Q : A -> Prop) l :
  (forall x, In x l -> (P (f x) <-> Q x)) ->
  (Forall P (map f l) <-> Forall Q l).
Proof.
  intros H. rewrite !Forall_forall. split.
  - intros HP x Hx. apply H; [exact Hx|]. apply HP. apply in_map. exact Hx.
  - intros HQ y Hy. apply in_map_iff in Hy. destruct Hy as (x & <- & Hx).
    apply H; auto.
Qed.

Lemma dimension_extremes criteria cs :
  (criteria = 5 \/ criteria = 6) ->
  length cs = criteria -> Forall points cs ->
  let d := dimension_score criteria
             (fold_left (fun sum score => (sum + score)%float) cs 0%float) in
  (d = 0%float <-> Forall (fun x => x = 0%float) cs) /\
  (d = 100%float <-> Forall (fun x => x = 5%float) cs) /\
  exists t, (0 <= t <= 5 * Z.of_nat criteria)%Z /\
    d = Number_of_Z ((200 * t + Z.of_nat criteria * 5)
                       / (2 * (Z.of_nat criteria * 5))).
Proof.
  intros Hc Hlen Hcs d.
  destruct (points_list cs Hcs) as (ks & -> & Hks).
  rewrite length_map in Hlen.
  destruct (total_bounds ks Hks) as (Ht & Ht0 & Ht5). rewrite Hlen in Ht, Ht5.
  assert (Hd : d = Number_of_Z ((200 * total ks + Z.of_nat criteria * 5)
                                  / (2 * (Z.of_nat criteria * 5)))).
  { unfold d. change 0%float with (Number_of_Z 0).
    rewrite fold_points by (try assumption; lia).
    rewrite Z.add_0_l.
    apply dimension_score_exact; [|lia].
    destruct Hc as [-> | ->]; [apply round_ok_5 | apply round_ok_6]. }
  set (q := ((200 * total ks + Z.of_nat criteria * 5)
               / (2 * (Z.of_nat criteria * 5)))%Z) in *.
  assert (Hq : (0 <= q <= 100)%Z).
  { unfold q. split; [apply Z.div_pos; lia|].
    apply Z.lt_succ_r. apply Z.div_lt_upper_bound; lia. }
  assert (Hq0 : (q = 0 <-> total ks = 0)%Z).
  { unfold q. split; intros H.
    - assert (200 * total ks + Z.of_nat criteria * 5
              < 2 * (Z.of_nat criteria * 5))%Z
        by (apply Z.div_small_iff in H; lia).
      lia.
    - rewrite H. apply Z.div_small. lia. }
  assert (Hq100 : (q = 100 <-> total ks = 5 * Z.of_nat criteria)%Z).
  { unfold q. split; intros H.
    - assert (100 * (2 * (Z.of_nat criteria * 5))
              <= 200 * total ks + Z.of_nat criteria * 5)%Z.
      { rewrite <- H at 1. rewrite Z.mul_comm. apply Z.mul_div_le. lia. }
      lia.
    - rewrite H.
      replace (200 * (5 * Z.of_nat criteria) + Z.of_nat criteria * 5)%Z
        with (Z.of_nat criteria * 5 + 100 * (2 * (Z.of_nat criteria * 5)))%Z
        by lia.
      rewrite Z.div_add by lia. rewrite Z.div_small by lia. reflexivity. }
  assert (Hinj : forall k v, (0 <= k <= 100)%Z -> (0 <= v <= 100)%Z ->
            (Number_of_Z k = Number_of_Z v <-> k = v)).
  { intros k v Hk Hv. split; [|intros ->; reflexivity].
    apply Number_of_Z_inj; change (2 ^ 53)%Z with 9007199254740992%Z; lia. }
  split; [|split].
  - rewrite Hd. change 0%float with (Number_of_Z 0).
    rewrite (Hinj q 0%Z) by lia. rewrite Hq0, Ht0.
    symmetry. apply Forall_map_eq. intros k Hk.
    rewrite Forall_forall in Hks. apply Hinj; [|lia].
    specialize (Hks k Hk). lia.
  - rewrite Hd. change 100%float with (Number_of_Z 100).
    change 5%float with (Number_of_Z 5).
    rewrite (Hinj q 100%Z) by lia. rewrite Hq100, Ht5.
    symmetry. apply Forall_map_eq. intros k Hk.
    rewrite Forall_forall in Hks. apply Hinj; [|lia].
    specialize (Hks k Hk). lia.
  - exists (total ks). split; [lia | exact Hd].
Qed.

(** X3.  For a list of 1 to 908 literal keywords, a criterion scores 0
    exactly when no keyword occurs in the text as a whole word, and 5
    exactly when five times the number of keywords that occur exceeds four
    times half the length of the list, rounded up. *)
Theorem scoreByKeywords_extremes (text : jsstring) (keywords : list jsstring) :
  1 <= length keywords <= 908 ->
  forallb literal_word keywords = true ->
  let half := ceil_div (Z.of_nat (length keywords)) 2 in
  (scoreByKeywords text keywords = 0%float <-> match_count text keywords = 0) /\
  (scoreByKeywords text keywords = 5%float <->
   (4 * half < 5 * Z.of_nat (match_count text keywords))%Z) /\
  (2 * half <= Z.of_nat (length keywords) + 1)%Z.
Proof.
  intros Hn _ half.
  pose proof (match_count_le text keywords) as Hm.
  pose proof (ceil_div_2_bounds (Z.of_nat (length keywords)) ltac:(lia)) as Hh.
  fold half in Hh.
  rewrite scoreByKeywords_keyword_score.
  rewrite keyword_score_criterion_score by (try exact Hn; exact Hm).
  pose proof (criterion_score_range (match_count text keywords) (length keywords))
    as Hr.
  assert (Hinj : forall k v, (0 <= k <= 5)%Z -> (0 <= v <= 5)%Z ->
            (Number_of_Z k = Number_of_Z v <-> k = v)).
  { intros k v Hk Hv. split; [|intros ->; reflexivity].
    apply Number_of_Z_inj; change (2 ^ 53)%Z with 9007199254740992%Z; lia. }
  change 0%float with (Number_of_Z 0). change 5%float with (Number_of_Z 5).
  rewrite !Hinj by lia.
  unfold criterion_score in *. fold half in Hr |- *.
  set (m := Z.of_nat (match_count text keywords)) in *.
  assert (Hm0 : (0 <= m)%Z) by (unfold m; lia).
  unfold ceil_div in Hr |- *.
  split; [|split; [|lia]].
  - split; intros H.
    + assert (Hq : ((m * 5 + half - 1) / half = 0)%Z) by lia.
      apply Z.div_small_iff in Hq; lia.
    + assert (m = 0%Z) as -> by lia.
      rewrite Z.div_small by lia. lia.
  - split; intros H.
    + assert (Hq : (5 <= (m * 5 + half - 1) / half)%Z) by lia.
      assert (5 * half <= m * 5 + half - 1)%Z.
      { eapply Z.le_trans; [apply Z.mul_le_mono_nonneg_r; [lia | exact Hq]|].
        rewrite Z.mul_comm. apply Z.mul_div_le. lia. }
      lia.
    + assert (5 <= (m * 5 + half - 1) / half)%Z
        by (apply Z.div_le_lower_bound; lia).
      lia.
Qed.

Lemma scoreByKeywords_extremes_witness :
  scoreByKeywords (str "My goal is a career with a future")
    (map str ["goal"; "career"; "future"; "aspire"; "aim"; "plan"]%string)
  = 5%float.
Proof.
  apply (proj1 (proj2 (scoreByKeywords_extremes
                        (str "My goal is a career with a future")
                        (map str ["goal"; "career"; "future"; "aspire"; "aim"; "plan"]%string)
                        ltac:(simpl; lia) eq_refl))).
  vm_compute. reflexivity.
Defined.

Lemma content_criteria_points text :
  Forall points
    [ hasPersonalBackground text; hasEducationalExperience text;
      hasCareerGoals text; hasSchoolChoice text;
      hasUniqueness text; hasSpecificExamples text ].
Proof.
  repeat (apply Forall_cons;
          [apply scoreByKeywords_points; cbn [length map]; lia|]).
  apply Forall_nil.
Qed.

Lemma narrative_criteria_points text :
  Forall points
    [ hasStrongOpening text; hasCoherentStructure text;
      hasConflictResolution text; hasNarrativeDepth text;
      hasStrongClosing text ].
Proof.
  repeat (apply Forall_cons;
          [apply scoreByKeywords_points; cbn [length map]; lia|]).
  apply Forall_nil.
Qed.

(** X4.  The content and narrative scores of the heuristic version are 0
    exactly when every criterion scores 0 and 100 exactly when every
    criterion scores 5. *)
Theorem heuristic_dimension_extremes (text : jsstring) :
  let content :=
    [ hasPersonalBackground text; hasEducationalExperience text;
      hasCareerGoals text; hasSchoolChoice text;
      hasUniqueness text; hasSpecificExamples text ] in
  let narrative :=
    [ hasStrongOpening text; hasCoherentStructure text;
      hasConflictResolution text; hasNarrativeDepth text;
      hasStrongClosing text ] in
  (Heuristic.evaluateContent text = 0%float <->
   Forall (fun x => x = 0%float) content) /\
  (Heuristic.evaluateContent text = 100%float <->
   Forall (fun x => x = 5%float) content) /\
  (Heuristic.evaluateNarrative text = 0%float <->
   Forall (fun x => x = 0%float) narrative) /\
  (Heuristic.evaluateNarrative text = 100%float <->
   Forall (fun x => x = 5%float) narrative).
Proof.
  intros content narrative.
  destruct (dimension_extremes 6 content (or_intror eq_refl) eq_refl
              (content_criteria_points text)) as (C0 & C100 & _).
  destruct (dimension_extremes 5 narrative (or_introl eq_refl) eq_refl
              (narrative_criteria_points text)) as (N0 & N100 & _).
  split; [exact C0|]. split; [exact C100|]. split; [exact N0 | exact N100].
Qed.

Lemma evaluateContent_total text :
  exists t, (0 <= t <= 30)%Z /\
    Heuristic.evaluateContent text = Number_of_Z ((200 * t + 30) / 60).
Proof.
  destruct (dimension_extremes 6
              [ hasPersonalBackground text; hasEducationalExperience text;
                hasCareerGoals text; hasSchoolChoice text;
                hasUniqueness text; hasSpecificExamples text ]
              (or_intror eq_refl) eq_refl
              (content_criteria_points text)) as (_ & _ & t & Ht & Hd).
  exists t. split; [lia | exact Hd].
Qed.

Lemma evaluateNarrative_total text :
  exists t, (0 <= t <= 25)%Z /\
    Heuristic.evaluateNarrative text = Number_of_Z ((200 * t + 25) / 50).
Proof.
  destruct (dimension_extremes 5
              [ hasStrongOpening text; hasCoherentStructure text;
                hasConflictResolution text; hasNarrativeDepth text;
                hasStrongClosing text ]
              (or_introl eq_refl) eq_refl
              (narrative_criteria_points text)) as (_ & _ & t & Ht & Hd).
  exists t. split; [lia | exact Hd].
Qed.

Lemma weighted_exact tc tn l :
  (0 <= tc <= 30)%Z -> (0 <= tn <= 25)%Z ->
  (l = 20 \/ l = 40 \/ l = 60 \/ l = 80 \/ l = 100)%Z ->
  final_cell tc tn l = true.
Proof.
  intros Htc Htn Hl.
  apply (final_table_sound _ _ _ final_table_true).
  - apply zs_In. lia.
  - apply zs_In. lia.
  - cbn [In]. lia.
Qed.

(** X5.  The final score of the heuristic version is an integer from 4 to
    100: with the content score [c] and the narrative score [n], integers
    from 0 to 100, and the language score [l], one of 20, 40, 60, 80 and
    100, it is [(4c + 4n + 2l + 5) / 10] rounded down, which is the weighted
    sum [0.4c + 0.4n + 0.2l] rounded to the nearest integer, halves up. *)
Theorem heuristic_final_score (text : jsstring) :
  exists c n l : Z,
    Heuristic.content (Heuristic.evaluateText text) = Number_of_Z c /\
    Heuristic.narrative (Heuristic.evaluateText text) = Number_of_Z n /\
    Heuristic.language (Heuristic.evaluateText text) = Number_of_Z l /\
    (0 <= c <= 100)%Z /\ (0 <= n <= 100)%Z /\
    (l = 20 \/ l = 40 \/ l = 60 \/ l = 80 \/ l = 100)%Z /\
    Heuristic.final_score (Heuristic.evaluateText text)
    = Number_of_Z ((4 * c + 4 * n + 2 * l + 5) / 10) /\
    (4 <= (4 * c + 4 * n + 2 * l + 5) / 10 <= 100)%Z.
Proof.
  unfold Heuristic.evaluateText.
  cbn [Heuristic.content Heuristic.narrative Heuristic.language
       Heuristic.final_score].
  generalize (filter (fun s => truthy (trim s))
                (split Heuristic.sentence_end_re text)).
  intros sentences.
  destruct (evaluateLanguage_range sentences) as (l & Hl & HL).
  destruct (evaluateContent_total text) as (tc & Htc & HC).
  destruct (evaluateNarrative_total text) as (tn & Htn & HN).
  rewrite HC, HN, HL.
  pose proof (weighted_exact tc tn l Htc Htn Hl) as W.
  unfold final_cell, weighted in W. cbv zeta in W.
  apply FloatAxioms.Leibniz.eqb_spec in W.
  assert (Bc : (0 <= (200 * tc + 30) / 60 <= 100)%Z).
  { split; [apply Z.div_pos; lia|].
    apply Z.lt_succ_r. apply Z.div_lt_upper_bound; lia. }
  assert (Bn : (0 <= (200 * tn + 25) / 50 <= 100)%Z).
  { split; [apply Z.div_pos; lia|].
    apply Z.lt_succ_r. apply Z.div_lt_upper_bound; lia. }
  revert W Bc Bn.
  generalize ((200 * tc + 30) / 60)%Z. generalize ((200 * tn + 25) / 50)%Z.
  intros n c W Bc Bn.
  exists c, n, l.
  split; [reflexivity|]. split; [reflexivity|]. split; [reflexivity|].
  split; [exact Bc|]. split; [exact Bn|]. split; [exact Hl|].
  split; [exact W|]. split.
  - apply Z.div_le_lower_bound; lia.
  - apply Z.lt_succ_r. apply Z.div_lt_upper_bound; lia.
Qed.

(** ** The steps of the language score *)

Lemma language_table_sound nmax :
  language_table (numbers_to nmax) = true ->
  forall m n,
    1 <= n <= nmax -> m <= n ->
    step_of ((Number_of_nat m / Number_of_nat n) * 100)%float
    = language_step (Z.of_nat m) (Z.of_nat n).
Proof.
  intros T m n Hn Hm. unfold language_table in T.
  rewrite forallb_forall in T.
  assert (Hin : In (Z.of_nat n, Number_of_nat n) (tl (numbers_to nmax))).
  { unfold numbers_to.
    replace (nmax + 1) with (S nmax) by lia. cbn [seq map tl].
    apply in_map_iff. exists n. split; [reflexivity|]. apply in_seq. lia. }
  assert (Hr := T _ Hin).
  unfold language_row in Hr. cbn [fst snd] in Hr.
  rewrite forallb_forall in Hr.
  rewrite Nat2Z.id in Hr.
  assert (Hc := Hr (Z.of_nat m, Number_of_nat m)).
  cbn [fst snd] in Hc.
  apply FloatAxioms.Leibniz.eqb_spec. apply Hc.
  unfold numbers_to. rewrite firstn_map, firstn_seq_min.
  apply in_map_iff. exists m. split; [reflexivity|]. apply in_seq. lia.
Qed.

Lemma language_table_1000 : language_table (numbers_to 1000) = true.
Proof. vm_cast_no_check (eq_refl true). Qed.

Lemma evaluateLanguage_step sentences :
  Heuristic.evaluateLanguage sentences
  = language_score
      (step_of ((Number_of_nat (length (filter needsModification sentences))
                 / Number_of_nat (length sentences)) * 100)%float).
Proof.
  unfold Heuristic.evaluateLanguage, language_score, step_of. reflexivity.
Qed.

(** X6.  For 1 to 1000 sentences of which [m] out of [n] need
    modification, the language score is 100 when [100m <= 5n], 80 when
    [100m <= 10n], 60 when [100m <= 20n], 40 when [100m <= 30n] and 20
    otherwise: the percentage computed in floating point falls on the same
    side of every threshold as the exact one. *)
Theorem evaluateLanguage_steps (sentences : list jsstring) :
  1 <= length sentences <= 1000 ->
  let m := Z.of_nat (length (filter needsModification sentences)) in
  let n := Z.of_nat (length sentences) in
  Heuristic.evaluateLanguage sentences
  = if (100 * m <=? 5 * n)%Z then 100%float
    else if (100 * m <=? 10 * n)%Z then 80%float
    else if (100 * m <=? 20 * n)%Z then 60%float
    else if (100 * m <=? 30 * n)%Z then 40%float
    else 20%float.
Proof.
  intros Hn m n. rewrite evaluateLanguage_step.
  rewrite (language_table_sound 1000 language_table_1000)
    by (try exact Hn; apply filter_length_le).
  fold m n. unfold language_step.
  destruct (100 * m <=? 5 * n)%Z; [vm_compute; reflexivity|].
  destruct (100 * m <=? 10 * n)%Z; [vm_compute; reflexivity|].
  destruct (100 * m <=? 20 * n)%Z; [vm_compute; reflexivity|].
  destruct (100 * m <=? 30 * n)%Z; vm_compute; reflexivity.
Qed.

Lemma evaluateLanguage_steps_witness :
  Heuristic.evaluateLanguage
    [str "I am very passionate about all things"; str "One plain sentence";
     str "Another plain sentence"; str "A third plain sentence"]
  = 40%float.
Proof.
  apply (evaluateLanguage_steps
           [str "I am very passionate about all things"; str "One plain sentence";
            str "Another plain sentence"; str "A third plain sentence"]).
  cbn [length]. lia.
Defined.

(** ** The parser, read from left to right *)

Lemma exec_from_first_match {A} ic r (f : mstate -> A) (h : jsstring -> option A) :
  (forall bef aft, option_map f (match_here ic r bef aft) = h aft) ->
  forall aft bef, option_map f (exec_from ic r bef aft) = first_match h aft.
Proof.
  intros H. induction aft as [|x aft IH]; intros bef; simpl;
    rewrite <- (H bef); destruct (match_here ic r bef _); simpl; auto.
Qed.

Lemma starts_with_app t s : starts_with t (t ++ s) = true.
Proof.
  induction t as [|c t IH]; [reflexivity|].
  simpl. unfold jschar_eqb. rewrite N.eqb_refl. exact IH.
Qed.

Lemma starts_with_eq t s :
  starts_with t s = true -> s = t ++ skipn (length t) s.
Proof.
  revert s. induction t as [|c t IH]; intros s H; [reflexivity|].
  destruct s as [|x s]; [discriminate|]. simpl in H.
  apply andb_true_iff in H. destruct H as [Hc Ht].
  apply N.eqb_eq in Hc. subst. simpl. f_equal. apply IH. exact Ht.
Qed.

(** Pattern characters, matched as they are. *)
Lemma rmatch_Chars_exact w :
  forall st k,
    rmatch false (Chars w) st k
    = if starts_with w (after st)
      then k (MState (rev w ++ before st) (skipn (length w) (after st)) (caps st))
      else None.
Proof.
  induction w as [|c w IH]; intros st k.
  - destruct st. reflexivity.
  - cbn [Chars rmatch starts_with].
    destruct (after st) as [|x rest] eqn:Ha; [reflexivity|].
    rewrite !canonicalize_false. unfold jschar_eqb at 2.
    rewrite (N.eqb_sym c x). fold (jschar_eqb x c).
    destruct (jschar_eqb x c) eqn:E; [|reflexivity].
    rewrite IH. cbn [after before caps andb].
    destruct (starts_with w rest); [|reflexivity].
    apply N.eqb_eq in E. subst x.
    cbn [rev length skipn]. rewrite <- app_assoc. reflexivity.
Qed.

Lemma matches_Chars_after w :
  forall st st',
    matches false (Chars w) st st' ->
    after st = w ++ after st' /\ caps st' = caps st.
Proof.
  induction w as [|c w IH]; intros st st' H; simpl in H.
  - inv H. auto.
  - inversion H as [| | |r1 r2 st0 st1 st2 Hc Hw| | | | | | | |]; subst.
    inversion Hc as [|c0 x rest st0 Hx He| | | | | | | | | |]; subst.
    apply IH in Hw. destruct Hw as [Ha Hcaps].
    rewrite !canonicalize_false in He. subst x.
    simpl in *. rewrite Hx, Ha. auto.
Qed.

Lemma matches_Chars_intro w bef aft cs :
  matches false (Chars w) (MState bef (w ++ aft) cs) (MState (rev w ++ bef) aft cs).
Proof.
  revert bef. induction w as [|c w IH]; intros bef; simpl.
  - constructor.
  - eapply MSeq.
    + apply (MChar false c c (w ++ aft) (MState bef (c :: w ++ aft) cs));
        reflexivity.
    + simpl. rewrite <- app_assoc. apply IH.
Qed.

Lemma matches_star_class_intro ic g cl run :
  forall bef aft cs,
    forallb (in_class cl) run = true ->
    matches ic (Star g (Class cl)) (MState bef (run ++ aft) cs)
      (MState (rev run ++ bef) aft cs).
Proof.
  induction run as [|x run IH]; intros bef aft cs H; simpl.
  - constructor.
  - simpl in H. apply andb_true_iff in H. destruct H as [Hx Hr].
    eapply MStarStep.
    + apply (MClass ic cl x (run ++ aft) (MState bef (x :: run ++ aft) cs));
        [reflexivity | exact Hx].
    + simpl. lia.
    + simpl. rewrite <- app_assoc. apply IH. exact Hr.
Qed.

(** *** The score line *)

Lemma matches_star_class_after ic g cl st st' :
  matches ic (Star g (Class cl)) st st' ->
  caps st' = caps st /\
  exists run, after st = run ++ after st' /\ forallb (in_class cl) run = true.
Proof. apply matches_star_class. Qed.

Lemma matches_group_plus_after ic n cl st st' :
  matches ic (Group n (Plus (Class cl))) st st' ->
  exists ds,
    ds <> [] /\ forallb (in_class cl) ds = true /\
    caps st' = (n, ds) :: caps st /\ after st = ds ++ after st'.
Proof.
  intros H. unfold Plus in H.
  inversion H as [| | | | | | | |n0 r0 st0 st1 Hp| | |]; subst.
  inversion Hp as [| | |r1 r2 st0 st2 st3 Hc Hs| | | | | | | |]; subst.
  inversion Hc as [| |cl0 x rest st0 Hx Hi| | | | | | | | |]; subst.
  apply matches_star_class in Hs. destruct Hs as (Hcaps & run & Ha & Hr).
  simpl in *. exists (x :: run).
  split; [discriminate|]. split; [simpl; rewrite Hi; exact Hr|].
  split.
  - rewrite Hcaps. f_equal. f_equal. unfold consumed. simpl.
    rewrite Hx, Ha.
    change (x :: run ++ after st1) with ((x :: run) ++ after st1).
    apply firstn_app_exact.
  - rewrite Hx, Ha. reflexivity.
Qed.

Lemma drop_space_app_run run s :
  forallb is_space run = true -> drop_space (run ++ s) = drop_space s.
Proof.
  induction run as [|c run IH]; intros H; [reflexivity|].
  simpl in H. apply andb_true_iff in H. destruct H as [Hc Hr].
  simpl. rewrite Hc. apply IH. exact Hr.
Qed.

Lemma digit_not_space c : is_digit c = true -> is_space c = false.
Proof.
  intros H. apply is_digit_cases in H.
  destruct H as [->|[->|[->|[->|[->|[->|[->|[->|[->| ->]]]]]]]]]; reflexivity.
Qed.

Lemma span_digits_app ds rest :
  forallb is_digit ds = true ->
  match rest with c :: _ => is_digit c = false | [] => True end ->
  span_digits (ds ++ rest) = (ds, rest).
Proof.
  intros Hd Hr. induction ds as [|c ds IH]; simpl.
  - destruct rest as [|c rest]; [reflexivity|]. simpl. rewrite Hr. reflexivity.
  - simpl in Hd. apply andb_true_iff in Hd. destruct Hd as [Hc Hd].
    rewrite Hc, (IH Hd). reflexivity.
Qed.

Lemma span_digits_eq s :
  forallb is_digit (fst (span_digits s)) = true /\
  s = fst (span_digits s) ++ snd (span_digits s).
Proof.
  induction s as [|c s [IH1 IH2]]; simpl; [auto|].
  destruct (is_digit c) eqn:E; [|auto].
  destruct (span_digits s) as [ds rest]. simpl in *.
  rewrite E, IH1. split; [reflexivity|]. f_equal. exact IH2.
Qed.

Lemma match_here_score_re_sound bef aft m :
  match_here false score_re bef aft = Some m ->
  score_line aft = Some (group1 m).
Proof.
  unfold match_here. intros H. apply rmatch_sound in H.
  destruct H as (st' & Hm & Heq). inv Heq.
  unfold score_re in Hm.
  inversion Hm as [| | |r1 r2 st0 st1 st2 Hscore Hrest| | | | | | | |]; subst.
  inversion Hrest as [| | |r1 r2 st0 st2' st3 Hspace Hrest2| | | | | | | |]; subst.
  inversion Hrest2 as [| | |r1 r2 st0 st3' st4 Hgroup Hslash| | | | | | | |]; subst.
  apply (matches_Chars_after (str "Score:")) in Hscore.
  destruct Hscore as [A1 C1].
  apply matches_star_class in Hspace. destruct Hspace as (C2 & ws & A2 & Hws).
  apply matches_group_plus_after in Hgroup.
  destruct Hgroup as (ds & Hne & Hds & C3 & A3).
  apply (matches_Chars_after (str "/100")) in Hslash.
  destruct Hslash as [A4 C4].
  cbn [after] in A1. rewrite A2, A3, A4 in A1.
  unfold group1. rewrite C4, C3. cbn [capture Nat.eqb].
  unfold score_line. rewrite A1.
  rewrite starts_with_app.
  replace (skipn 6 (str "Score:" ++ ws ++ ds ++ str "/100" ++ after m))
    with (ws ++ ds ++ str "/100" ++ after m) by reflexivity.
  rewrite drop_space_app_run by exact Hws.
  destruct ds as [|d ds]; [congruence|].
  simpl in Hds. apply andb_true_iff in Hds. destruct Hds as [Hd Hds].
  rewrite drop_space_fix by (simpl; apply digit_not_space; exact Hd).
  change ((d :: ds) ++ str "/100" ++ after m)
    with ((d :: ds) ++ (str "/100" ++ after m)).
  rewrite span_digits_app;
    [|simpl; rewrite Hd; exact Hds | reflexivity].
  rewrite starts_with_app. reflexivity.
Qed.

Lemma match_here_score_re_complete bef aft ds :
  score_line aft = Some ds ->
  match_here false score_re bef aft <> None.
Proof.
  unfold score_line. intros H.
  destruct (starts_with (str "Score:") aft) eqn:Hs; [|discriminate].
  apply starts_with_eq in Hs. simpl length in Hs.
  destruct (drop_space_suffix (skipn 6 aft)) as (ws & Hws & Ea).
  destruct (span_digits_eq (drop_space (skipn 6 aft))) as [Hd Ed].
  destruct (span_digits (drop_space (skipn 6 aft))) as [ds' rest].
  cbn [fst snd] in Hd, Ed.
  destruct ds' as [|d ds']; [discriminate|].
  destruct (starts_with (str "/100") rest) eqn:Hr; [|discriminate].
  apply starts_with_eq in Hr. simpl length in Hr.
  rewrite Ed in Ea. rewrite Hr in Ea. rewrite Ea in Hs.
  unfold match_here.
  set (st' := MState (rev (str "/100") ++ rev (d :: ds') ++ rev ws
                        ++ rev (str "Score:") ++ bef)
                (skipn 4 rest) [(1, d :: ds')]).
  destruct (rmatch_complete false score_re (MState bef aft []) st' Some st')
    as (res & ->); [|reflexivity|discriminate].
  unfold st'.
  rewrite Hs. unfold score_re.
  eapply MSeq; [apply matches_Chars_intro|].
  eapply MSeq; [apply matches_star_class_intro; exact Hws|].
  eapply MSeq; [|apply matches_Chars_intro].
  assert (Hg : matches false (Group 1 (Plus (Class ClassDigit)))
            (MState (rev ws ++ rev (str "Score:") ++ bef)
               ((d :: ds') ++ str "/100" ++ skipn 4 rest) [])
            (MState (rev (d :: ds') ++ rev ws ++ rev (str "Score:") ++ bef)
               (str "/100" ++ skipn 4 rest)
               [(1, consumed
                      (MState (rev ws ++ rev (str "Score:") ++ bef)
                         ((d :: ds') ++ str "/100" ++ skipn 4 rest) [])
                      (MState (rev (d :: ds') ++ rev ws ++ rev (str "Score:") ++ bef)
                         (str "/100" ++ skipn 4 rest) []))])).
  { apply (MGroup false 1 (Plus (Class ClassDigit))
             (MState (rev ws ++ rev (str "Score:") ++ bef)
                ((d :: ds') ++ str "/100" ++ skipn 4 rest) [])
             (MState (rev (d :: ds') ++ rev ws ++ rev (str "Score:") ++ bef)
                (str "/100" ++ skipn 4 rest) [])).
    unfold Plus. simpl in Hd. apply andb_true_iff in Hd. destruct Hd as [Hd Hds].
    eapply MSeq.
    - apply (MClass false ClassDigit d (ds' ++ str "/100" ++ skipn 4 rest)
               (MState (rev ws ++ rev (str "Score:") ++ bef)
                  ((d :: ds') ++ str "/100" ++ skipn 4 rest) []));
        [reflexivity | exact Hd].
    - cbn [before caps]. cbn [rev]. rewrite <- app_assoc.
      apply matches_star_class_intro. exact Hds. }
  unfold consumed in Hg. cbn [after] in Hg.
  rewrite firstn_app_exact in Hg. exact Hg.
Qed.

Lemma match_here_score_re bef aft :
  option_map group1 (match_here false score_re bef aft) = score_line aft.
Proof.
  destruct (match_here false score_re bef aft) as [m|] eqn:H; simpl.
  - symmetry. apply match_here_score_re_sound with (bef := bef). exact H.
  - destruct (score_line aft) as [ds|] eqn:Hs; [|reflexivity].
    exfalso. eapply match_here_score_re_complete; eauto.
Qed.

(** *** The feedback section *)

Lemma rmatch_Class_cons ic cl bef x rest cs k :
  rmatch ic (Class cl) (MState bef (x :: rest) cs) k
  = if in_class cl x then k (MState (x :: bef) rest cs) else None.
Proof. reflexivity. Qed.

Lemma rmatch_Class_nil ic cl bef cs k :
  rmatch ic (Class cl) (MState bef [] cs) k = None.
Proof. reflexivity. Qed.

(** A greedy [\s*] in front of a continuation that accepts the end of the
    run of white space stops there. *)
Lemma star_loop_greedy_space ic k res :
  forall s bef cs fuel,
    length s <= fuel ->
    (forall bef', k (MState bef' (drop_space s) cs) = Some (res bef')) ->
    exists bef',
      star_loop true (rmatch ic (Class ClassSpace)) k fuel (MState bef s cs)
      = Some (res bef').
Proof.
  induction s as [|c s IH]; intros bef cs fuel Hf Hk.
  - destruct fuel; cbn [star_loop]; [eauto|].
    rewrite rmatch_Class_nil. simpl in Hk. rewrite Hk. eauto.
  - destruct fuel as [|fuel]; [simpl in Hf; lia|].
    cbn [star_loop]. rewrite rmatch_Class_cons. cbn [in_class].
    simpl in Hk. destruct (is_space c) eqn:Hc.
    + cbn [length after]. replace (length s <? S (length s)) with true
        by (symmetry; apply Nat.ltb_lt; lia).
      destruct (IH (c :: bef) cs fuel ltac:(simpl in Hf; lia) Hk) as (bef' & ->).
      eauto.
    + rewrite Hk. eauto.
Qed.

Lemma in_class_any c : in_class any_char c = true.
Proof. simpl. destruct (is_space c); reflexivity. Qed.

Lemma star_loop_lazy_any ic k :
  forall aft bef cs fuel,
    length aft <= fuel ->
    star_loop false (rmatch ic (Class any_char)) k fuel (MState bef aft cs)
    = lazy_scan k bef aft cs.
Proof.
  induction aft as [|x aft IH]; intros bef cs fuel Hf.
  - destruct fuel; cbn [star_loop lazy_scan]; try rewrite rmatch_Class_nil;
      destruct (k _); reflexivity.
  - destruct fuel as [|fuel]; [simpl in Hf; lia|].
    cbn [star_loop lazy_scan].
    destruct (k (MState bef (x :: aft) cs)); [reflexivity|].
    rewrite rmatch_Class_cons, in_class_any.
    cbn [length after]. replace (length aft <? S (length aft)) with true
      by (symmetry; apply Nat.ltb_lt; lia).
    apply IH. simpl in Hf. lia.
Qed.

Lemma rmatch_lookahead st k :
  rmatch false (LookAhead (Alt (Chars (str "Score:")) EndOfInput)) st k
  = if at_score_or_end (after st)
    then k (MState (before st) (after st) (caps st))
    else None.
Proof.
  cbn [rmatch]. rewrite rmatch_Chars_exact. unfold at_score_or_end.
  destruct (starts_with (str "Score:") (after st)); [reflexivity|].
  destruct (after st); reflexivity.
Qed.

Lemma before_score_split s :
  s = before_score s ++ skipn (length (before_score s)) s /\
  at_score_or_end (skipn (length (before_score s)) s) = true.
Proof.
  induction s as [|x s [IH1 IH2]]; [split; reflexivity|].
  cbn [before_score].
  destruct (starts_with (str "Score:") (x :: s)) eqn:E.
  - split; [reflexivity|]. cbn [length skipn]. unfold at_score_or_end.
    rewrite E. reflexivity.
  - cbn [length skipn app]. split; [f_equal; exact IH1 | exact IH2].
Qed.

Lemma lazy_scan_before_score start :
  forall aft pre bef cs,
    start = pre ++ aft ->
    exists res,
      lazy_scan
        (fun st' =>
           if at_score_or_end (after st')
           then Some (MState (before st') (after st')
                        ((1, firstn (length start - length (after st')) start)
                           :: caps st'))
           else None) bef aft cs = Some res /\
      caps res = (1, pre ++ before_score aft) :: cs.
Proof.
  induction aft as [|x aft IH]; intros pre bef cs Hs.
  - simpl. eexists. split; [reflexivity|]. simpl.
    rewrite Hs, app_nil_r, Nat.sub_0_r, firstn_all. reflexivity.
  - cbn [lazy_scan after before caps before_score].
    unfold at_score_or_end at 1.
    destruct (starts_with (str "Score:") (x :: aft)) eqn:E.
    + cbn [orb]. eexists. split; [reflexivity|]. cbn [caps].
      rewrite Hs, app_nil_r, firstn_app_exact. reflexivity.
    + cbn [orb].
      destruct (IH (pre ++ [x]) (x :: bef) cs) as (res & Hr & Hc).
      { rewrite Hs, <- app_assoc. reflexivity. }
      exists res. split; [exact Hr|]. rewrite Hc, <- app_assoc. reflexivity.
Qed.

Lemma lazy_scan_ext k k' :
  (forall st, k st = k' st) ->
  forall aft bef cs, lazy_scan k bef aft cs = lazy_scan k' bef aft cs.
Proof.
  intros H. induction aft as [|x aft IH]; intros bef cs; simpl;
    rewrite H; destruct (k' _); auto.
Qed.

Lemma rmatch_Group ic n r st k :
  rmatch ic (Group n r) st k
  = rmatch ic r st
      (fun st' =>
         k (MState (before st') (after st') ((n, consumed st st') :: caps st'))).
Proof. reflexivity. Qed.

Lemma rmatch_Star ic g r st k :
  rmatch ic (Star g r) st k = star_loop g (rmatch ic r) k (length (after st)) st.
Proof. reflexivity. Qed.

(** The text of the feedback: up to the next [Score:] or to the end. *)
Lemma rmatch_feedback_text bef s :
  exists res,
    rmatch false
      (Seq (Group 1 (Star false (Class any_char)))
         (LookAhead (Alt (Chars (str "Score:")) EndOfInput)))
      (MState bef s []) Some = Some res /\
    group1 res = before_score s.
Proof.
  rewrite rmatch_Seq, rmatch_Group, rmatch_Star. cbn [after].
  rewrite star_loop_lazy_any by lia.
  destruct (lazy_scan_before_score s s [] bef [] eq_refl) as (res & Hr & Hc).
  exists res. split.
  - rewrite <- Hr. apply lazy_scan_ext. intros st.
    rewrite rmatch_lookahead. cbn [after before caps]. reflexivity.
  - unfold group1. rewrite Hc. reflexivity.
Qed.

Lemma match_here_feedback_re bef aft :
  option_map group1 (match_here false feedback_re bef aft) = feedback_section aft.
Proof.
  unfold match_here, feedback_re, feedback_section.
  rewrite rmatch_Seq, rmatch_Chars_exact. cbn [after before caps].
  destruct (starts_with (str "Feedback:") aft); [|reflexivity].
  change (length (str "Feedback:")) with 9.
  generalize (skipn 9 aft). intros s.
  rewrite rmatch_Seq, rmatch_Star. cbn [after].
  set (k := fun st' => rmatch false _ st' Some).
  assert (Hk : exists res : list jschar -> mstate,
            forall bef', k (MState bef' (drop_space s) [])
                         = Some (res bef') /\
                         group1 (res bef') = before_score (drop_space s)).
  { exists (fun bef' =>
              match k (MState bef' (drop_space s) []) with
              | Some r => r
              | None => MState [] [] []
              end).
    intros bef'. unfold k.
    destruct (rmatch_feedback_text bef' (drop_space s)) as (r & Hr & Hg).
    unfold any_char in Hr. rewrite Hr. auto. }
  destruct Hk as (res & Hk).
  destruct (star_loop_greedy_space false k res s
              (rev (str "Feedback:") ++ bef) [] (length s) (le_n _)
              (fun b => proj1 (Hk b))) as (bef' & ->).
  simpl. rewrite (proj2 (Hk bef')). reflexivity.
Qed.

(** *** The digits of the score *)

Lemma digit_of_decimal c :
  is_digit c = true -> digit_of 10 c = Some (Z.of_N c - 48)%Z.
Proof.
  intros H. apply is_digit_cases in H.
  destruct H as [->|[->|[->|[->|[->|[->|[->|[->|[->| ->]]]]]]]]]; reflexivity.
Qed.

Lemma digits_value_decimal s :
  forall a,
    forallb is_digit s = true ->
    digits_value 10 (Some a) s
    = Some (fold_left (fun a c => 10 * a + (Z.of_N c - 48))%Z s a).
Proof.
  induction s as [|c s IH]; intros a H; [reflexivity|].
  simpl in H. apply andb_true_iff in H. destruct H as [Hc Hs].
  cbn [digits_value fold_left]. rewrite (digit_of_decimal c Hc).
  rewrite IH by exact Hs. f_equal. f_equal. lia.
Qed.

Lemma digits_value_decimal_value ds :
  ds <> [] -> forallb is_digit ds = true ->
  digits_value 10 None ds = Some (decimal_value ds).
Proof.
  intros Hne H. destruct ds as [|c ds]; [congruence|].
  simpl in H. apply andb_true_iff in H. destruct H as [Hc Hs].
  unfold decimal_value. cbn [digits_value fold_left].
  rewrite (digit_of_decimal c Hc), digits_value_decimal by exact Hs.
  reflexivity.
Qed.

Lemma decimal_value_nonneg ds :
  forallb is_digit ds = true -> (0 <= decimal_value ds)%Z.
Proof.
  unfold decimal_value.
  assert (H : forall a, (0 <= a)%Z -> forallb is_digit ds = true ->
            (0 <= fold_left (fun a c => 10 * a + (Z.of_N c - 48)) ds a)%Z).
  { induction ds as [|c ds IH]; intros a Ha H; [exact Ha|].
    simpl in H. apply andb_true_iff in H. destruct H as [Hc Hs].
    cbn [fold_left]. apply IH; [|exact Hs].
    apply is_digit_cases in Hc. lia. }
  apply H. lia.
Qed.

(** [parseInt] of a run of digits is its decimal value. *)
Lemma parseInt_decimal_value ds :
  ds <> [] -> forallb is_digit ds = true ->
  parseInt ds = Number_of_Z (decimal_value ds).
Proof.
  intros Hne Hd.
  pose proof (digits_value_decimal_value ds Hne Hd) as Hval.
  destruct ds as [|c ds]; [congruence|].
  simpl in Hd. apply andb_true_iff in Hd. destruct Hd as [Hc Hs].
  apply is_digit_cases in Hc.
  assert (Hradix : forall c2 rest, ds = c2 :: rest -> c2 <> 120%N /\ c2 <> 88%N).
  { intros c2 rest ->. simpl in Hs. apply andb_true_iff in Hs.
    destruct Hs as [Hc2 _]. apply is_digit_cases in Hc2. lia. }
  unfold parseInt.
  destruct Hc as [->|[->|[->|[->|[->|[->|[->|[->|[->| ->]]]]]]]]];
    cbn [drop_space is_space N.leb N.eqb N.compare Pos.compare Pos.compare_cont
         Pos.eqb andb orb];
    try (rewrite Hval; reflexivity).
  destruct ds as [|c2 rest]; [rewrite Hval; reflexivity|].
  destruct (Hradix c2 rest eq_refl) as [Hx HX].
  destruct c2 as [|p]; [rewrite Hval; reflexivity|].
  repeat (destruct p as [p|p|]; try (rewrite Hval; reflexivity); try congruence).
Qed.

(** *** The parser on strings *)

Lemma score_line_digits s ds :
  score_line s = Some ds -> ds <> [] /\ forallb is_digit ds = true.
Proof.
  unfold score_line. destruct (starts_with _ s); [|discriminate].
  destruct (span_digits_eq (drop_space (skipn 6 s))) as [Hd _].
  destruct (span_digits _) as [ds' rest]. simpl in Hd.
  destruct ds' as [|d ds']; [discriminate|].
  destruct (starts_with _ rest); [|discriminate].
  intros H. inv H. split; [discriminate | exact Hd].
Qed.

Lemma first_match_some {A} (h : jsstring -> option A) s a :
  first_match h s = Some a -> exists pre aft, s = pre ++ aft /\ h aft = Some a.
Proof.
  induction s as [|x s IH]; simpl.
  - destruct (h []) eqn:E; [|discriminate]. intros H. inv H. exists [], []. auto.
  - destruct (h (x :: s)) eqn:E.
    + intros H. inv H. exists [], (x :: s). auto.
    + intros H. destruct (IH H) as (pre & aft & -> & Ha).
      exists (x :: pre), aft. auto.
Qed.

(** *** The scores of the dimensions *)

Lemma score_value_nonneg s : (0 <= score_value s)%Z.
Proof.
  unfold score_value. destruct (first_match score_line s) as [ds|] eqn:E; [|lia].
  apply first_match_some in E. destruct E as (pre & aft & _ & Hl).
  apply score_line_digits in Hl. apply decimal_value_nonneg. tauto.
Qed.

Lemma parseEvaluationResponse_score_value response :
  exists r,
    parseEvaluationResponse response = Normal r /\
    score r
    = Number_of_Z match response with
                  | VString s => score_value s
                  | _ => 0%Z
                  end.
Proof.
  destruct response as [| |b|x|s|elems|props];
    try (eexists; split; reflexivity).
  unfold parseEvaluationResponse, score_value. cbn [String_match].
  eexists. split; [reflexivity|]. cbn [score].
  pose proof (exec_from_first_match false score_re group1 score_line
                match_here_score_re s []) as Hs.
  unfold exec. rewrite <- Hs.
  destruct (exec_from false score_re [] s) as [m|] eqn:Em; cbn [option_map];
    [|reflexivity].
  simpl in Hs. symmetry in Hs.
  apply first_match_some in Hs. destruct Hs as (pre & aft & _ & Hl).
  apply score_line_digits in Hl. destruct Hl as [Hne Hd].
  apply parseInt_decimal_value; assumption.
Qed.

Lemma evaluator_result_score dimension next :
  score (evaluator_result dimension next) = Number_of_Z (reply_score next).
Proof.
  unfold evaluator_result, reply_score.
  destruct next as [|[| |data] rest]; try reflexivity.
  destruct (choice_content data) as [v|e]; [|reflexivity].
  destruct v; try reflexivity.
  destruct (parseEvaluationResponse_score_value (VString s)) as (r & -> & Hs).
  exact Hs.
Qed.

(** C3, as the code has it.  The heuristic scores of content and narrative
    are integers from 0 to 100, and the heuristic language score is one of
    20, 40, 60, 80 and 100.  A score from the response parser is the Number
    of a non-negative integer: the value of the digits of the first score
    line of the response ([Score:], white space, digits, [/100]), and 0 when
    the response has no score line or is no string.  So is the score of a
    dimension evaluator that calls the service: that of the content of the
    first choice of the reply, and 0 when the call failed or the reply has
    no such content.  Nothing bounds these scores by 100. *)
Theorem dimension_scores :
  (forall text, exists k, (0 <= k <= 100)%Z /\
     Heuristic.evaluateContent text = Number_of_Z k) /\
  (forall text, exists k, (0 <= k <= 100)%Z /\
     Heuristic.evaluateNarrative text = Number_of_Z k) /\
  (forall sentences, exists k,
     (k = 20 \/ k = 40 \/ k = 60 \/ k = 80 \/ k = 100)%Z /\
     Heuristic.evaluateLanguage sentences = Number_of_Z k) /\
  (forall response, exists r,
     parseEvaluationResponse response = Normal r /\
     score r = Number_of_Z match response with
                           | VString s => score_value s
                           | _ => 0%Z
                           end) /\
  (forall s,
     (0 <= score_value s)%Z /\
     (first_match score_line s = None -> score_value s = 0%Z) /\
     (forall ds, first_match score_line s = Some ds ->
                 score_value s = decimal_value ds)) /\
  (forall text sv, exists c n l sc sn sl,
     Script.evaluateContent text sv = (Normal c, sc) /\
     Script.evaluateNarrative text sv = (Normal n, sn) /\
     Script.evaluateLanguage text sv = (Normal l, sl) /\
     score c = Number_of_Z (reply_score (replies sv)) /\
     score n = Number_of_Z (reply_score (replies sv)) /\
     score l = Number_of_Z (reply_score (replies sv))) /\
  (forall next, (0 <= reply_score next)%Z) /\
  (forall rest,
     reply_score [] = 0%Z /\
     reply_score (NetworkError :: rest) = 0%Z /\
     reply_score (BadBody :: rest) = 0%Z) /\
  (forall s rest,
     reply_score (Json (chat_body (VString s)) :: rest) = score_value s).
Proof.
  split; [exact evaluateContent_range|].
  split; [exact evaluateNarrative_range|].
  split; [exact evaluateLanguage_range|].
  split; [exact parseEvaluationResponse_score_value|].
  split.
  { intros s. split; [apply score_value_nonneg|].
    unfold score_value. split.
    - intros ->. reflexivity.
    - intros ds ->. reflexivity. }
  split.
  { intros text sv.
    unfold Script.evaluateContent, Script.evaluateNarrative,
      Script.evaluateLanguage. cbv zeta. rewrite !evaluate_result.
    do 6 eexists.
    split; [reflexivity|]. split; [reflexivity|]. split; [reflexivity|].
    rewrite !evaluator_result_score. auto. }
  split.
  { intros next. unfold reply_score.
    destruct next as [|[| |data] rest]; try lia.
    destruct (choice_content data) as [v|e]; [|lia].
    destruct v; try lia. apply score_value_nonneg. }
  split; [intros rest; repeat split|].
  intros s rest. reflexivity.
Qed.

Lemma dimension_scores_witness :
  exists r,
    parseEvaluationResponse
      (VString (str "Score: 42/100" ++ [LF] ++ str "Feedback: Fine."))
    = Normal r /\
    score r = Number_of_Z 42.
Proof.
  destruct (proj1 (proj2 (proj2 (proj2 dimension_scores)))
              (VString (str "Score: 42/100" ++ [LF] ++ str "Feedback: Fine.")))
    as (r & Hr & Hs).
  exists r. split; [exact Hr|]. rewrite Hs. reflexivity.
Defined.

(** *** What the parser returns *)

(** X7.  On a string the parser never throws, and what it returns can be
    read from left to right.  The score is the decimal value of the digits of
    the first place where [Score:], white space, at least one digit and
    [/100] stand, and 0 if there is no such place; the feedback is the text,
    trimmed, that follows the first [Feedback:] and the white space after it
    up to the next [Score:] or the end, and "No feedback available" if there
    is no [Feedback:]. *)
Theorem parseEvaluationResponse_parsed (s : jsstring) :
  parseEvaluationResponse (VString s) = Normal (parsed s).
Proof.
  unfold parseEvaluationResponse, parsed. cbn [String_match]. f_equal.
  pose proof (exec_from_first_match false score_re group1 score_line
                match_here_score_re s []) as Hs.
  pose proof (exec_from_first_match false feedback_re group1 feedback_section
                match_here_feedback_re s []) as Hf.
  unfold exec. rewrite <- Hs, <- Hf.
  destruct (exec_from false score_re [] s) as [m|] eqn:Em;
    destruct (exec_from false feedback_re [] s) as [m'|]; cbn [option_map];
    try reflexivity.
  - simpl in Hs. symmetry in Hs.
    apply first_match_some in Hs. destruct Hs as (pre & aft & _ & Hl).
    apply score_line_digits in Hl. destruct Hl as [Hne Hd].
    rewrite (parseInt_decimal_value _ Hne Hd). reflexivity.
  - simpl in Hs. symmetry in Hs.
    apply first_match_some in Hs. destruct Hs as (pre & aft & _ & Hl).
    apply score_line_digits in Hl. destruct Hl as [Hne Hd].
    rewrite (parseInt_decimal_value _ Hne Hd). reflexivity.
Qed.

(** *** A response in the format asked for *)

Lemma includes_nil_r s : includes s [] = true.
Proof. destruct s; reflexivity. Qed.

Lemma starts_with_prefix t a b :
  starts_with t a = true -> starts_with t (a ++ b) = true.
Proof.
  revert a. induction t as [|c t IH]; intros a H; [reflexivity|].
  destruct a as [|x a]; [discriminate|]. simpl in *.
  apply andb_true_iff in H. destruct H as [-> H]. apply IH. exact H.
Qed.

Lemma includes_starts s t : starts_with t s = true -> includes s t = true.
Proof. intros H. destruct s; simpl; rewrite H; reflexivity. Qed.

Lemma includes_iff s t :
  includes s t = true <-> exists a b, s = a ++ t ++ b.
Proof.
  split.
  - induction s as [|x s IH]; simpl.
    + rewrite orb_false_r. intros H. apply starts_with_eq in H.
      exists [], (skipn (length t) []). exact H.
    + intros H. apply orb_true_iff in H. destruct H as [H|H].
      * apply starts_with_eq in H. exists [], (skipn (length t) (x :: s)). exact H.
      * destruct (IH H) as (a & b & ->). exists (x :: a), b. reflexivity.
  - intros (a & b & ->). induction a as [|x a IH].
    + apply includes_starts. apply (starts_with_app t b).
    + simpl. simpl in IH. rewrite IH. apply orb_true_r.
Qed.

Lemma includes_sub a m b t :
  includes (a ++ m ++ b) t = false -> includes m t = false.
Proof.
  intros H. destruct (includes m t) eqn:E; [|reflexivity].
  apply includes_iff in E. destruct E as (a' & b' & ->).
  assert (includes (a ++ (a' ++ t ++ b') ++ b) t = true).
  { apply includes_iff. exists (a ++ a'), (b' ++ b).
    rewrite <- !app_assoc. reflexivity. }
  congruence.
Qed.

Lemma before_score_prefix s : exists rest, s = before_score s ++ rest.
Proof. eexists. apply before_score_split. Qed.

Lemma before_score_no_score s : includes (before_score s) (str "Score:") = false.
Proof.
  induction s as [|x s IH]; [reflexivity|].
  cbn [before_score]. destruct (starts_with (str "Score:") (x :: s)) eqn:E;
    [reflexivity|].
  cbn [includes]. rewrite IH, orb_false_r.
  destruct (starts_with (str "Score:") (x :: before_score s)) eqn:E2;
    [|reflexivity].
  destruct (before_score_prefix s) as (rest & Hr).
  apply (starts_with_prefix _ _ rest) in E2.
  simpl app in E2. rewrite <- Hr in E2. congruence.
Qed.

Lemma before_score_all s :
  includes s (str "Score:") = false -> before_score s = s.
Proof.
  induction s as [|x s IH]; [reflexivity|].
  cbn [includes before_score]. intros H. apply orb_false_iff in H.
  destruct H as [-> H]. f_equal. apply IH. exact H.
Qed.

Lemma trim_decompose s : exists a b, s = a ++ trim s ++ b.
Proof.
  destruct (drop_space_suffix s) as (w & _ & Hs).
  destruct (drop_space_suffix (rev (drop_space s))) as (w' & _ & Hr).
  apply (f_equal (@rev _)) in Hr. rewrite rev_involutive, rev_app_distr in Hr.
  exists w, (rev w'). unfold trim. rewrite <- Hr. exact Hs.
Qed.

Lemma drop_space_idempotent s : drop_space (drop_space s) = drop_space s.
Proof.
  induction s as [|c s IH]; [reflexivity|].
  simpl. destruct (is_space c) eqn:E; [exact IH|]. simpl. rewrite E. reflexivity.
Qed.

Lemma trim_drop_space s : trim (drop_space s) = trim s.
Proof. unfold trim. rewrite drop_space_idempotent. reflexivity. Qed.

Lemma first_match_feedback_skip pre rest :
  forallb (fun c => negb (jschar_eqb c 70%N)) pre = true ->
  first_match feedback_section (pre ++ rest) = first_match feedback_section rest.
Proof.
  induction pre as [|c pre IH]; intros H; [reflexivity|].
  simpl in H. apply andb_true_iff in H. destruct H as [Hc Hp].
  apply negb_true_iff in Hc.
  cbn [app first_match]. unfold feedback_section at 1.
  cbn [str list_ascii_of_string map starts_with].
  change (N_of_ascii "F") with 70%N.
  unfold jschar_eqb in *. rewrite N.eqb_sym, Hc. cbn [andb].
  apply IH. exact Hp.
Qed.

Lemma first_match_here {A} (h : jsstring -> option A) s a :
  h s = Some a -> first_match h s = Some a.
Proof. intros H. destruct s; simpl; rewrite H; reflexivity. Qed.

(** X8.  A response in the format the prompts ask for is read back: from
    "Score: ", digits, "/100", a line feed, "Feedback: " and a feedback text
    without [Score:] in it, the parser returns the value of the digits and
    the feedback text, trimmed. *)
Theorem parseEvaluationResponse_round_trip (ds fb : jsstring) :
  ds <> [] -> forallb is_digit ds = true ->
  includes fb (str "Score:") = false ->
  parseEvaluationResponse
    (VString (str "Score: " ++ ds ++ str "/100" ++ [LF]
                ++ str "Feedback: " ++ fb))
  = Normal (Result (Number_of_Z (decimal_value ds)) (trim fb)).
Proof.
  intros Hne Hd Hfb. rewrite parseEvaluationResponse_parsed. unfold parsed.
  f_equal. f_equal.
  - rewrite (first_match_here score_line _ ds); [reflexivity|].
    unfold score_line.
    change (str "Score: " ++ ds ++ str "/100" ++ [LF] ++ str "Feedback: " ++ fb)
      with (str "Score:" ++ [SPACE] ++ ds
              ++ (str "/100" ++ [LF] ++ str "Feedback: " ++ fb)).
    rewrite starts_with_app.
    replace (skipn 6 (str "Score:" ++ [SPACE] ++ ds
                        ++ str "/100" ++ [LF] ++ str "Feedback: " ++ fb))
      with ([SPACE] ++ ds ++ str "/100" ++ [LF] ++ str "Feedback: " ++ fb)
      by reflexivity.
    rewrite drop_space_app_run by reflexivity.
    destruct ds as [|d ds]; [congruence|].
    pose proof Hd as Hd'. simpl in Hd'. apply andb_true_iff in Hd'.
    rewrite drop_space_fix by (simpl; apply digit_not_space; tauto).
    rewrite span_digits_app; [|exact Hd | reflexivity].
    rewrite starts_with_app. reflexivity.
  - change (str "Score: " ++ ds ++ str "/100" ++ [LF] ++ str "Feedback: " ++ fb)
      with (str "Score: " ++ ds ++ (str "/100" ++ [LF]) ++ str "Feedback: " ++ fb).
    rewrite !app_assoc. rewrite <- (app_assoc _ (str "Feedback: ") fb).
    rewrite first_match_feedback_skip.
    + rewrite (first_match_here feedback_section _
                 (before_score (drop_space fb))).
      * rewrite before_score_all.
        -- apply trim_drop_space.
        -- destruct (drop_space_suffix fb) as (w & _ & Hw).
           apply (includes_sub w _ []). rewrite app_nil_r, <- Hw. exact Hfb.
      * unfold feedback_section.
        change (str "Feedback: " ++ fb) with (str "Feedback:" ++ SPACE :: fb).
        rewrite starts_with_app.
        replace (skipn 9 (str "Feedback:" ++ SPACE :: fb)) with (SPACE :: fb)
          by reflexivity.
        reflexivity.
    + rewrite !forallb_app. cbn [forallb str map list_ascii_of_string].
      rewrite !andb_true_iff. repeat split; try reflexivity.
      apply forallb_forall. intros c Hc.
      rewrite forallb_forall in Hd. specialize (Hd c Hc).
      apply is_digit_cases in Hd.
      destruct Hd as [->|[->|[->|[->|[->|[->|[->|[->|[->| ->]]]]]]]]];
        reflexivity.
Qed.

Lemma parseEvaluationResponse_round_trip_witness :
  parseEvaluationResponse
    (VString (str "Score: " ++ str "085" ++ str "/100" ++ [LF]
                ++ str "Feedback: " ++ str "  Strong opening.  "))
  = Normal (Result (Number_of_Z (decimal_value (str "085")))
              (trim (str "  Strong opening.  "))).
Proof.
  apply parseEvaluationResponse_round_trip.
  - discriminate.
  - reflexivity.
  - reflexivity.
Defined.

(** X9.  Whatever the response, the feedback the parser returns has no
    white space at its ends and no [Score:] in it. *)
Theorem parseEvaluationResponse_feedback (response : value) (r : result) :
  parseEvaluationResponse response = Normal r ->
  trim (feedback r) = feedback r /\
  includes (feedback r) (str "Score:") = false.
Proof.
  intros H.
  assert (Hconst : (forall x, response <> VString x) ->
            r = Result 0%float (str "Error parsing evaluation response.")).
  { intros Hn. unfold parseEvaluationResponse in H.
    destruct response; simpl in H; inv H; try reflexivity.
    exfalso. eapply Hn. reflexivity. }
  destruct response as [| | | |s| |];
    try (rewrite (Hconst ltac:(discriminate)); split; reflexivity).
  rewrite parseEvaluationResponse_parsed in H. inv H. unfold parsed.
  cbn [feedback].
  destruct (first_match feedback_section s) as [text|] eqn:E;
    [|split; reflexivity].
  split; [apply trim_idempotent|].
  apply first_match_some in E. destruct E as (pre & aft & _ & E).
  unfold feedback_section in E.
  destruct (starts_with _ aft); [|discriminate]. injection E as <-.
  destruct (trim_decompose (before_score (drop_space (skipn 9 aft))))
    as (a & b & Hd).
  apply (includes_sub a (trim (before_score (drop_space (skipn 9 aft)))) b).
  rewrite <- Hd. apply before_score_no_score.
Qed.

Lemma parseEvaluationResponse_feedback_witness :
  trim (str "Good.") = str "Good." /\
  includes (str "Good.") (str "Score:") = false.
Proof.
  apply (parseEvaluationResponse_feedback
           (VString (str "Feedback: Good. Score: 5/100"))
           (Result 5%float (str "Good."))).
  vm_compute. reflexivity.
Defined.

(** ** The suggestions and the four requests *)

Section SuggestionsLaws.

Variable Number_toString : float -> jsstring.





Lemma generateModificationSuggestions_result text scores prompt sv :
  Script.suggestions_prompt Number_toString text scores = Normal prompt ->
  Script.generateModificationSuggestions Number_toString text scores sv
  = (Normal (suggestions_result (replies sv)),
     Service (tl (replies sv))
       ([system_message; Message (str "user") prompt] :: sent sv)).
Proof.
  intros Hp. unfold Script.generateModificationSuggestions. rewrite Hp.
  unfold bind at 1. unfold lift at 1. cbv beta iota.
  unfold try_catch, bind, fetch, suggestions_result.
  destruct (replies sv) as [|[| |data] rest]; cbn [tl json throw lift ret];
    try reflexivity.
  destruct (Script.optional_content data) as [v|e]; [|reflexivity].
  destruct (to_boolean v); reflexivity.
Qed.

End SuggestionsLaws.

Lemma suggestions_result_truthy next : to_boolean (suggestions_result next) = true.
Proof.
  unfold suggestions_result.
  destruct next as [|[| |data] rest]; try reflexivity.
  destruct (Script.optional_content data) as [v|e]; [|reflexivity].
  destruct (to_boolean v) eqn:E; [exact E | reflexivity].
Qed.



Lemma includes_cons x s t : includes s t = true -> includes (x :: s) t = true.
Proof. intros H. simpl. rewrite H. apply orb_true_r. Qed.

Lemma includes_app_r p s t : includes s t = true -> includes (p ++ s) t = true.
Proof.
  intros H. induction p as [|x p IH]; [exact H|].
  simpl app. apply includes_cons. exact IH.
Qed.

Ltac find_text :=
  first [ apply includes_starts; apply starts_with_app
        | apply includes_cons; find_text
        | apply includes_app_r; find_text ].

Lemma rubric_includes quality criteria text :
  includes (Script.rubric quality criteria text) text = true.
Proof.
  unfold Script.rubric.
  assert (H : forall ls, ls <> [] ->
            includes (Script.lines (ls ++ [str "    " ++ text])) text = true).
  { induction ls as [|l ls IH]; intros Hne; [congruence|].
    destruct ls as [|l' ls].
    - cbn [app Script.lines]. apply includes_app_r, includes_cons.
      apply includes_app_r. apply includes_starts.
      rewrite <- (app_nil_r text) at 2. apply starts_with_app.
    - change (Script.lines ((l :: l' :: ls) ++ [str "    " ++ text]))
        with (l ++ LF :: Script.lines ((l' :: ls) ++ [str "    " ++ text])).
      apply includes_app_r, includes_cons. apply IH. discriminate. }
  set (tail := [[]; str "    Provide a score out of 100 and detailed feedback.";
                str "    Format your response as: Score: X/100";
                str "Feedback: [your detailed feedback]"; [];
                str "    Text to evaluate:"]).
  change ([[]; str "    Provide a score out of 100 and detailed feedback.";
           str "    Format your response as: Score: X/100";
           str "Feedback: [your detailed feedback]"; [];
           str "    Text to evaluate:"; str "    " ++ text])
    with (tail ++ [str "    " ++ text]).
  rewrite !app_assoc. apply H.
  destruct (map _ criteria); discriminate.
Qed.

Lemma evaluateText_conversation
      (Number_toString : float -> jsstring) (text : jsstring) (sv : service) :
  exists pc pn pl ps,
    let c := evaluator_result "content" (replies sv) in
    let n := evaluator_result "narrative" (tl (replies sv)) in
    let l := evaluator_result "language" (tl (tl (replies sv))) in
    let finalScore :=
      ((score c * w_content WEIGHTS + score n * w_narrative WEIGHTS
        + score l * w_language WEIGHTS) / 100)%float in
    Script.evaluateText Number_toString text sv
    = (Normal (Script.Results c n l finalScore
                 (suggestions_result (tl (tl (tl (replies sv)))))),
       Service (tl (tl (tl (tl (replies sv)))))
         ([system_message; Message (str "user") ps]
            :: [Message (str "user") pl]
            :: [Message (str "user") pn]
            :: [Message (str "user") pc] :: sent sv)) /\
    includes pc text = true /\ includes pn text = true /\
    includes pl text = true /\ includes ps text = true.
Proof.
  unfold Script.evaluateText, try_catch.
  unfold bind at 1. unfold Script.evaluateContent. rewrite evaluate_result.
  unfold bind at 1. unfold Script.evaluateNarrative. rewrite evaluate_result.
  unfold bind at 1. unfold Script.evaluateLanguage. rewrite evaluate_result.
  cbn [replies sent]. unfold bind at 1.
  match goal with
  | |- context [Script.generateModificationSuggestions _ _
                  (Script.results_object ?c ?n ?l ?f) ?s] =>
      rewrite (generateModificationSuggestions_result Number_toString text
                 (Script.results_object c n l f) _ s
                 (suggestions_prompt_results Number_toString text c n l f))
  end.
  cbn [replies sent ret].
  do 4 eexists. split; [reflexivity|].
  split; [apply rubric_includes|]. split; [apply rubric_includes|].
  split; [apply rubric_includes|].
  cbn [Script.lines]. find_text.
Qed.

(** X11.  The orchestrator of [public/script.js], the page left aside,
    always completes: it sends four requests, for content, narrative,
    language and suggestions in this order, each answered by the next
    reply, and no failure of a call stops it; each prompt holds the text;
    and it returns the three results, their weighted sum divided by 100 and
    the suggestions. *)
Theorem evaluateText_requests
        (Number_toString : float -> jsstring) (text : jsstring) (sv : service) :
  exists pc pn pl ps,
    let c := evaluator_result "content" (replies sv) in
    let n := evaluator_result "narrative" (tl (replies sv)) in
    let l := evaluator_result "language" (tl (tl (replies sv))) in
    let finalScore :=
      ((score c * w_content WEIGHTS + score n * w_narrative WEIGHTS
        + score l * w_language WEIGHTS) / 100)%float in
    Script.evaluateText Number_toString text sv
    = (Normal (Script.Results c n l finalScore
                 (suggestions_result (tl (tl (tl (replies sv)))))),
       Service (tl (tl (tl (tl (replies sv)))))
         ([system_message; Message (str "user") ps]
            :: [Message (str "user") pl]
            :: [Message (str "user") pn]
            :: [Message (str "user") pc] :: sent sv)) /\
    includes pc text = true /\ includes pn text = true /\
    includes pl text = true /\ includes ps text = true.
Proof. apply evaluateText_conversation. Qed.

(** ** The suggestions on the page *)

Lemma has_app x a b : has x (a ++ b) = has x a || has x b.
Proof. apply existsb_app. Qed.

Lemma has_replace_all x c t s :
  has x (Page.replace_all c t s) = true ->
  has x t = true \/ (jschar_eqb x c = false /\ has x s = true).
Proof.
  unfold Page.replace_all. induction s as [|y s IH]; simpl; [discriminate|].
  rewrite has_app. intros H. apply orb_true_iff in H. destruct H as [H|H].
  - destruct (jschar_eqb y c) eqn:E; [left; exact H|].
    right. simpl in H. rewrite orb_false_r in H.
    apply N.eqb_eq in H. subst y. unfold has. simpl.
    split; [exact E|]. unfold jschar_eqb. rewrite N.eqb_refl. reflexivity.
  - destruct (IH H) as [Ht|[Hx Hs]]; [left; exact Ht|].
    right. split; [exact Hx|]. unfold has in *. simpl. rewrite Hs.
    apply orb_true_r.
Qed.

Lemma replace_all_id c t s : has c s = false -> Page.replace_all c t s = s.
Proof.
  unfold Page.replace_all, has. induction s as [|y s IH]; [reflexivity|].
  simpl. intros H. apply orb_false_iff in H. destruct H as [Hy Hs].
  unfold jschar_eqb in *. rewrite N.eqb_sym, Hy. simpl. f_equal. apply IH.
  exact Hs.
Qed.

Lemma jschar_eqb_refl c : jschar_eqb c c = true.
Proof. apply N.eqb_refl. Qed.

Lemma flat_map_flat_map {A B C} (f : A -> list B) (g : B -> list C) l :
  flat_map g (flat_map f l) = flat_map (fun x => flat_map g (f x)) l.
Proof.
  induction l as [|x l IH]; [reflexivity|].
  cbn [flat_map]. rewrite flat_map_app, IH. reflexivity.
Qed.

Lemma flat_map_eq {A B} (f g : A -> list B) l :
  (forall x, In x l -> f x = g x) -> flat_map f l = flat_map g l.
Proof.
  intros H. induction l as [|x l IH]; [reflexivity|].
  cbn [flat_map]. rewrite (H x (or_introl eq_refl)), IH; [reflexivity|].
  intros y Hy. apply H. right. exact Hy.
Qed.

(** The three replacements, one after the other, as one pass. *)
Lemma replace_all_markup t :
  Page.replace_all Page.ASTERISK (str "&bull;")
    (Page.replace_all Page.BULLET (str "&bull;")
       (Page.replace_all LF (str "<br>") t))
  = flat_map (fun c => if jschar_eqb c LF then str "<br>" else bullet c) t.
Proof.
  unfold Page.replace_all. rewrite !flat_map_flat_map.
  apply flat_map_eq. intros c _. unfold bullet.
  destruct (jschar_eqb c LF) eqn:E1; [reflexivity|].
  cbn [flat_map app].
  destruct (jschar_eqb c Page.BULLET) eqn:E2; [reflexivity|].
  cbn [flat_map app orb].
  destruct (jschar_eqb c Page.ASTERISK); reflexivity.
Qed.

Lemma flat_map_join (f : jschar -> jsstring) sep ls :
  flat_map f (Page.join sep ls)
  = Page.join (flat_map f sep) (map (flat_map f) ls).
Proof.
  induction ls as [|l ls IH]; [reflexivity|].
  destruct ls as [|l' ls]; [reflexivity|].
  change (Page.join sep (l :: l' :: ls)) with (l ++ sep ++ Page.join sep (l' :: ls)).
  rewrite !flat_map_app, IH. reflexivity.
Qed.

Lemma has_rev x s : has x (rev s) = has x s.
Proof.
  unfold has. induction s as [|c s IH]; [reflexivity|].
  cbn [rev]. rewrite existsb_app, IH. cbn [existsb].
  rewrite orb_false_r. apply orb_comm.
Qed.

Lemma has_drop_space x s : has x s = false -> has x (drop_space s) = false.
Proof.
  unfold has. induction s as [|c s IH]; [reflexivity|].
  cbn [drop_space existsb]. intros H.
  destruct (is_space c); [|exact H].
  apply orb_false_iff in H. apply IH. tauto.
Qed.

Lemma has_trim x s : has x s = false -> has x (trim s) = false.
Proof.
  intros H. unfold trim. rewrite has_rev. apply has_drop_space.
  rewrite has_rev. apply has_drop_space. exact H.
Qed.

Lemma has_pieces sep s :
  Forall (fun p => has sep p = false) (pieces sep s).
Proof.
  induction s as [|x s IH]; [repeat constructor|].
  cbn [pieces]. destruct (jschar_eqb x sep) eqn:E.
  - constructor; [reflexivity | exact IH].
  - destruct (pieces sep s) as [|p ps]; [repeat constructor|].
    + unfold has. cbn [existsb]. unfold jschar_eqb in *.
      rewrite N.eqb_sym, E. reflexivity.
    + inversion IH as [|? ? Hp Hps]; subst. constructor; [|exact Hps].
      unfold has in *. cbn [existsb]. unfold jschar_eqb in *.
      rewrite N.eqb_sym, E. exact Hp.
Qed.

Lemma shown_lines_no_LF s : Forall (fun l => has LF l = false) (shown_lines s).
Proof.
  unfold shown_lines. apply Forall_forall. intros l Hl.
  apply in_map_iff in Hl. destruct Hl as (p & <- & Hp).
  apply filter_In in Hp. destruct Hp as [Hp _].
  apply has_trim. pose proof (has_pieces LF s) as H.
  rewrite Forall_forall in H. apply H. exact Hp.
Qed.

Lemma flat_map_bullet l :
  has LF l = false ->
  flat_map (fun c => if jschar_eqb c LF then str "<br>" else bullet c) l
  = flat_map bullet l.
Proof.
  intros H. apply flat_map_eq. intros c Hc.
  destruct (jschar_eqb c LF) eqn:E; [|reflexivity].
  apply N.eqb_eq in E. subst c. exfalso.
  unfold has in H. rewrite <- not_true_iff_false in H. apply H.
  apply existsb_exists. exists LF. split; [exact Hc | reflexivity].
Qed.

Lemma filter_map {A B} (f : B -> bool) (g : A -> B) l :
  filter f (map g l) = map g (filter (fun x => f (g x)) l).
Proof.
  induction l as [|x l IH]; [reflexivity|].
  cbn [map filter]. destruct (f (g x)); cbn [map]; rewrite IH; reflexivity.
Qed.

Lemma formatSuggestions_shown_lines s :
  Page.formatSuggestions s
  = Page.join (str "<br>") (map (flat_map bullet) (shown_lines s)).
Proof.
  unfold Page.formatSuggestions. cbv zeta.
  rewrite replace_all_markup, flat_map_join, split_Char.
  change (flat_map (fun c => if jschar_eqb c LF then str "<br>" else bullet c) [LF])
    with (str "<br>").
  rewrite filter_map.
  rewrite (filter_ext _ (fun line => negb (blank line))).
  - f_equal. apply map_ext_in. intros l Hl. apply flat_map_bullet.
    pose proof (shown_lines_no_LF s) as H. rewrite Forall_forall in H.
    apply H. exact Hl.
  - intros l. rewrite <- truthy_trim. destruct (trim l); reflexivity.
Qed.

Lemma pieces_join ls :
  ls <> [] -> Forall (fun l => has LF l = false) ls ->
  pieces LF (Page.join [LF] ls) = ls.
Proof.
  induction ls as [|l ls IH]; [congruence|]. intros _ H.
  inversion H as [|? ? Hl Hls]; subst.
  assert (Hp : pieces LF l = [l]).
  { apply pieces_no_sep. unfold has in Hl. rewrite <- Hl.
    apply existsb_ext. intros c. unfold jschar_eqb. apply N.eqb_sym. }
  destruct ls as [|l' ls]; [exact Hp|].
  change (Page.join [LF] (l :: l' :: ls))
    with (l ++ LF :: Page.join [LF] (l' :: ls)).
  rewrite pieces_app_sep, Hp, IH; [reflexivity | discriminate | exact Hls].
Qed.

Lemma shown_lines_join ls :
  Forall (fun l => l <> [] /\ trim l = l /\ has LF l = false) ls ->
  shown_lines (Page.join [LF] ls) = ls.
Proof.
  intros H. destruct ls as [|l0 ls0]; [reflexivity|].
  set (ls := l0 :: ls0) in *.
  unfold shown_lines. rewrite pieces_join.
  - clearbody ls. induction ls as [|l ls IH]; [reflexivity|].
    inversion H as [|? ? (Hne & Ht & _) Hls]; subst.
    cbn [filter].
    assert (Hb : blank l = false).
    { pose proof (truthy_trim l) as T. rewrite Ht in T.
      destruct l; [congruence|]. cbn in T. apply negb_true_iff. auto. }
    rewrite Hb. cbn [negb map]. rewrite Ht, (IH Hls). reflexivity.
  - discriminate.
  - eapply Forall_impl; [|exact H]. cbn. tauto.
Qed.

(** X12.  What reaches [innerHTML] are the lines of the suggestions that are
    not blank, trimmed, with every bullet and asterisk in them written as
    [&bull;], and [<br>] between one line and the next.  So it holds no
    line feed, bullet or asterisk, and a single line without them is passed
    on as it is, markup included. *)
Theorem formatSuggestions_markup (s : jsstring) :
  Page.formatSuggestions s
  = Page.join (str "<br>") (map (flat_map bullet) (shown_lines s)) /\
  (forall lines,
     Forall (fun l => l <> [] /\ trim l = l /\ has LF l = false) lines ->
     s = Page.join [LF] lines ->
     Page.formatSuggestions s
     = Page.join (str "<br>") (map (flat_map bullet) lines)) /\
  has LF (Page.formatSuggestions s) = false /\
  has Page.BULLET (Page.formatSuggestions s) = false /\
  has Page.ASTERISK (Page.formatSuggestions s) = false /\
  (s <> [] -> trim s = s ->
   has LF s = false -> has Page.BULLET s = false -> has Page.ASTERISK s = false ->
   Page.formatSuggestions s = s).
Proof.
  split; [apply formatSuggestions_shown_lines|].
  split.
  { intros lines H ->. rewrite formatSuggestions_shown_lines.
    rewrite (shown_lines_join lines H). reflexivity. }
  unfold Page.formatSuggestions. cbv zeta.
  set (joined := Page.join _ _).
  assert (Hno : forall x,
            x = LF \/ x = Page.BULLET \/ x = Page.ASTERISK ->
            has x (Page.replace_all Page.ASTERISK (str "&bull;")
                     (Page.replace_all Page.BULLET (str "&bull;")
                        (Page.replace_all LF (str "<br>") joined))) = false).
  { intros x Hx.
    match goal with |- ?b = false => destruct b eqn:E; [|reflexivity] end.
    exfalso.
    apply has_replace_all in E. destruct E as [E|[N1 E]];
      [destruct Hx as [->|[->| ->]]; discriminate E|].
    apply has_replace_all in E. destruct E as [E|[N2 E]];
      [destruct Hx as [->|[->| ->]]; discriminate E|].
    apply has_replace_all in E. destruct E as [E|[N3 E]];
      [destruct Hx as [->|[->| ->]]; discriminate E|].
    destruct Hx as [->|[->| ->]]; rewrite jschar_eqb_refl in *; discriminate. }
  split; [apply Hno; auto|]. split; [apply Hno; auto|].
  split; [apply Hno; auto|].
  intros Hne Ht Hl Hb Ha.
  assert (Hj : joined = s).
  { unfold joined. rewrite split_Char, pieces_no_sep.
    - cbn [map filter]. rewrite Ht.
      destruct s as [|c s]; [congruence|]. reflexivity.
    - unfold has in Hl. rewrite <- Hl. apply existsb_ext.
      intros c. unfold jschar_eqb. apply N.eqb_sym. }
  rewrite Hj. rewrite (replace_all_id LF) by exact Hl.
  rewrite (replace_all_id Page.BULLET) by exact Hb.
  apply replace_all_id. exact Ha.
Qed.

Lemma formatSuggestions_markup_witness :
  Page.formatSuggestions
    (str "* First" ++ LF :: 32%N :: LF :: str "  <b>Second</b> ")
  = str "&bull; First<br><b>Second</b>" /\
  Page.formatSuggestions (str "<b>Add detail</b>") = str "<b>Add detail</b>".
Proof.
  split.
  - rewrite (proj1 (formatSuggestions_markup _)). reflexivity.
  - apply (proj2 (proj2 (proj2 (proj2 (proj2
             (formatSuggestions_markup (str "<b>Add detail</b>")))))));
      first [discriminate | reflexivity].
Defined.

(** ** Showing the scores *)

Lemma jsstring_eqb_eq a b : jsstring_eqb a b = true -> a = b.
Proof.
  revert b. induction a as [|x a IH]; intros [|y b] H; simpl in H;
    try discriminate; [reflexivity|].
  apply andb_true_iff in H. destruct H as [Hx Ha].
  apply N.eqb_eq in Hx. subst. f_equal. apply IH. exact Ha.
Qed.

Lemma jsstring_eqb_refl a : jsstring_eqb a a = true.
Proof.
  induction a as [|x a IH]; [reflexivity|].
  simpl. rewrite jschar_eqb_refl. exact IH.
Qed.

Section CardLaws.

Variables (f g : Page.card -> Page.card).
Hypothesis f_dimension : forall c, Page.dimension (f c) = Page.dimension c.
Hypothesis g_dimension : forall c, Page.dimension (g c) = Page.dimension c.

Lemma update_card_idempotent d cs :
  (forall c, f (f c) = f c) ->
  Page.update_card d f (Page.update_card d f cs) = Page.update_card d f cs.
Proof.
  intros Hf. induction cs as [|c cs IH]; [reflexivity|].
  simpl. destruct (jsstring_eqb (Page.dimension c) d) eqn:E; simpl.
  - rewrite f_dimension, E, Hf. reflexivity.
  - rewrite E, IH. reflexivity.
Qed.

Lemma update_card_comm d e cs :
  d <> e ->
  Page.update_card d f (Page.update_card e g cs)
  = Page.update_card e g (Page.update_card d f cs).
Proof.
  intros Hne. induction cs as [|c cs IH]; [reflexivity|].
  simpl.
  destruct (jsstring_eqb (Page.dimension c) e) eqn:Ee;
    destruct (jsstring_eqb (Page.dimension c) d) eqn:Ed; simpl.
  - apply jsstring_eqb_eq in Ee. apply jsstring_eqb_eq in Ed. congruence.
  - rewrite g_dimension, Ed, Ee. reflexivity.
  - rewrite f_dimension, Ee, Ed. reflexivity.
  - rewrite Ee, Ed, IH. reflexivity.
Qed.

End CardLaws.

Lemma unloaded_map cs : unloaded (map (Page.with_loading false) cs) = true.
Proof. induction cs as [|c cs IH]; [reflexivity | exact IH]. Qed.

Lemma unloaded_fix cs : unloaded cs = true -> map (Page.with_loading false) cs = cs.
Proof.
  induction cs as [|c cs IH]; [reflexivity|].
  simpl. intros H. apply andb_true_iff in H. destruct H as [Hc Hcs].
  rewrite (IH Hcs). f_equal. destruct c as [d l sb fb]. simpl in Hc.
  apply negb_true_iff in Hc. subst. reflexivity.
Qed.

Lemma unloaded_update d f cs :
  (forall c, Page.loading (f c) = false) ->
  unloaded cs = true -> unloaded (Page.update_card d f cs) = true.
Proof.
  intros Hf. induction cs as [|c cs IH]; [reflexivity|].
  simpl. intros H. apply andb_true_iff in H. destruct H as [Hc Hcs].
  destruct (jsstring_eqb (Page.dimension c) d); simpl.
  - rewrite Hf, Hcs. reflexivity.
  - rewrite Hc, (IH Hcs). reflexivity.
Qed.

Section ShowLaws.

Variable Number_toString : float -> jsstring.

Lemma show_result_idempotent r c :
  Page.show_result Number_toString r (Page.show_result Number_toString r c)
  = Page.show_result Number_toString r c.
Proof.
  destruct c as [d l [sb|] [fb|]]; reflexivity.
Qed.

Lemma shown_cards_unloaded scores cs :
  unloaded (Page.shown_cards Number_toString scores cs) = true.
Proof.
  unfold Page.shown_cards.
  repeat (apply unloaded_update; [reflexivity|]). apply unloaded_map.
Qed.

Lemma shown_cards_idempotent scores cs :
  Page.shown_cards Number_toString scores
    (Page.shown_cards Number_toString scores cs)
  = Page.shown_cards Number_toString scores cs.
Proof.
  unfold Page.shown_cards at 1.
  rewrite (unloaded_fix _ (shown_cards_unloaded scores cs)).
  unfold Page.shown_cards.
  set (X := map (Page.with_loading false) cs).
  set (fc := Page.show_result Number_toString (Script.content scores)).
  set (fn := Page.show_result Number_toString (Script.narrative scores)).
  set (fl := Page.show_result Number_toString (Script.language scores)).
  assert (Dc : forall c, Page.dimension (fc c) = Page.dimension c) by reflexivity.
  assert (Dn : forall c, Page.dimension (fn c) = Page.dimension c) by reflexivity.
  assert (Dl : forall c, Page.dimension (fl c) = Page.dimension c) by reflexivity.
  rewrite (update_card_comm fc fl Dc Dl (str "content") (str "language"))
    by discriminate.
  rewrite (update_card_comm fc fn Dc Dn (str "content") (str "narrative"))
    by discriminate.
  rewrite (update_card_idempotent fc Dc)
    by (intros; apply show_result_idempotent).
  rewrite (update_card_comm fn fl Dn Dl (str "narrative") (str "language"))
    by discriminate.
  rewrite (update_card_idempotent fn Dn)
    by (intros; apply show_result_idempotent).
  rewrite (update_card_idempotent fl Dl)
    by (intros; apply show_result_idempotent).
  reflexivity.
Qed.

(** [displayScores], field by field. *)
Lemma displayScores_shown scores p :
  Page.displayScores Number_toString scores p
  = let shown := Page.shown Number_toString scores p in
    match Page.modification_suggestions p, Page.suggestions_content p with
    | Some _, Some _ =>
        if to_boolean (Script.suggestions scores)
        then match Script.suggestions scores with
             | VString s =>
                 (Normal tt,
                  Page.set_suggestions (Some false)
                    (Some (Page.formatSuggestions s)) shown)
             | _ => (Throw TypeError, shown)
             end
        else (Normal tt, shown)
    | _, _ => (Normal tt, shown)
    end.
Proof.
  destruct p as [st eb cs [fb|] er ms sc al]; reflexivity.
Qed.

Lemma shown_idempotent scores p :
  Page.shown Number_toString scores (Page.shown Number_toString scores p)
  = Page.shown Number_toString scores p.
Proof.
  destruct p as [st eb cs fb er ms sc al]. unfold Page.shown.
  cbn [Page.cards Page.final_box Page.evaluation_results
       Page.modification_suggestions Page.suggestions_content
       Page.sop_text Page.evaluate_btn Page.alerts].
  rewrite shown_cards_idempotent.
  destruct fb as [[bl [bs|]]|], er as [e|]; reflexivity.
Qed.

Lemma shown_set_suggestions scores h html p :
  Page.shown Number_toString scores (Page.set_suggestions h html p)
  = Page.set_suggestions h html (Page.shown Number_toString scores p).
Proof. reflexivity. Qed.

(** X13.  Showing the same scores a second time changes nothing:
    [displayScores] on the page it has left gives that page again, with the
    same outcome. *)
Theorem displayScores_idempotent (scores : Script.results) (p : Page.page) :
  Page.displayScores Number_toString scores
    (snd (Page.displayScores Number_toString scores p))
  = Page.displayScores Number_toString scores p.
Proof.
  rewrite (displayScores_shown scores p). cbv zeta.
  destruct (Page.modification_suggestions p) as [h|] eqn:Em;
    destruct (Page.suggestions_content p) as [html|] eqn:Ec;
    try (destruct (to_boolean (Script.suggestions scores)) eqn:Et;
         [destruct (Script.suggestions scores) eqn:Es|]);
    cbn [snd]; rewrite displayScores_shown; cbv zeta;
    rewrite ?shown_set_suggestions, ?shown_idempotent;
    cbn [Page.modification_suggestions Page.suggestions_content
         Page.set_suggestions];
    unfold Page.shown;
    cbn [Page.modification_suggestions Page.suggestions_content];
    rewrite ?Em, ?Ec, ?Et, ?Es; try reflexivity;
    cbn [to_boolean] in *; try discriminate; rewrite ?Et; reflexivity.
Qed.

End ShowLaws.

(** ** The orchestrator on the page *)

Section OrchestratorLaws.

Variable Number_toString : float -> jsstring.

Lemma evaluateText_on_page text p sv :
  Page.evaluateText Number_toString text (Page.World p sv)
  = match Page.final_box p with
    | None => (Throw TypeError, Page.World (Page.cards_loading p) sv)
    | Some x =>
        let p2 :=
          Page.set_final_box (Some (Page.box_with_loading true x))
            (Page.cards_loading p) in
        match Script.evaluateText Number_toString text sv with
        | (Normal results, sv') =>
            match Page.displayScores Number_toString results p2 with
            | (Normal _, p3) => (Normal results, Page.World p3 sv')
            | (Throw e, p3) => (Throw e, Page.World (Page.cleared p3) sv')
            end
        | (Throw e, sv') => (Throw e, Page.World (Page.cleared p2) sv')
        end
    end.
Proof.
  unfold Page.evaluateText.
  unfold Page.bind at 1. unfold Page.on_page at 1.
  cbn [Page.the_page Page.the_service].
  unfold Page.bind at 1. unfold Page.on_page at 1.
  cbn [Page.the_page Page.the_service].
  change (Page.final_box (Page.cards_loading p)) with (Page.final_box p).
  destruct (Page.final_box p) as [x|]; [|reflexivity].
  cbv zeta.
  set (p2 := Page.set_final_box _ _).
  unfold Script.evaluateText, Page.try_catch, try_catch.
  unfold Page.bind at 1. unfold bind at 1.
  unfold Page.on_service at 1. cbn [Page.the_page Page.the_service].
  destruct (Script.evaluateContent text sv) as [[c|e] sv1]; [|reflexivity].
  unfold Page.bind at 1. unfold bind at 1.
  unfold Page.on_service at 1. cbn [Page.the_page Page.the_service].
  destruct (Script.evaluateNarrative text sv1) as [[n|e] sv2]; [|reflexivity].
  unfold Page.bind at 1. unfold bind at 1.
  unfold Page.on_service at 1. cbn [Page.the_page Page.the_service].
  destruct (Script.evaluateLanguage text sv2) as [[l|e] sv3]; [|reflexivity].
  unfold Page.bind at 1. unfold bind at 1.
  unfold Page.on_service at 1. cbn [Page.the_page Page.the_service].
  destruct (Script.generateModificationSuggestions _ _ _ sv3) as [[g|e] sv4];
    [|reflexivity].
  unfold Page.bind at 1. unfold Page.on_page at 1.
  cbn [Page.the_page Page.the_service ret].
  destruct (Page.displayScores _ _ p2) as [[[]|e] p3]; reflexivity.
Qed.

(** X14.  On a page without the final score box [evaluateText] throws a
    [TypeError] before it sends a request, and leaves every score card
    loading, with its score as it was. *)
Theorem evaluateText_without_final_box (text : jsstring) (p : Page.page)
        (sv : service) :
  Page.final_box p = None ->
  exists p',
    Page.evaluateText Number_toString text (Page.World p sv)
    = (Throw TypeError, Page.World p' sv) /\
    Forall (fun c => Page.loading c = true) (Page.cards p') /\
    map Page.dimension (Page.cards p') = map Page.dimension (Page.cards p) /\
    map Page.score_box (Page.cards p') = map Page.score_box (Page.cards p).
Proof.
  intros H. exists (Page.cards_loading p).
  rewrite evaluateText_on_page, H. split; [reflexivity|].
  unfold Page.cards_loading. cbn [Page.cards Page.set_cards].
  rewrite !map_map. cbn [Page.with_loading Page.dimension Page.score_box].
  split; [|split; reflexivity].
  apply Forall_forall. intros c Hc. apply in_map_iff in Hc.
  destruct Hc as (c0 & <- & _). reflexivity.
Qed.

(** X15.  On a page with the final score box, [evaluateText] makes its four
    requests and then shows the results: the cards are those [displayScores]
    leaves, none loading, and the results section is no longer hidden.  It
    fails, with a [TypeError] and the final score box no longer loading,
    only when the page has both suggestions elements and the suggestions
    are no string; otherwise it returns the results, the final score box is
    still loading, and the suggestions, formatted, are on the page if it has
    the elements for them. *)
Theorem evaluateText_page (text : jsstring) (p : Page.page) (sv : service)
        (x : Page.box) :
  Page.final_box p = Some x ->
  exists results sv' out p',
    Script.evaluateText Number_toString text sv = (Normal results, sv') /\
    Page.evaluateText Number_toString text (Page.World p sv)
    = (out, Page.World p' sv') /\
    Page.cards p'
    = Page.shown_cards Number_toString results (Page.cards p) /\
    unloaded (Page.cards p') = true /\
    Page.evaluation_results p'
    = option_map (fun _ => false) (Page.evaluation_results p) /\
    if Page.shows_suggestions p && negb (is_string (Script.suggestions results))
    then out = Throw TypeError /\
         option_map Page.box_loading (Page.final_box p') = Some false /\
         Page.suggestions_content p' = Page.suggestions_content p
    else out = Normal results /\
         option_map Page.box_loading (Page.final_box p') = Some true /\
         (Page.shows_suggestions p = true ->
          exists s, Script.suggestions results = VString s /\
            Page.suggestions_content p' = Some (Page.formatSuggestions s) /\
            Page.modification_suggestions p' = Some false).
Proof.
  intros Hx.
  destruct (evaluateText_conversation Number_toString text sv)
    as (pc & pn & pl & ps & He & _). cbv zeta in He.
  match type of He with _ = (Normal ?r, ?s) => exists r, s end.
  rewrite evaluateText_on_page, Hx, He. cbv zeta.
  set (results := Script.Results _ _ _ _ _).
  assert (Ht : to_boolean (Script.suggestions results) = true)
    by apply suggestions_result_truthy.
  rewrite displayScores_shown. cbv zeta.
  set (p2 := Page.set_final_box _ _).
  assert (Hc : Page.shown_cards Number_toString results (Page.cards p2)
               = Page.shown_cards Number_toString results (Page.cards p)).
  { unfold p2, Page.cards_loading, Page.shown_cards.
    cbn [Page.cards Page.set_cards Page.set_final_box].
    rewrite map_map. reflexivity. }
  change (Page.modification_suggestions p2)
    with (Page.modification_suggestions p).
  change (Page.suggestions_content p2) with (Page.suggestions_content p).
  unfold Page.shows_suggestions.
  destruct (Page.modification_suggestions p) as [h|] eqn:Em;
    destruct (Page.suggestions_content p) as [html|] eqn:Ec;
    cbn [andb is_some].
  - rewrite Ht.
    destruct (Script.suggestions results) as [| | | |s| |] eqn:Es;
      cbn [is_string negb];
      eexists; eexists; (split; [reflexivity|]); (split; [reflexivity|]);
      cbn [Page.cards Page.cleared Page.set_cards Page.set_final_box
           Page.set_suggestions Page.shown Page.final_box
           Page.evaluation_results Page.suggestions_content
           Page.modification_suggestions];
      rewrite ?Hc, ?(unloaded_fix _ (shown_cards_unloaded _ _ _));
      (split; [reflexivity|]);
      (split; [apply shown_cards_unloaded|]);
      (split; [reflexivity|]);
      try (split; [reflexivity|]; split; [reflexivity|]; exact Ec).
    split; [reflexivity|]. split; [reflexivity|].
    intros _. exists s. auto.
  - eexists; eexists; (split; [reflexivity|]); (split; [reflexivity|]).
    cbn [Page.cards Page.shown Page.final_box Page.evaluation_results].
    rewrite Hc. split; [reflexivity|].
    split; [apply shown_cards_unloaded|]. split; [reflexivity|].
    split; [reflexivity|]. split; [reflexivity|]. discriminate.
  - eexists; eexists; (split; [reflexivity|]); (split; [reflexivity|]).
    cbn [Page.cards Page.shown Page.final_box Page.evaluation_results].
    rewrite Hc. split; [reflexivity|].
    split; [apply shown_cards_unloaded|]. split; [reflexivity|].
    split; [reflexivity|]. split; [reflexivity|]. discriminate.
  - eexists; eexists; (split; [reflexivity|]); (split; [reflexivity|]).
    cbn [Page.cards Page.shown Page.final_box Page.evaluation_results].
    rewrite Hc. split; [reflexivity|].
    split; [apply shown_cards_unloaded|]. split; [reflexivity|].
    split; [reflexivity|]. split; [reflexivity|]. discriminate.
Qed.

End OrchestratorLaws.

Lemma evaluateText_without_final_box_witness :
  exists p',
    Page.evaluateText (fun _ => []) (str "My essay.")
      (Page.World
         (Page.Page (Some (str "My essay.")) (Some false)
            [Page.Card (str "content") false (Some (str "--/100")) (Some [])]
            None (Some true) (Some true) (Some []) [])
         (Service [scored_reply "80" "Fine."] []))
    = (Throw TypeError,
       Page.World p' (Service [scored_reply "80" "Fine."] [])) /\
    Forall (fun c => Page.loading c = true) (Page.cards p') /\
    map Page.dimension (Page.cards p') = [str "content"] /\
    map Page.score_box (Page.cards p') = [Some (str "--/100")].
Proof.
  apply (evaluateText_without_final_box (fun _ => []) (str "My essay.")
           (Page.Page (Some (str "My essay.")) (Some false)
              [Page.Card (str "content") false (Some (str "--/100")) (Some [])]
              None (Some true) (Some true) (Some []) [])
           (Service [scored_reply "80" "Fine."] [])).
  reflexivity.
Defined.

Lemma evaluateText_page_witness :
  exists results sv' out p',
    Script.evaluateText (fun _ => []) (str "My essay.")
      (Service [scored_reply "80" "Fine."] []) = (Normal results, sv') /\
    Page.evaluateText (fun _ => []) (str "My essay.")
      (Page.World
         (Page.Page (Some (str "My essay.")) (Some false)
            [Page.Card (str "content") false (Some (str "--/100")) (Some [])]
            (Some (Page.Box false (Some (str "--/100"))))
            (Some true) (Some true) (Some []) [])
         (Service [scored_reply "80" "Fine."] []))
    = (out, Page.World p' sv') /\
    out = Normal results /\
    option_map Page.box_loading (Page.final_box p') = Some true /\
    unloaded (Page.cards p') = true.
Proof.
  destruct (evaluateText_page (fun _ => []) (str "My essay.")
              (Page.Page (Some (str "My essay.")) (Some false)
                 [Page.Card (str "content") false (Some (str "--/100")) (Some [])]
                 (Some (Page.Box false (Some (str "--/100"))))
                 (Some true) (Some true) (Some []) [])
              (Service [scored_reply "80" "Fine."] [])
              (Page.Box false (Some (str "--/100"))) eq_refl)
    as (results & sv' & out & p' & He & Hp & _ & Hu & _ & Hif).
  exists results, sv', out, p'.
  split; [exact He|]. split; [exact Hp|].
  assert (Hs : is_string (Script.suggestions results) = true).
  { vm_compute in He. injection He as <- _. reflexivity. }
  rewrite Hs in Hif. rewrite andb_false_r in Hif.
  destruct Hif as (Ho & Hb & _). auto.
Defined.

(** ** Uploading a file *)

Lemma normalize_newlines_cr_lf s :
  Page.normalize_newlines (13%N :: 10%N :: s) = LF :: Page.normalize_newlines s.
Proof. reflexivity. Qed.

Lemma normalize_newlines_cr d s :
  d <> 10%N ->
  Page.normalize_newlines (13%N :: d :: s)
  = LF :: Page.normalize_newlines (d :: s).
Proof.
  intros Hd. destruct d as [|q]; [reflexivity|].
  repeat (destruct q as [q|q|]; try reflexivity; try congruence).
Qed.

Lemma normalize_newlines_other c s :
  c <> 13%N ->
  Page.normalize_newlines (c :: s) = c :: Page.normalize_newlines s.
Proof.
  intros Hc. destruct c as [|q]; [reflexivity|].
  repeat (destruct q as [q|q|]; try reflexivity; try congruence).
Qed.

Lemma blank_normalize_newlines_upto n :
  forall s, length s <= n -> blank (Page.normalize_newlines s) = blank s.
Proof.
  induction n as [|n IH]; intros s Hn.
  - destruct s; [reflexivity | simpl in Hn; lia].
  - destruct s as [|c s]; [reflexivity|].
    assert (Hs : blank (Page.normalize_newlines s) = blank s)
      by (apply IH; simpl in Hn; lia).
    destruct (N.eq_dec c 13%N) as [->|Hc].
    + destruct s as [|d s]; [reflexivity|].
      destruct (N.eq_dec d 10%N) as [->|Hd].
      * rewrite normalize_newlines_cr_lf.
        transitivity (blank (Page.normalize_newlines s)); [reflexivity|].
        transitivity (blank s); [|reflexivity].
        apply IH. simpl in Hn. lia.
      * rewrite normalize_newlines_cr by exact Hd.
        transitivity (blank (Page.normalize_newlines (d :: s))); [reflexivity|].
        rewrite Hs. reflexivity.
    + rewrite normalize_newlines_other by exact Hc.
      unfold blank in *. cbn [forallb]. rewrite Hs. reflexivity.
Qed.

Lemma blank_normalize_newlines s : blank (Page.normalize_newlines s) = blank s.
Proof. apply (blank_normalize_newlines_upto (length s)). lia. Qed.

(** X16.  A file changes the text area only if it is of at most 5 MB, of
    type [text/plain] and could be read, and then no alert is shown.  Given
    such a file on a page with the text area, the text area holds the text
    of the file, line breaks normalised, the evaluate button is disabled
    exactly when the text is blank, and nothing else has changed. *)
Theorem handleFileUpload_accepts (f : Page.file) (p : Page.page) :
  let p' := Page.handleFileUpload (Some f) p in
  (Page.sop_text p' <> Page.sop_text p ->
   accepted f = true /\ Page.alerts p' = Page.alerts p) /\
  (accepted f = true -> Page.sop_text p <> None ->
   exists text,
     Page.file_text f = Some text /\
     p' = Page.Page (Some (Page.normalize_newlines text))
            (option_map (fun _ => blank text) (Page.evaluate_btn p))
            (Page.cards p) (Page.final_box p) (Page.evaluation_results p)
            (Page.modification_suggestions p) (Page.suggestions_content p)
            (Page.alerts p)).
Proof.
  cbv zeta. unfold Page.handleFileUpload, accepted.
  destruct (5 * 1024 * 1024 <? Page.file_size f)%Z eqn:Es.
  { split.
    - intros H. exfalso. apply H. reflexivity.
    - apply Z.ltb_lt in Es. intros H.
      apply andb_true_iff in H. destruct H as [H _].
      apply andb_true_iff in H. destruct H as [H _].
      apply Z.leb_le in H. lia. }
  apply Z.ltb_ge in Es.
  replace (Page.file_size f <=? 5 * 1024 * 1024)%Z with true
    by (symmetry; apply Z.leb_le; exact Es).
  cbn [andb].
  destruct (jsstring_eqb (Page.file_type f) (str "text/plain")) eqn:Et.
  - apply jsstring_eqb_eq in Et. rewrite Et.
    change (existsb (jsstring_eqb (str "text/plain")) Page.allowedTypes)
      with true.
    cbn [negb andb].
    destruct (Page.file_text f) as [text|].
    + destruct (Page.sop_text p) as [old|] eqn:Eo.
      * split.
        -- intros _. split; [reflexivity|].
           unfold Page.input. cbn [Page.sop_text Page.set_sop_text].
           reflexivity.
        -- intros _ _. exists text. split; [reflexivity|].
           unfold Page.input. cbn [Page.sop_text Page.set_sop_text].
           unfold Page.set_evaluate_btn, Page.set_sop_text.
           cbn [Page.sop_text Page.evaluate_btn Page.cards Page.final_box
                Page.evaluation_results Page.modification_suggestions
                Page.suggestions_content Page.alerts].
           f_equal. destruct (Page.evaluate_btn p); [|reflexivity].
           cbn [option_map]. f_equal.
           rewrite truthy_trim, negb_involutive.
           apply blank_normalize_newlines.
      * split.
        -- intros H. exfalso. apply H. cbn [Page.alert Page.sop_text].
           exact Eo.
        -- intros _ H. congruence.
    + split; [|discriminate].
      intros H. exfalso. apply H. reflexivity.
  - cbn [andb]. split; [|discriminate].
    intros H. exfalso. apply H.
    destruct (negb (existsb _ Page.allowedTypes)); reflexivity.
Qed.

Lemma handleFileUpload_accepts_witness :
  exists text,
    Some (str "Dear committee") = Some text /\
    Page.handleFileUpload
      (Some (Page.File (str "text/plain") 14 (Some (str "Dear committee"))))
      (Page.Page (Some []) (Some true) [] None (Some true) (Some true)
         (Some []) [])
    = Page.Page (Some (Page.normalize_newlines text))
        (option_map (fun _ => blank text) (Some true))
        [] None (Some true) (Some true) (Some []) [].
Proof.
  apply (proj2 (handleFileUpload_accepts
                  (Page.File (str "text/plain") 14 (Some (str "Dear committee")))
                  (Page.Page (Some []) (Some true) [] None (Some true)
                     (Some true) (Some []) []))).
  - reflexivity.
  - discriminate.
Defined.

(** X17.  No file leaves the page as it is, and a file that is turned down
    leaves it as it is but for one alert: the size is checked before the
    type, a type that is allowed but is not [text/plain] gets the advice to
    paste the text, a failed read is reported as "undefined", and a page
    without the text area as "Text area element not found". *)
Theorem handleFileUpload_rejects (f : Page.file) (p : Page.page) :
  let p' := Page.handleFileUpload (Some f) p in
  let large := (5 * 1024 * 1024 <? Page.file_size f)%Z in
  let allowed := existsb (jsstring_eqb (Page.file_type f)) Page.allowedTypes in
  let plain := jsstring_eqb (Page.file_type f) (str "text/plain") in
  Page.handleFileUpload None p = p /\
  (accepted f && is_some (Page.sop_text p) = false ->
   exists message,
     p' = Page.alert message p /\
     message
     = if large then str "File is too large. Maximum size is 5MB."
       else if negb allowed
       then str "Unsupported file type. Please upload .txt, .doc, .docx, or .pdf files."
       else if negb plain
       then str "For .doc, .docx, and .pdf files, please copy and paste the content into the text area."
       else match Page.file_text f with
            | None =>
                str "Error reading file: undefined. Please try again or paste the text directly."
            | Some _ =>
                str "Error reading file: Text area element not found. Please try again or paste the text directly."
            end).
Proof.
  cbv zeta. split; [reflexivity|].
  unfold Page.handleFileUpload, accepted.
  destruct (5 * 1024 * 1024 <? Page.file_size f)%Z eqn:Es;
    [intros _; eexists; split; reflexivity|].
  destruct (existsb (jsstring_eqb (Page.file_type f)) Page.allowedTypes);
    cbn [negb]; [|intros _; eexists; split; reflexivity].
  apply Z.ltb_ge in Es.
  replace (Page.file_size f <=? 5 * 1024 * 1024)%Z with true
    by (symmetry; apply Z.leb_le; exact Es).
  cbn [andb].
  destruct (jsstring_eqb (Page.file_type f) (str "text/plain"));
    cbn [negb andb]; [|intros _; eexists; split; reflexivity].
  destruct (Page.file_text f) as [text|]; cbn [is_some andb];
    [|intros _; eexists; split; reflexivity].
  destruct (Page.sop_text p); cbn [is_some]; [discriminate|].
  intros _. eexists. split; reflexivity.
Qed.

Lemma handleFileUpload_rejects_witness :
  exists message,
    Page.handleFileUpload
      (Some (Page.File (str "application/pdf") 6000000 None))
      (Page.Page (Some []) (Some true) [] None (Some true) (Some true)
         (Some []) [])
    = Page.alert message
        (Page.Page (Some []) (Some true) [] None (Some true) (Some true)
           (Some []) []) /\
    message = str "File is too large. Maximum size is 5MB.".
Proof.
  apply (proj2 (handleFileUpload_rejects
                  (Page.File (str "application/pdf") 6000000 None)
                  (Page.Page (Some []) (Some true) [] None (Some true)
                     (Some true) (Some []) []))).
  reflexivity.
Defined.

(** ** The evaluate button *)

Section ClickLaws.

Variable Number_toString : float -> jsstring.

Lemma set_evaluation_results_same p :
  Page.evaluation_results p = Some false ->
  Page.set_evaluation_results (Some false) p = p.
Proof. destruct p. simpl. intros ->. reflexivity. Qed.

Lemma displayScores_evaluation_results scores p :
  Page.evaluation_results (snd (Page.displayScores Number_toString scores p))
  = option_map (fun _ => false) (Page.evaluation_results p).
Proof.
  rewrite displayScores_shown. cbv zeta.
  destruct (Page.modification_suggestions p), (Page.suggestions_content p);
    try reflexivity.
  destruct (to_boolean (Script.suggestions scores)); [|reflexivity].
  destruct (Script.suggestions scores); reflexivity.
Qed.

(** X18.  On a page with the text area and the results section, a click
    does what [evaluateText] does on the text of the text area, trimmed, and
    fails when it fails: showing the scores again and unhiding the results
    section, which the listener does afterwards, changes nothing any more. *)
Theorem click_evaluates (p : Page.page) (sv : service)
        (value : jsstring) (hidden : bool) :
  Page.sop_text p = Some value ->
  Page.evaluation_results p = Some hidden ->
  Page.click Number_toString (Page.World p sv)
  = match Page.evaluateText Number_toString (trim value) (Page.World p sv) with
    | (Normal _, w) => (Normal tt, w)
    | (Throw e, w) => (Throw e, w)
    end.
Proof.
  intros Hv Hh. unfold Page.click.
  unfold Page.bind at 1. unfold Page.on_page at 1.
  cbn [Page.the_page Page.the_service]. rewrite Hv.
  unfold Page.bind at 1.
  rewrite evaluateText_on_page.
  destruct (Page.final_box p) as [x|]; [|reflexivity].
  cbv zeta.
  destruct (Script.evaluateText Number_toString (trim value) sv)
    as [[results|e] sv']; [|reflexivity].
  set (p2 := Page.set_final_box _ _).
  pose proof (displayScores_idempotent Number_toString results p2) as Hi.
  pose proof (displayScores_evaluation_results results p2) as He.
  destruct (Page.displayScores Number_toString results p2) as [[[]|e] p3];
    [|reflexivity].
  cbn [snd] in Hi, He.
  unfold Page.bind at 1. unfold Page.on_page at 1.
  cbn [Page.the_page Page.the_service]. rewrite Hi.
  unfold Page.on_page. cbn [Page.the_page Page.the_service].
  change (Page.evaluation_results p2) with (Page.evaluation_results p) in He.
  rewrite Hh in He. cbn [option_map] in He. rewrite He.
  rewrite set_evaluation_results_same by exact He. reflexivity.
Qed.

End ClickLaws.

Lemma click_evaluates_witness :
  let p :=
    Page.Page (Some (str "  My essay. ")) (Some false)
      [ Page.Card (str "content") false (Some (str "--/100")) (Some []);
        Page.Card (str "narrative") false (Some (str "--/100")) (Some []);
        Page.Card (str "language") false (Some (str "--/100")) (Some []) ]
      (Some (Page.Box false (Some (str "--/100"))))
      (Some true) (Some true) (Some []) [] in
  let sv :=
    Service [ scored_reply "80" "Fine."; scored_reply "70" "Good.";
              scored_reply "90" "Fluent.";
              Json (chat_body (VString (str "* Add detail"))) ] [] in
  exists results w,
    Page.evaluateText (fun _ => []) (str "My essay.") (Page.World p sv)
    = (Normal results, w) /\
    Page.click (fun _ => []) (Page.World p sv) = (Normal tt, w) /\
    Page.evaluation_results (Page.the_page w) = Some false /\
    Page.suggestions_content (Page.the_page w) = Some (str "&bull; Add detail") /\
    replies (Page.the_service w) = [].
Proof.
  intros p sv.
  pose proof (click_evaluates (fun _ => []) p sv (str "  My essay. ") true
                eq_refl eq_refl) as H.
  change (trim (str "  My essay. ")) with (str "My essay.") in H.
  destruct (Page.evaluateText (fun _ => []) (str "My essay.") (Page.World p sv))
    as [[results|e] w] eqn:E.
  - exists results, w. split; [reflexivity|]. split; [exact H|].
    vm_compute in E. injection E as <- <-. repeat split.
  - vm_compute in E. discriminate E.
Defined.


(** ** Letter case *)

Lemma is_word_char_canonicalize c :
  is_word_char (canonicalize true c) = is_word_char c.
Proof.
  unfold canonicalize. cbn [andb].
  destruct (is_lower c) eqn:E; [|reflexivity].
  unfold is_word_char. rewrite E.
  unfold is_lower in E. apply andb_true_iff in E. destruct E as [E1 E2].
  apply N.leb_le in E1. apply N.leb_le in E2.
  assert (Hu : is_upper (c - 32)%N = true).
  { unfold is_upper. apply andb_true_iff. split; apply N.leb_le; lia. }
  rewrite Hu. rewrite orb_true_r. reflexivity.
Qed.

Lemma canonicalize_idempotent c :
  canonicalize true (canonicalize true c) = canonicalize true c.
Proof.
  unfold canonicalize. cbn [andb].
  destruct (is_lower c) eqn:E; [|rewrite E; reflexivity].
  unfold is_lower in *. apply andb_true_iff in E. destruct E as [E1 E2].
  apply N.leb_le in E1. apply N.leb_le in E2.
  replace (97 <=? c - 32)%N with false; [reflexivity|].
  symmetry. apply N.leb_gt. lia.
Qed.

Lemma upper_case_idempotent s : upper_case (upper_case s) = upper_case s.
Proof.
  unfold upper_case. rewrite map_map. apply map_ext.
  intros c. apply canonicalize_idempotent.
Qed.

Lemma is_word_at_upper_case a b :
  upper_case a = upper_case b -> is_word_at a = is_word_at b.
Proof.
  destruct a as [|x a], b as [|y b]; try discriminate; [reflexivity|].
  simpl. intros H. injection H as H _.
  rewrite <- (is_word_char_canonicalize x), H.
  apply is_word_char_canonicalize.
Qed.

Lemma boundary_upper_case bef aft bef' aft' :
  upper_case bef = upper_case bef' -> upper_case aft = upper_case aft' ->
  boundary bef aft = boundary bef' aft'.
Proof.
  intros Hb Ha. unfold boundary.
  rewrite (is_word_at_upper_case _ _ Hb), (is_word_at_upper_case _ _ Ha).
  reflexivity.
Qed.

Lemma same_letters_upper_case w :
  forall w' aft aft',
    upper_case w = upper_case w' -> upper_case aft = upper_case aft' ->
    match same_letters w aft, same_letters w' aft' with
    | Some (u, post), Some (u', post') =>
        upper_case u = upper_case u' /\ upper_case post = upper_case post'
    | None, None => True
    | _, _ => False
    end.
Proof.
  induction w as [|c w IH]; intros [|c' w'] aft aft' Hw Ha;
    try discriminate.
  - simpl. auto.
  - simpl in Hw. injection Hw as Hc Hw.
    destruct aft as [|x aft], aft' as [|x' aft']; try discriminate;
      [exact I|].
    simpl in Ha. injection Ha as Hx Ha.
    cbn [same_letters]. unfold jschar_eqb. rewrite Hx, Hc.
    destruct (canonicalize true x' =? canonicalize true c')%N; [|exact I].
    specialize (IH w' aft aft' Hw Ha).
    destruct (same_letters w aft) as [[u post]|],
             (same_letters w' aft') as [[u' post']|]; try contradiction;
      [|exact I].
    destruct IH as [Hu Hp]. split; [|exact Hp].
    unfold upper_case in *. rewrite !map_app, Hu. simpl. rewrite Hx.
    reflexivity.
Qed.

Lemma whole_word_here_upper_case w w' bef bef' aft aft' :
  upper_case w = upper_case w' ->
  upper_case bef = upper_case bef' -> upper_case aft = upper_case aft' ->
  whole_word_here w bef aft = whole_word_here w' bef' aft'.
Proof.
  intros Hw Hb Ha. unfold whole_word_here.
  rewrite (boundary_upper_case bef aft bef' aft' Hb Ha).
  pose proof (same_letters_upper_case w w' aft aft' Hw Ha) as H.
  destruct (same_letters w aft) as [[u post]|],
           (same_letters w' aft') as [[u' post']|]; try contradiction;
    [|reflexivity].
  destruct H as [Hu Hp]. f_equal.
  apply boundary_upper_case; [|exact Hp].
  unfold upper_case in *. rewrite !map_app, Hu, Hb. reflexivity.
Qed.

Lemma whole_word_from_upper_case w w' :
  upper_case w = upper_case w' ->
  forall aft aft' bef bef',
    upper_case bef = upper_case bef' -> upper_case aft = upper_case aft' ->
    whole_word_from w bef aft = whole_word_from w' bef' aft'.
Proof.
  intros Hw. induction aft as [|x aft IH]; intros [|x' aft'] bef bef' Hb Ha;
    try discriminate; cbn [whole_word_from].
  - rewrite (whole_word_here_upper_case w w' bef bef' [] [] Hw Hb Ha).
    reflexivity.
  - rewrite (whole_word_here_upper_case w w' bef bef' _ _ Hw Hb Ha).
    f_equal. simpl in Ha. injection Ha as Hx Ha.
    apply IH; [|exact Ha]. simpl. rewrite Hx, Hb. reflexivity.
Qed.

Lemma match_count_upper_case text text' :
  upper_case text = upper_case text' ->
  forall kws kws',
    map upper_case kws = map upper_case kws' ->
    match_count text kws = match_count text' kws'.
Proof.
  intros Ht. unfold match_count.
  induction kws as [|w kws IH]; intros [|w' kws'] Hk; try discriminate;
    [reflexivity|].
  simpl in Hk. injection Hk as Hw Hk. cbn [filter].
  assert (E : whole_word_in w text = whole_word_in w' text')
    by (apply (whole_word_from_upper_case w w' Hw text text' [] [] eq_refl Ht)).
  rewrite E. specialize (IH kws' Hk).
  destruct (whole_word_in w' text'); cbn [length]; rewrite IH; reflexivity.
Qed.

(** X19.  The criterion score does not tell upper case from lower case, in
    the text or in the keywords: two texts and two lists of literal
    keywords that are the same once their letters [a-z] are put in upper
    case get the same score. *)
Theorem scoreByKeywords_ignores_case
        (text text' : jsstring) (keywords keywords' : list jsstring) :
  forallb literal_word keywords = true ->
  forallb literal_word keywords' = true ->
  upper_case text = upper_case text' ->
  map upper_case keywords = map upper_case keywords' ->
  scoreByKeywords text keywords = scoreByKeywords text' keywords'.
Proof.
  intros _ _ Ht Hk. rewrite !scoreByKeywords_keyword_score.
  rewrite (match_count_upper_case text text' Ht keywords keywords' Hk).
  apply (f_equal (@length _)) in Hk. rewrite !length_map in Hk.
  rewrite Hk. reflexivity.
Qed.

Lemma scoreByKeywords_ignores_case_witness :
  scoreByKeywords (str "MY GOAL is a Career")
    (map str ["goal"; "career"; "future"; "aspire"; "aim"; "plan"]%string)
  = scoreByKeywords (str "my goal IS A career")
      (map str ["Goal"; "CAREER"; "future"; "aspire"; "aim"; "plan"]%string).
Proof.
  apply scoreByKeywords_ignores_case; reflexivity.
Defined.

(** ** The page of the heuristic version *)

Section HeuristicPageLaws.

Variable Number_toString : float -> jsstring.



End HeuristicPageLaws.


(** ** Texts without letters *)

Lemma is_letter_canonicalize c :
  is_letter (canonicalize true c) = is_letter c.
Proof.
  unfold canonicalize, is_letter, is_upper, is_lower. cbn [andb].
  destruct (N.leb_spec 97 c); destruct (N.leb_spec c 122); cbn [andb];
    repeat match goal with
           | |- context [(?a <=? ?b)%N] => destruct (N.leb_spec a b)
           end; cbn [andb orb]; try reflexivity; lia.
Qed.

Lemma same_letters_letter w aft :
  starts_with_letter w = true -> no_letter aft = true ->
  same_letters w aft = None.
Proof.
  destruct w as [|c w]; [discriminate|]. intros Hc Ha.
  destruct aft as [|x rest]; [reflexivity|].
  cbn [same_letters]. cbn [starts_with_letter] in Hc.
  unfold no_letter in Ha. cbn [forallb] in Ha.
  apply andb_true_iff in Ha. destruct Ha as [Hx _].
  apply negb_true_iff in Hx.
  destruct (jschar_eqb (canonicalize true x) (canonicalize true c)) eqn:E;
    [|reflexivity].
  apply N.eqb_eq in E.
  rewrite <- (is_letter_canonicalize x), E, is_letter_canonicalize in Hx.
  congruence.
Qed.

Lemma whole_word_from_no_letter w :
  starts_with_letter w = true ->
  forall aft bef, no_letter aft = true -> whole_word_from w bef aft = false.
Proof.
  intros Hw. induction aft as [|x aft IH]; intros bef Ha.
  - cbn [whole_word_from]. unfold whole_word_here.
    rewrite (same_letters_letter w [] Hw Ha), andb_false_r. reflexivity.
  - cbn [whole_word_from]. unfold whole_word_here.
    rewrite (same_letters_letter w _ Hw Ha), andb_false_r. cbn [orb].
    apply IH. unfold no_letter in *. cbn [forallb] in Ha.
    apply andb_true_iff in Ha. tauto.
Qed.

Lemma match_count_no_letter text keywords :
  forallb starts_with_letter keywords = true -> no_letter text = true ->
  match_count text keywords = 0.
Proof.
  intros Hk Ht. unfold match_count.
  induction keywords as [|w ws IH]; [reflexivity|].
  cbn [forallb] in Hk. apply andb_true_iff in Hk. destruct Hk as [Hw Hk].
  cbn [filter]. unfold whole_word_in at 1.
  rewrite (whole_word_from_no_letter w Hw text [] Ht). apply IH. exact Hk.
Qed.

Lemma scoreByKeywords_no_letter text keywords :
  forallb starts_with_letter keywords = true -> no_letter text = true ->
  scoreByKeywords text keywords = keyword_score 0 (length keywords).
Proof.
  intros Hk Ht.
  rewrite scoreByKeywords_keyword_score, (match_count_no_letter _ _ Hk Ht).
  reflexivity.
Qed.

Lemma no_letter_pieces sep s :
  no_letter s = true -> forallb no_letter (pieces sep s) = true.
Proof.
  induction s as [|x s IH]; [reflexivity|].
  intros H. unfold no_letter in H. cbn [forallb] in H.
  apply andb_true_iff in H. destruct H as [Hx Hs]. specialize (IH Hs).
  cbn [pieces]. destruct (jschar_eqb x sep); [exact IH|].
  destruct (pieces sep s) as [|p ps]; cbn [forallb] in *.
  - unfold no_letter. cbn [forallb]. rewrite Hx. reflexivity.
  - apply andb_true_iff in IH. destruct IH as [Hp Hps].
    unfold no_letter at 1. cbn [forallb]. fold (no_letter p).
    rewrite Hx, Hp, Hps. reflexivity.
Qed.

Lemma forallb_last {A} (f : A -> bool) l d :
  l <> [] -> forallb f l = true -> f (last l d) = true.
Proof.
  induction l as [|x l IH]; [congruence|]. intros _ H.
  cbn [forallb] in H. apply andb_true_iff in H. destruct H as [Hx Hl].
  destruct l as [|y l]; [exact Hx|].
  change (last (x :: y :: l) d) with (last (y :: l) d).
  apply IH; [discriminate | exact Hl].
Qed.

Lemma no_letter_first_paragraph text :
  no_letter text = true ->
  no_letter (first_or_undefined (split (Char LF) text)) = true.
Proof.
  intros H. rewrite split_Char.
  pose proof (no_letter_pieces LF text H) as Hp.
  destruct (pieces_cons LF text) as (p & ps & E). rewrite E in *.
  cbn [forallb first_or_undefined] in *. apply andb_true_iff in Hp. exact (proj1 Hp).
Qed.

Lemma no_letter_last_paragraph text :
  no_letter text = true ->
  no_letter (last_or_undefined (split (Char LF) text)) = true.
Proof.
  intros H. rewrite split_Char. unfold last_or_undefined.
  apply forallb_last; [|apply no_letter_pieces; exact H].
  destruct (pieces_cons LF text) as (p & ps & ->). discriminate.
Qed.

Lemma evaluateContent_no_letter text :
  no_letter text = true -> Heuristic.evaluateContent text = 0%float.
Proof.
  intros H. unfold Heuristic.evaluateContent.
  unfold hasPersonalBackground, hasEducationalExperience, hasCareerGoals,
    hasSchoolChoice, hasUniqueness, hasSpecificExamples.
  cbv zeta.
  rewrite !scoreByKeywords_no_letter by first [exact H | reflexivity].
  vm_compute. reflexivity.
Qed.

Lemma evaluateNarrative_no_letter text :
  no_letter text = true -> Heuristic.evaluateNarrative text = 0%float.
Proof.
  intros H. unfold Heuristic.evaluateNarrative.
  unfold hasStrongOpening, hasCoherentStructure, hasConflictResolution,
    hasNarrativeDepth, hasStrongClosing.
  cbv zeta.
  rewrite !scoreByKeywords_no_letter
    by first [ exact H
             | apply no_letter_first_paragraph; exact H
             | apply no_letter_last_paragraph; exact H
             | reflexivity ].
  vm_compute. reflexivity.
Qed.

Lemma punctuation_no_letter text :
  punctuation_only text = true -> no_letter text = true.
Proof.
  unfold punctuation_only, no_letter. intros H.
  rewrite forallb_forall in *. intros c Hc. specialize (H c Hc).
  apply negb_true_iff. destruct (is_letter c) eqn:E; [|reflexivity].
  exfalso.
  assert (Hr : (65 <= c <= 122)%N).
  { unfold is_letter, is_upper, is_lower in E.
    apply orb_true_iff in E.
    destruct E as [E|E]; apply andb_true_iff in E; destruct E as [E1 E2];
      apply N.leb_le in E1, E2; lia. }
  assert (Hs : is_space c = false).
  { unfold is_space.
    repeat match goal with
           | |- context [(?a =? ?b)%N] =>
               destruct (N.eqb_spec a b); [lia|]
           | |- context [(?a <=? ?b)%N] =>
               destruct (N.leb_spec a b); try lia
           end; reflexivity. }
  assert (Ht : is_terminator c = false).
  { unfold is_terminator. cbn. unfold jschar_eqb.
    repeat match goal with
           | |- context [(?a =? ?b)%N] =>
               destruct (N.eqb_spec a b); [lia|]
           end; reflexivity. }
  rewrite Hs, Ht in H. discriminate.
Qed.

Lemma sentences_of_nil text :
  sentences_of text = [] <-> punctuation_only text = true.
Proof.
  destruct (split_sentences text) as [Hc _].
  unfold sentences_of, punctuation_only. rewrite filter_nil_forallb.
  rewrite (forallb_eq _ blank)
    by (intros s; rewrite truthy_trim; apply negb_involutive).
  rewrite <- blank_concat, Hc. unfold blank. rewrite forallb_filter.
  rewrite (forallb_eq _ (fun c => is_terminator c || is_space c))
    by (intros c; rewrite negb_involutive; reflexivity).
  tauto.
Qed.

(** X21.  A text without a letter of [A-Z] and [a-z] gets content score 0
    and narrative score 0 from the heuristic version, and as final score a
    fifth of its language score; a text of nothing but sentence terminators
    and white space, the empty text among them, has no sentence and gets
    language score 20 and final score 4. *)
Theorem heuristic_without_letters (text : jsstring) :
  (no_letter text = true ->
   Heuristic.content (Heuristic.evaluateText text) = 0%float /\
   Heuristic.narrative (Heuristic.evaluateText text) = 0%float /\
   exists l,
     (l = 20 \/ l = 40 \/ l = 60 \/ l = 80 \/ l = 100)%Z /\
     Heuristic.language (Heuristic.evaluateText text) = Number_of_Z l /\
     Heuristic.final_score (Heuristic.evaluateText text) = Number_of_Z (l / 5)) /\
  (punctuation_only text = true ->
   Heuristic.evaluateText text = Heuristic.Scores 0 0 20 4).
Proof.
  assert (A : no_letter text = true ->
              forall l,
                (l = 20 \/ l = 40 \/ l = 60 \/ l = 80 \/ l = 100)%Z ->
                Heuristic.evaluateLanguage (sentences_of text) = Number_of_Z l ->
                Heuristic.evaluateText text
                = Heuristic.Scores 0 0 (Number_of_Z l) (Number_of_Z (l / 5))).
  { intros H l Hl HL. unfold Heuristic.evaluateText. fold (sentences_of text).
    cbv zeta. rewrite (evaluateContent_no_letter _ H),
      (evaluateNarrative_no_letter _ H), HL.
    f_equal.
    pose proof (weighted_exact 0 0 l ltac:(lia) ltac:(lia) Hl) as W.
    unfold final_cell, weighted in W. cbv zeta in W.
    apply FloatAxioms.Leibniz.eqb_spec in W.
    change (Number_of_Z ((200 * 0 + 30) / 60)) with 0%float in W.
    change (Number_of_Z ((200 * 0 + 25) / 50)) with 0%float in W.
    rewrite W. f_equal.
    destruct Hl as [->|[->|[->|[->| ->]]]]; reflexivity. }
  split.
  - intros H.
    destruct (evaluateLanguage_range (sentences_of text)) as (l & Hl & HL).
    rewrite (A H l Hl HL). cbn [Heuristic.content Heuristic.narrative
                                  Heuristic.language Heuristic.final_score].
    split; [reflexivity|]. split; [reflexivity|].
    exists l. auto.
  - intros H.
    pose proof (proj2 (sentences_of_nil text) H) as Hs.
    rewrite (A (punctuation_no_letter _ H) 20%Z); [reflexivity | lia |].
    rewrite Hs. vm_compute. reflexivity.
Qed.

Lemma heuristic_without_letters_witness :
  Heuristic.evaluateText (str " ?! ") = Heuristic.Scores 0 0 20 4.
Proof.
  apply (proj2 (heuristic_without_letters (str " ?! "))). reflexivity.
Defined.
